(** * Verification of the vector database tool ([tools/vector_db_tool.py])

    A shallow embedding of [VectorDB] (an SQLite-backed document store with a
    brute-force cosine-similarity query) together with the parts of NumPy,
    [json] and [sqlite3] that its two operations rely on.

    - [F32], [Np]: IEEE-754 binary32 arithmetic (through [SpecFloat]) and the
      NumPy calls of [query]: [dot], [linalg.norm], [argsort], slicing,
      [tobytes] / [frombuffer].
    - [Json]: [json.dumps] / [json.loads] on the JSON fragment without
      fractional numbers.
    - [Sqlite]: the two tables, the statements the tool issues, and commits.
    - [VectorDB]: [_get_or_create_collection], [write], [query], and the
      command-line entry point. *)

From Stdlib Require Import ZArith List String Ascii Bool Lia Arith.
From Stdlib Require Import Strings.Byte.
From Stdlib Require Import SpecFloat.
From Stdlib Require DecimalString DecimalZ Decimal DecimalPos DecimalFacts.
From Stdlib Require Import Sorted Permutation.
Import ListNotations.

Local Open Scope string_scope.
Local Open Scope list_scope.
Local Open Scope Z_scope.

(** ** Python exceptions and results *)

(** The exception classes that can reach the [except Exception] handlers of
    [write] and [query]; [exn_str] is Python's [str(e)]. *)
Inductive exn : Type :=
| ValueError (msg : string)
| JSONDecodeError (msg : string)
| OperationalError (msg : string)
| IntegrityError (msg : string)
| RuntimeError (msg : string).

Definition exn_str (e : exn) : string :=
  match e with
  | ValueError m | JSONDecodeError m | OperationalError m
  | IntegrityError m | RuntimeError m => m
  end.

Inductive result (A : Type) : Type :=
| Ok (a : A)
| Raise (e : exn).
Arguments Ok {A} a.
Arguments Raise {A} e.

Definition rbind {A B} (r : result A) (k : A -> result B) : result B :=
  match r with
  | Ok a => k a
  | Raise e => Raise e
  end.

Declare Scope result_scope.
Delimit Scope result_scope with result.
Notation "x <-? r ;; k" := (rbind r (fun x => k))
  (at level 61, r at next level, right associativity) : result_scope.

(** [mapM] over [result]: the first exception aborts the loop. *)
Fixpoint traverse {A B} (f : A -> result B) (l : list A) : result (list B) :=
  match l with
  | [] => Ok []
  | a :: l' =>
      match f a with
      | Raise e => Raise e
      | Ok b =>
          match traverse f l' with
          | Raise e => Raise e
          | Ok bs => Ok (b :: bs)
          end
      end
  end.

(** ** IEEE-754 binary32 *)

Module F32.
Definition prec : Z := 24.
Definition emax : Z := 128.

Definition t := spec_float.

Definition zero : t := S754_zero false.
Definition add : t -> t -> t := SFadd prec emax.
Definition mul : t -> t -> t := SFmul prec emax.
Definition div : t -> t -> t := SFdiv prec emax.
Definition sqrt : t -> t := SFsqrt prec emax.
Definition ltb : t -> t -> bool := SFltb.
Definition leb : t -> t -> bool := SFleb.
Definition eqb : t -> t -> bool := SFeqb.

Definition is_nan (x : t) : bool :=
  match x with S754_nan => true | _ => false end.
Definition is_zero (x : t) : bool :=
  match x with S754_zero _ => true | _ => false end.
Definition is_finite (x : t) : bool :=
  match x with S754_zero _ | S754_finite _ _ _ => true | _ => false end.

(** Decoding of a 32-bit pattern: 1 sign bit, 8 exponent bits, 23 fraction
    bits. *)
Definition of_bits (w : Z) : t :=
  let sign := Z.testbit w 31 in
  let ex := Z.land (Z.shiftr w 23) 255 in
  let frac := Z.land w 8388607 in
  if ex =? 0 then
    match frac with
    | Zpos p => S754_finite sign p (-149)
    | _ => S754_zero sign
    end
  else if ex =? 255 then
    if frac =? 0 then S754_infinity sign else S754_nan
  else
    match frac + 8388608 with
    | Zpos p => S754_finite sign p (ex - 150)
    | _ => S754_nan
    end.
End F32.

(** ** NumPy *)

Module Np.
(** One item of a [float32] array: four bytes, little-endian, as in the
    array's buffer. *)
Definition float32 : Type := (byte * byte * byte * byte)%type.
Definition ndarray : Type := list float32.

Definition bits (x : float32) : Z :=
  let '(b0, b1, b2, b3) := x in
  Z.of_N (Byte.to_N b0) + 256 * Z.of_N (Byte.to_N b1)
  + 65536 * Z.of_N (Byte.to_N b2) + 16777216 * Z.of_N (Byte.to_N b3).

Definition val (x : float32) : F32.t := F32.of_bits (bits x).

(** [ndarray.tobytes()] *)
Definition tobytes (a : ndarray) : list byte :=
  flat_map (fun x : float32 => let '(b0, b1, b2, b3) := x in [b0; b1; b2; b3]) a.

(** [np.frombuffer(buf, dtype=np.float32)]: fails when the buffer size is
    not a multiple of the item size. *)
Fixpoint frombuffer (buf : list byte) : result ndarray :=
  match buf with
  | [] => Ok []
  | b0 :: b1 :: b2 :: b3 :: rest =>
      match frombuffer rest with
      | Ok a => Ok ((b0, b1, b2, b3) :: a)
      | Raise e => Raise e
      end
  | _ => Raise (ValueError "buffer size must be a multiple of element size")
  end.

(** The accumulation of [np.dot] on two equally long vectors, in binary32,
    left to right. *)
Definition sdot (xy : list (float32 * float32)) : F32.t :=
  fold_left (fun acc p => F32.add acc (F32.mul (val (fst p)) (val (snd p))))
            xy F32.zero.

(** [np.dot(a, b)] on 1-D arrays: shapes must agree. *)
Definition dot (a b : ndarray) : result F32.t :=
  if Nat.eqb (List.length a) (List.length b) then Ok (sdot (combine a b))
  else Raise (ValueError "shapes not aligned").

(** [np.linalg.norm(x)] on a real 1-D array: [sqrt(x.dot(x))]. *)
Definition norm (x : ndarray) : F32.t := F32.sqrt (sdot (combine x x)).

(** The order NumPy sorts floats by: [a < b || (b != b && a == a)], so that
    NaN is greater than every number. *)
Definition float_lt (a b : F32.t) : bool :=
  F32.ltb a b || (F32.is_nan b && negb (F32.is_nan a)).

(** [np.argsort(v)] with the default [kind='quicksort'], as implemented by
    NumPy's portable introsort ([npysort/quicksort]).  It finishes every
    partition of at most 16 elements with the insertion sort below (an index
    moves left while its value is [float_lt] its left neighbour's); this is
    the whole algorithm for arrays of at most 16 elements.  Longer arrays are
    first partitioned around pivots, and builds that dispatch to vectorised
    sorting networks sort differently; both yield the same ascending order of
    values but may order equal values differently. *)
Section Argsort.
Variable v : list F32.t.

Definition at_ (i : nat) : F32.t := nth i v S754_nan.

(** [insert_left vi rp]: [rp] is the sorted prefix read right to left. *)
Fixpoint insert_left (vi : nat) (rp : list nat) : list nat :=
  match rp with
  | [] => [vi]
  | k :: rest =>
      if float_lt (at_ vi) (at_ k) then k :: insert_left vi rest
      else vi :: rp
  end.

Definition argsort : list nat :=
  rev (fold_left (fun rp vi => insert_left vi rp) (seq 0 (List.length v)) []).
End Argsort.

(** [a[::-1]] *)
Definition reversed {A} (a : list A) : list A := rev a.

(** [a[:n]] for a Python integer [n]: a negative [n] counts from the end. *)
Definition slice_to {A} (a : list A) (n : Z) : list A :=
  if n <? 0 then firstn (Z.to_nat (Z.max 0 (Z.of_nat (List.length a) + n))) a
  else firstn (Z.to_nat n) a.
End Np.

(** ** Python's [str(int)] *)

Definition str_of_Z (z : Z) : string :=
  DecimalString.NilZero.string_of_int (Z.to_int z).

(** ** The [json] module *)

Module Json.
Local Open Scope char_scope.

(** JSON values as Python objects: [None], [bool], [int], [str], [list] and
    [dict] with string keys (in insertion order).  Python [float]s are not
    part of this fragment.  Characters of a [str] are code points below
    256. *)
Unset Elimination Schemes.
Inductive json : Type :=
| JNull
| JBool (b : bool)
| JInt (z : Z)
| JStr (s : string)
| JList (l : list json)
| JDict (kvs : list (string * json)).
Set Elimination Schemes.

(** Python truthiness ([if metadata]). *)
Definition truthy (j : json) : bool :=
  match j with
  | JNull => false
  | JBool b => b
  | JInt z => negb (z =? 0)%Z
  | JStr s => negb (String.eqb s EmptyString)
  | JList l => match l with [] => false | _ => true end
  | JDict kvs => match kvs with [] => false | _ => true end
  end.

Definition quote : ascii := "034".
Definition backslash : ascii := "\".

Definition hex_digit (n : N) : ascii :=
  if (n <? 10)%N then ascii_of_N (48 + n) else ascii_of_N (87 + n).

(** [json.encoder.py_encode_basestring_ascii] on one character. *)
Definition escape_char (c : ascii) : list ascii :=
  let n := N_of_ascii c in
  if (n =? 34)%N then [backslash; quote]
  else if (n =? 92)%N then [backslash; backslash]
  else if (n =? 8)%N then [backslash; "b"]
  else if (n =? 12)%N then [backslash; "f"]
  else if (n =? 10)%N then [backslash; "n"]
  else if (n =? 13)%N then [backslash; "r"]
  else if (n =? 9)%N then [backslash; "t"]
  else if ((32 <=? n) && (n <=? 126))%N then [c]
  else [backslash; "u"; "0"; "0"; hex_digit (n / 16); hex_digit (n mod 16)].

Definition encode_str (s : string) : list ascii :=
  quote :: flat_map escape_char (list_ascii_of_string s) ++ [quote].

(** [sep.join(parts)] *)
Fixpoint join (sep : list ascii) (parts : list (list ascii)) : list ascii :=
  match parts with
  | [] => []
  | [p] => p
  | p :: ps => p ++ sep ++ join sep ps
  end.

Definition item_separator : list ascii := [","; " "].
Definition key_separator : list ascii := [":"; " "].

(** [json.dumps(obj)] with the default separators and [ensure_ascii]. *)
Fixpoint encode (j : json) : list ascii :=
  match j with
  | JNull => list_ascii_of_string "null"
  | JBool true => list_ascii_of_string "true"
  | JBool false => list_ascii_of_string "false"
  | JInt z => list_ascii_of_string (str_of_Z z)
  | JStr s => encode_str s
  | JList l => "[" :: join item_separator (map encode l) ++ ["]"]
  | JDict kvs =>
      "{" :: join item_separator
               (map (fun kv => match kv with
                               | (k, v) => encode_str k ++ key_separator ++ encode v
                               end) kvs)
          ++ ["}"]
  end.

Definition dumps (j : json) : string := string_of_list_ascii (encode j).

(** *** Decoding *)

Definition is_ws (c : ascii) : bool :=
  let n := N_of_ascii c in
  ((n =? 32) || (n =? 9) || (n =? 10) || (n =? 13))%N.

Fixpoint skip_ws (s : list ascii) : list ascii :=
  match s with
  | c :: r => if is_ws c then skip_ws r else s
  | [] => []
  end.

Definition is_digit (c : ascii) : bool :=
  let n := N_of_ascii c in ((48 <=? n) && (n <=? 57))%N.

Definition hex_val (c : ascii) : option N :=
  let n := N_of_ascii c in
  if ((48 <=? n) && (n <=? 57))%N then Some (n - 48)%N
  else if ((97 <=? n) && (n <=? 102))%N then Some (n - 87)%N
  else if ((65 <=? n) && (n <=? 70))%N then Some (n - 55)%N
  else None.

Definition decode_error {A} (msg : string) : result A :=
  Raise (JSONDecodeError msg).

(** The [\uXXXX] escape; code points from 256 on do not fit the model's
    characters and are rejected. *)
Definition decode_uXXXX (h1 h2 h3 h4 : ascii) : result ascii :=
  match hex_val h1, hex_val h2, hex_val h3, hex_val h4 with
  | Some a, Some b, Some c, Some d =>
      if ((a =? 0) && (b =? 0))%N then Ok (ascii_of_N (16 * c + d))
      else decode_error "code point outside the modelled range"
  | _, _, _, _ => decode_error "Invalid \uXXXX escape"
  end.

(** [scanstring] (strict): the input starts just after the opening quote;
    returns the decoded characters and the input after the closing
    quote. *)
Fixpoint scanstring (s : list ascii) : result (list ascii * list ascii) :=
  match s with
  | [] => decode_error "Unterminated string starting at"
  | c :: r =>
      if (N_of_ascii c =? 34)%N then Ok ([], r)
      else if (N_of_ascii c =? 92)%N then
        match r with
        | [] => decode_error "Unterminated string starting at"
        | e :: r1 =>
            let simple (d : ascii) :=
              match scanstring r1 with
              | Ok (cs, rest) => Ok (d :: cs, rest)
              | Raise x => Raise x
              end in
            if (N_of_ascii e =? 34)%N then simple quote
            else if (N_of_ascii e =? 92)%N then simple backslash
            else if (N_of_ascii e =? 47)%N then simple "/"
            else if (N_of_ascii e =? 98)%N then simple "008"
            else if (N_of_ascii e =? 102)%N then simple "012"
            else if (N_of_ascii e =? 110)%N then simple "010"
            else if (N_of_ascii e =? 114)%N then simple "013"
            else if (N_of_ascii e =? 116)%N then simple "009"
            else if (N_of_ascii e =? 117)%N then
              match r1 with
              | h1 :: h2 :: h3 :: h4 :: r2 =>
                  match decode_uXXXX h1 h2 h3 h4 with
                  | Raise x => Raise x
                  | Ok d =>
                      match scanstring r2 with
                      | Ok (cs, rest) => Ok (d :: cs, rest)
                      | Raise x => Raise x
                      end
                  end
              | _ => decode_error "Invalid \uXXXX escape"
              end
            else decode_error "Invalid \escape"
        end
      else if (N_of_ascii c <? 32)%N then
        decode_error "Invalid control character at"
      else
        match scanstring r with
        | Ok (cs, rest) => Ok (c :: cs, rest)
        | Raise x => Raise x
        end
  end.

(** The longest prefix of digits. *)
Fixpoint span_digits (s : list ascii) : list ascii * list ascii :=
  match s with
  | c :: r =>
      if is_digit c then let (ds, rest) := span_digits r in (c :: ds, rest)
      else ([], s)
  | [] => ([], [])
  end.

Definition int_of_digits (neg : bool) (ds : list ascii) : result Z :=
  match DecimalString.NilZero.uint_of_string (string_of_list_ascii ds) with
  | Some u => Ok (if neg then Z.opp (Z.of_uint u) else Z.of_uint u)
  | None => decode_error "Expecting value"
  end.

(** [NUMBER_RE]: an optional minus sign, then either a single 0 or a
    nonzero digit followed by any digits; a following fraction or exponent
    would make the number a [float], which the fragment leaves out. *)
Definition match_number (s : list ascii) : result (Z * list ascii) :=
  let '(neg, s1) :=
    match s with
    | "-" :: r => (true, r)
    | _ => (false, s)
    end in
  let '(ds, rest) :=
    match s1 with
    | "0" :: r => (["0"], r)
    | _ => span_digits s1
    end in
  match ds with
  | [] => decode_error "Expecting value"
  | _ =>
      match rest with
      | "." :: _ | "e" :: _ | "E" :: _ =>
          decode_error "float literals are outside the modelled fragment"
      | _ =>
          match int_of_digits neg ds with
          | Ok z => Ok (z, rest)
          | Raise x => Raise x
          end
      end
  end.

(** [dict(pairs)]: a repeated key keeps its first position and takes the
    last value. *)
Fixpoint dict_set (k : string) (v : json) (d : list (string * json))
  : list (string * json) :=
  match d with
  | [] => [(k, v)]
  | (k', v') :: d' =>
      if String.eqb k k' then (k', v) :: d' else (k', v') :: dict_set k v d'
  end.

Definition dict_of_pairs (pairs : list (string * json)) : list (string * json) :=
  fold_left (fun d kv => dict_set (fst kv) (snd kv) d) pairs [].

(** [scan_once], [JSONArray] and [JSONObject].  Every call consumes at
    least one character, so [fuel] beyond the input length is never
    exhausted. *)
Fixpoint scan_once (fuel : nat) (s : list ascii) {struct fuel}
  : result (json * list ascii) :=
  match fuel with
  | O => decode_error "out of fuel"
  | S fuel' =>
      match s with
      | [] => decode_error "Expecting value"
      | c :: r =>
          if (N_of_ascii c =? 34)%N then
            match scanstring r with
            | Ok (cs, rest) => Ok (JStr (string_of_list_ascii cs), rest)
            | Raise x => Raise x
            end
          else
            match s with
            | "{" :: r =>
                match skip_ws r with
                | "}" :: rest => Ok (JDict [], rest)
                | r' =>
                    match object_items fuel' r' [] with
                    | Ok (pairs, rest) => Ok (JDict (dict_of_pairs pairs), rest)
                    | Raise x => Raise x
                    end
                end
            | "[" :: r =>
                match skip_ws r with
                | "]" :: rest => Ok (JList [], rest)
                | r' =>
                    match array_items fuel' r' [] with
                    | Ok (vs, rest) => Ok (JList vs, rest)
                    | Raise x => Raise x
                    end
                end
            | "n" :: "u" :: "l" :: "l" :: rest => Ok (JNull, rest)
            | "t" :: "r" :: "u" :: "e" :: rest => Ok (JBool true, rest)
            | "f" :: "a" :: "l" :: "s" :: "e" :: rest => Ok (JBool false, rest)
            | _ =>
                match match_number s with
                | Ok (z, rest) => Ok (JInt z, rest)
                | Raise x => Raise x
                end
            end
      end
  end

(** The loop of [JSONArray]: [s] starts at a value; [acc] holds the values
    read so far, last first. *)
with array_items (fuel : nat) (s : list ascii) (acc : list json) {struct fuel}
  : result (list json * list ascii) :=
  match fuel with
  | O => decode_error "out of fuel"
  | S fuel' =>
      match scan_once fuel' s with
      | Raise x => Raise x
      | Ok (v, r) =>
          match skip_ws r with
          | "]" :: rest => Ok (rev (v :: acc), rest)
          | "," :: rest => array_items fuel' (skip_ws rest) (v :: acc)
          | _ => decode_error "Expecting ',' delimiter"
          end
      end
  end

(** The loop of [JSONObject]: [s] starts at the quote of a key. *)
with object_items (fuel : nat) (s : list ascii) (acc : list (string * json))
       {struct fuel}
  : result (list (string * json) * list ascii) :=
  match fuel with
  | O => decode_error "out of fuel"
  | S fuel' =>
      match s with
      | c :: r =>
          if (N_of_ascii c =? 34)%N then
            match scanstring r with
            | Raise x => Raise x
            | Ok (k, r1) =>
                match skip_ws r1 with
                | ":" :: r2 =>
                    match scan_once fuel' (skip_ws r2) with
                    | Raise x => Raise x
                    | Ok (v, r3) =>
                        let acc' := (string_of_list_ascii k, v) :: acc in
                        match skip_ws r3 with
                        | "}" :: rest => Ok (rev acc', rest)
                        | "," :: rest => object_items fuel' (skip_ws rest) acc'
                        | _ => decode_error "Expecting ',' delimiter"
                        end
                    end
                | _ => decode_error "Expecting ':' delimiter"
                end
            end
          else decode_error "Expecting property name enclosed in double quotes"
      | [] => decode_error "Expecting property name enclosed in double quotes"
      end
  end.

(** [json.loads(s)] *)
Definition loads (s : string) : result json :=
  let cs := list_ascii_of_string s in
  match scan_once (S (List.length cs)) (skip_ws cs) with
  | Raise x => Raise x
  | Ok (j, rest) =>
      match skip_ws rest with
      | [] => Ok j
      | _ => decode_error "Extra data"
      end
  end.
End Json.

(** ** The SQLite store *)

Module Sqlite.
(** [collections (id INTEGER PRIMARY KEY, name TEXT UNIQUE)] *)
Record collection_row : Type := {
  collection_id : Z;
  collection_name : string
}.

(** [documents (id INTEGER PRIMARY KEY, collection_id INTEGER, text TEXT,
    metadata TEXT, embedding BLOB)]; [metadata] may be NULL. *)
Record document_row : Type := {
  doc_id : Z;
  doc_collection_id : Z;
  doc_text : string;
  doc_metadata : option string;
  doc_embedding : list byte
}.

(** The committed content of the database file, rows in rowid order. *)
Record database : Type := {
  collections : list collection_row;
  documents : list document_row
}.

Definition empty : database := {| collections := []; documents := [] |}.

(** The rowid SQLite assigns to a row inserted without one: 1 in an empty
    table, otherwise one more than the largest rowid in use. *)
Definition next_rowid (ids : list Z) : Z :=
  match ids with
  | [] => 1
  | i :: rest => fold_left Z.max rest i + 1
  end.

Definition name_is (name : string) (c : collection_row) : bool :=
  String.eqb (collection_name c) name.

(** [SELECT id FROM collections WHERE name = ?] followed by [fetchone()] *)
Definition select_collection_id (db : database) (name : string) : option Z :=
  option_map collection_id (find (name_is name) (collections db)).

(** [INSERT INTO collections (name) VALUES (?)]: the UNIQUE constraint on
    [name] rejects a second row with the same name.  Returns the updated
    (uncommitted) content and [lastrowid]. *)
Definition insert_collection (db : database) (name : string)
  : result (database * Z) :=
  if existsb (name_is name) (collections db) then
    Raise (IntegrityError "UNIQUE constraint failed: collections.name")
  else
    let id := next_rowid (map collection_id (collections db)) in
    Ok ({| collections :=
             collections db ++ [{| collection_id := id; collection_name := name |}];
           documents := documents db |}, id).

(** [INSERT INTO documents (collection_id, text, metadata, embedding)
    VALUES (?, ?, ?, ?)] *)
Definition insert_document (db : database) (cid : Z) (text : string)
           (metadata : option string) (embedding : list byte)
  : database * Z :=
  let id := next_rowid (map doc_id (documents db)) in
  ({| collections := collections db;
      documents :=
        documents db ++ [{| doc_id := id; doc_collection_id := cid;
                            doc_text := text; doc_metadata := metadata;
                            doc_embedding := embedding |}] |}, id).

(** [SELECT id, text, metadata, embedding FROM documents WHERE
    collection_id = ?] followed by [fetchall()] *)
Definition select_documents (db : database) (cid : Z) : list document_row :=
  filter (fun d => doc_collection_id d =? cid) (documents db).

(** The places where a call into [sqlite3] can raise (an I/O fault, a
    locked file, a full disk), one per statement of the tool. *)
Inductive site : Type :=
| GetOrCreate_connect | GetOrCreate_select | GetOrCreate_insert
| GetOrCreate_commit
| Write_connect | Write_insert | Write_commit
| Query_connect | Query_select_collection | Query_select_documents.

(** Computations over the committed database that may raise.  A connection
    works on its own copy of the content; only [commit] publishes it, and a
    connection that is closed or dropped without a commit leaves the
    database as it was. *)
Definition M (A : Type) : Type := database -> result A * database.

Definition ret {A} (a : A) : M A := fun db => (Ok a, db).
Definition bind {A B} (m : M A) (k : A -> M B) : M B :=
  fun db =>
    match m db with
    | (Ok a, db') => k a db'
    | (Raise e, db') => (Raise e, db')
    end.
Definition lift {A} (r : result A) : M A := fun db => (r, db).
Definition connect : M database := fun db => (Ok db, db).
Definition commit (conn : database) : M unit := fun _ => (Ok tt, conn).
Definition check (io : site -> option exn) (s : site) : M unit :=
  match io s with
  | Some e => lift (Raise e)
  | None => ret tt
  end.
End Sqlite.

Declare Scope sqlite_scope.
Delimit Scope sqlite_scope with sqlite.
Notation "x <- m ;; k" := (Sqlite.bind m (fun x => k))
  (at level 61, m at next level, right associativity) : sqlite_scope.
Notation "m ;; k" := (Sqlite.bind m (fun _ => k))
  (at level 61, right associativity) : sqlite_scope.

(** ** The tool *)

Module VectorDB.
Import Sqlite.
Local Open Scope sqlite_scope.

(** [self]: the sentence encoder ([self.model.encode([text])[0]], a
    [float32] vector or an exception) and the behaviour of the storage
    layer during the call. *)
Record t : Type := {
  model : string -> result Np.ndarray;
  io : site -> option exn
}.

(** One entry of ["results"]. *)
Record hit : Type := {
  hit_id : Z;
  hit_text : string;
  hit_metadata : Json.json;
  hit_similarity : F32.t
}.

(** The dictionaries handed to the final [json.dumps]. *)
Inductive envelope : Type :=
| Written (message : string) (id : Z)
| Results (results : list hit)
| Error (message : string).

Definition status (e : envelope) : string :=
  match e with
  | Error _ => "error"
  | _ => "success"
  end.

(** [try: ... except Exception as e: return error(prefix + str(e))] *)
Definition try_except (body : M envelope) (prefix : string)
  : database -> envelope * database :=
  fun db =>
    match body db with
    | (Ok r, db') => (r, db')
    | (Raise e, db') => (Error (prefix ++ exn_str e)%string, db')
    end.

Definition _get_or_create_collection (self : t) (collection_name : string)
  : M Z :=
  check (io self) GetOrCreate_connect ;;
  conn <- connect ;;
  check (io self) GetOrCreate_select ;;
  match select_collection_id conn collection_name with
  | Some collection_id =>
      check (io self) GetOrCreate_commit ;;
      commit conn ;;
      ret collection_id
  | None =>
      check (io self) GetOrCreate_insert ;;
      ins <- lift (insert_collection conn collection_name) ;;
      check (io self) GetOrCreate_commit ;;
      commit (fst ins) ;;
      ret (snd ins)
  end.

Definition written_message (doc_id : Z) (collection : string) : string :=
  ("Successfully wrote document " ++ str_of_Z doc_id ++ " to collection '"
     ++ collection ++ "'")%string.

Definition write (self : t) (collection text : string) (metadata : Json.json)
  : database -> envelope * database :=
  try_except
    (embedding <- lift (model self text) ;;
     let metadata_str :=
       if Json.truthy metadata then Some (Json.dumps metadata) else None in
     collection_id <- _get_or_create_collection self collection ;;
     check (io self) Write_connect ;;
     conn <- connect ;;
     check (io self) Write_insert ;;
     let ins :=
       insert_document conn collection_id text metadata_str
                       (Np.tobytes embedding) in
     check (io self) Write_commit ;;
     commit (fst ins) ;;
     ret (Written (written_message (snd ins) collection) (snd ins)))
    "Error writing to database: ".

(** Lines 195-197: [np.dot(q, e) / (norm(q) * norm(e))]. *)
Definition cosine_similarity (query_embedding embedding : Np.ndarray)
  : result F32.t :=
  (d <-? Np.dot query_embedding embedding ;;
   Ok (F32.div d (F32.mul (Np.norm query_embedding) (Np.norm embedding))))%result.

(** [json.loads(metadata_str) if metadata_str else None] *)
Definition load_metadata (metadata_str : option string) : result Json.json :=
  match metadata_str with
  | None => Ok Json.JNull
  | Some s => if String.eqb s EmptyString then Ok Json.JNull else Json.loads s
  end.

(** The body of the loop over the fetched rows. *)
Definition score_row (query_embedding : Np.ndarray) (row : document_row)
  : result hit :=
  (embedding <-? Np.frombuffer (doc_embedding row) ;;
   similarity <-? cosine_similarity query_embedding embedding ;;
   metadata <-? load_metadata (doc_metadata row) ;;
   Ok {| hit_id := doc_id row; hit_text := doc_text row;
         hit_metadata := metadata; hit_similarity := similarity |})%result.

(** [documents[i]] *)
Definition getitem {A} (l : list A) (i : nat) : result A :=
  match nth_error l i with
  | Some a => Ok a
  | None => Raise (ValueError "list index out of range")
  end.

(** Lines 208-209. *)
Definition top_results (documents : list hit) (n_results : Z)
  : result (list hit) :=
  let similarities := map hit_similarity documents in
  let sorted_indices :=
    Np.slice_to (Np.reversed (Np.argsort similarities)) n_results in
  traverse (getitem documents) sorted_indices.

Definition not_found_message (collection : string) : string :=
  ("Collection '" ++ collection ++ "' not found")%string.

Definition query (self : t) (collection query : string) (n_results : Z)
  : database -> envelope * database :=
  try_except
    (query_embedding <- lift (model self query) ;;
     check (io self) Query_connect ;;
     conn <- connect ;;
     check (io self) Query_select_collection ;;
     match select_collection_id conn collection with
     | None => ret (Error (not_found_message collection))
     | Some collection_id =>
         check (io self) Query_select_documents ;;
         let rows := select_documents conn collection_id in
         documents <- lift (traverse (score_row query_embedding) rows) ;;
         top <- lift (top_results documents n_results) ;;
         ret (Results top)
     end)
    "Error querying database: ".

(** *** The command line *)

Inductive action : Type := ActWrite | ActQuery.

(** The namespace [argparse] produces: [--collection] is required,
    [--n-results] defaults to 5, the others to [None]. *)
Record namespace : Type := {
  ns_action : action;
  ns_collection : string;
  ns_text : option string;
  ns_metadata : option string;
  ns_query : option string;
  ns_n_results : Z
}.

Inductive outcome : Type :=
| Printed (e : envelope)
| Exited (code : Z) (stderr : string)
| Uncaught (e : exn).

(** [not s] for an optional string. *)
Definition falsy (s : option string) : bool :=
  match s with
  | None => true
  | Some s => String.eqb s EmptyString
  end.

Definition main (self : t) (args : namespace) (db : database)
  : outcome * database :=
  match ns_action args with
  | ActWrite =>
      if falsy (ns_text args) then
        (Exited 1 "Error: --text is required for write action", db)
      else
        match (if falsy (ns_metadata args) then Ok Json.JNull
               else Json.loads (match ns_metadata args with
                                | Some s => s | None => EmptyString end)) with
        | Raise e => (Uncaught e, db)
        | Ok metadata =>
            let text := match ns_text args with
                        | Some s => s | None => EmptyString end in
            let (r, db') := write self (ns_collection args) text metadata db in
            (Printed r, db')
        end
  | ActQuery =>
      if falsy (ns_query args) then
        (Exited 1 "Error: --query is required for query action", db)
      else
        let q := match ns_query args with
                 | Some s => s | None => EmptyString end in
        let (r, db') :=
          query self (ns_collection args) q (ns_n_results args) db in
        (Printed r, db')
  end.
End VectorDB.

(** * Vocabulary of the properties *)

Import Sqlite VectorDB.

(** A storage layer that never raises. *)
Definition no_faults : site -> option exn := fun _ => None.

(** ** Store invariants

    Rowids grow along each table, collection names are unique, and every
    document belongs to a collection of the registry. *)

Fixpoint increasing (l : list Z) : bool :=
  match l with
  | [] => true
  | x :: l' =>
      match l' with
      | [] => true
      | y :: _ => (x <? y) && increasing l'
      end
  end.

Fixpoint distinct (l : list string) : bool :=
  match l with
  | [] => true
  | x :: l' => negb (existsb (String.eqb x) l') && distinct l'
  end.

Definition references_ok (db : database) : bool :=
  forallb (fun d => existsb (fun c => collection_id c =? doc_collection_id d)
                            (collections db))
          (documents db).

Definition wfb (db : database) : bool :=
  increasing (map collection_id (collections db))
  && distinct (map collection_name (collections db))
  && increasing (map doc_id (documents db))
  && references_ok db.

(** ** The stores the operations leave behind *)

(** The registry after a new name has been committed. *)
Definition add_collection (db : database) (name : string) : database :=
  {| collections :=
       collections db
       ++ [{| collection_id := next_rowid (map collection_id (collections db));
              collection_name := name |}];
     documents := documents db |}.

Definition new_collection_id (db : database) : Z :=
  next_rowid (map collection_id (collections db)).

(** [metadata_str] of [write]. *)
Definition metadata_column (metadata : Json.json) : option string :=
  if Json.truthy metadata then Some (Json.dumps metadata) else None.

(** The store a successful [write] leaves behind, given the store [dbm] after
    the registry step and the collection id [cid]. *)
Definition add_document (dbm : database) (cid : Z) (text : string)
           (metadata : Json.json) (embedding : Np.ndarray) : database :=
  fst (insert_document dbm cid text (metadata_column metadata)
                       (Np.tobytes embedding)).

Definition new_document_id (dbm : database) : Z :=
  next_rowid (map doc_id (documents dbm)).

(** All outcomes of [write]. *)
Inductive write_outcome (self : VectorDB.t) (collection text : string)
          (metadata : Json.json) (db : database) : envelope -> database -> Prop :=
| write_failed_early msg :
    write_outcome self collection text metadata db (Error msg) db
| write_failed_after_create msg :
    select_collection_id db collection = None ->
    write_outcome self collection text metadata db
                  (Error msg) (add_collection db collection)
| write_done embedding cid dbm :
    model self text = Ok embedding ->
    (select_collection_id db collection = Some cid /\ dbm = db
     \/ select_collection_id db collection = None
        /\ dbm = add_collection db collection /\ cid = new_collection_id db) ->
    write_outcome self collection text metadata db
      (Written (written_message (new_document_id dbm) collection)
               (new_document_id dbm))
      (add_document dbm cid text metadata embedding).

(** The row a successful [write] appends. *)
Definition written_row (db : database) (cid : Z) (text : string)
           (metadata : Json.json) (embedding : Np.ndarray) : document_row :=
  {| doc_id := new_document_id db; doc_collection_id := cid;
     doc_text := text; doc_metadata := metadata_column metadata;
     doc_embedding := Np.tobytes embedding |}.

(** ** Orders on scores and on results *)

(** A key whose lexicographic order is [Np.float_lt]: the class (negative
    infinity, negative numbers, zeros, positive numbers, positive infinity,
    NaN), then exponent and mantissa. *)
Definition sort_key (x : F32.t) : Z * Z * Z :=
  match x with
  | S754_nan => (3, 0, 0)
  | S754_infinity false => (2, 0, 0)
  | S754_infinity true => (-2, 0, 0)
  | S754_zero _ => (0, 0, 0)
  | S754_finite false m e => (1, e, Zpos m)
  | S754_finite true m e => (-1, - e, Zneg m)
  end.

Definition key_lt (a b : Z * Z * Z) : Prop :=
  let '(a1, a2, a3) := a in
  let '(b1, b2, b3) := b in
  a1 < b1 \/ (a1 = b1 /\ (a2 < b2 \/ (a2 = b2 /\ a3 < b3))).

(** One insertion of [Np.argsort], as the fold sees it. *)
Definition ins (v : list F32.t) (rp : list nat) (vi : nat) : list nat :=
  Np.insert_left v vi rp.

(** [i] may stand before [j] in the reversed [argsort]: its value is not
    smaller, and among values that compare equal the later index comes
    first. *)
Definition before (v : list F32.t) (i j : nat) : Prop :=
  Np.float_lt (Np.at_ v i) (Np.at_ v j) = false
  /\ (Np.float_lt (Np.at_ v j) (Np.at_ v i) = true \/ (j < i)%nat).

(** The ranking [np.argsort(v)[::-1]]. *)
Definition ranking (v : list F32.t) : list nat :=
  Np.reversed (Np.argsort v).

(** The indices [query] keeps: [np.argsort(similarities)[::-1][:n_results]]. *)
Definition sorted_indices (documents : list hit) (n_results : Z) : list nat :=
  Np.slice_to (ranking (map hit_similarity documents)) n_results.

(** The claim as the specification states it: scores never increase along
    the result list, and of two results with equal scores the one written
    first (the smaller document id) comes first. *)
Definition sorted_descending_stable (rs : list hit) : Prop :=
  forall i j hi hj,
    (i < j)%nat -> nth_error rs i = Some hi -> nth_error rs j = Some hj ->
    F32.leb (hit_similarity hj) (hit_similarity hi) = true
    /\ (F32.eqb (hit_similarity hi) (hit_similarity hj) = true ->
        hit_id hi < hit_id hj).

(** ** A small encoder and some stores *)

Module Sample.
(** The [float32] item with bit pattern [w]. *)
Definition f32 (w : Z) : Np.float32 :=
  let byte_at (k : Z) : byte :=
    match Byte.of_N (Z.to_N ((w / 256 ^ k) mod 256)) with
    | Some b => b
    | None => x00
    end in
  (byte_at 0, byte_at 1, byte_at 2, byte_at 3).

Definition one : Np.float32 := f32 0x3F800000.
Definition zero : Np.float32 := f32 0.
Definition two_pow_64 : Np.float32 := f32 0x5F800000.

(** A deterministic stand-in for the sentence encoder, with two
    dimensions. *)
Definition encode (text : string) : result Np.ndarray :=
  if String.eqb text "a" then Ok [one; zero]
  else if String.eqb text "b" then Ok [zero; one]
  else if String.eqb text "nothing" then Ok [zero; zero]
  else if String.eqb text "huge" then Ok [two_pow_64; zero]
  else Ok [one; one].

Definition tool : VectorDB.t := {| model := encode; io := no_faults |}.

(** A disk that fails when the document row is inserted. *)
Definition failing_insert : VectorDB.t :=
  {| model := encode;
     io := fun s => match s with
                    | Write_insert => Some (OperationalError "disk I/O error")
                    | _ => None
                    end |}.

Definition after (steps : list (database -> envelope * database))
  : database :=
  fold_left (fun db step => snd (step db)) steps Sqlite.empty.

(** ["a"] written twice to collection ["c"]. *)
Definition twice_a : database :=
  after [write tool "c" "a" Json.JNull; write tool "c" "a" Json.JNull].

End Sample.

(** ** Concurrent callers of [_get_or_create_collection] *)

Module Registry.
(** Where one caller stands in [_get_or_create_collection]: before the
    SELECT, after [fetchone()], after its INSERT (holding SQLite's write
    lock, with the uncommitted content), or after returning. *)
Inductive progress : Type :=
| Start
| Selected (found : option Z)
| Inserted (conn : database) (id : Z)
| Returned (r : result Z).

Record caller : Type := { name : string; at_ : progress }.

(** The committed database shared by all callers, and the callers. *)
Record system : Type := { shared : database; callers : list caller }.

Definition initial (db : database) (names : list string) : system :=
  {| shared := db;
     callers := map (fun n => {| name := n; at_ := Start |}) names |}.

Definition holds_lock (c : caller) : bool :=
  match at_ c with
  | Inserted _ _ => true
  | _ => false
  end.

Fixpoint replace_nth {A} (i : nat) (a : A) (l : list A) : list A :=
  match l, i with
  | [], _ => []
  | _ :: l', O => a :: l'
  | x :: l', S i' => x :: replace_nth i' a l'
  end.

(** Caller [i] executes its next statement.  An INSERT attempted while
    another connection holds the write lock fails (the busy timeout
    expires); a caller can wait instead by not being scheduled.  The UNIQUE
    constraint is checked by [insert_collection] against the committed
    content. *)
Definition step (i : nat) (sys : system) : system :=
  match nth_error (callers sys) i with
  | None => sys
  | Some c =>
      let moved (p : progress) :=
        replace_nth i {| name := name c; at_ := p |} (callers sys) in
      match at_ c with
      | Start =>
          {| shared := shared sys;
             callers := moved (Selected (select_collection_id (shared sys)
                                                              (name c))) |}
      | Selected (Some id) =>
          {| shared := shared sys; callers := moved (Returned (Ok id)) |}
      | Selected None =>
          if existsb holds_lock (callers sys) then
            {| shared := shared sys;
               callers :=
                 moved (Returned (Raise (OperationalError
                                           "database is locked"))) |}
          else
            match insert_collection (shared sys) (name c) with
            | Ok (conn, id) =>
                {| shared := shared sys; callers := moved (Inserted conn id) |}
            | Raise e =>
                {| shared := shared sys; callers := moved (Returned (Raise e)) |}
            end
      | Inserted conn id =>
          {| shared := conn; callers := moved (Returned (Ok id)) |}
      | Returned _ => sys
      end
  end.

(** An interleaving: the callers scheduled one after the other. *)
Definition run (schedule : list nat) (sys : system) : system :=
  fold_left (fun s i => step i s) schedule sys.

Definition names_of (db : database) : list string :=
  map collection_name (collections db).

(** The number of rows with a given name. *)
Definition rows_named (n : string) (db : database) : nat :=
  List.length (filter (name_is n) (collections db)).
End Registry.

Import Registry.

(** What every interleaving preserves: names are unique in the committed
    registry and in every uncommitted copy. *)
Definition registry_inv (sys : system) : Prop :=
  distinct (names_of (shared sys)) = true
  /\ Forall (fun c => match at_ c with
                      | Inserted conn _ => distinct (names_of conn) = true
                      | _ => True
                      end) (callers sys).

(** What a caller knows is true of the committed registry [db]: an id it
    has read or returned is the id of its name, and an uncommitted INSERT is
    the one [db] allows. *)
Definition caller_ok (db : database) (c : caller) : Prop :=
  match at_ c with
  | Selected (Some id) | Returned (Ok id) =>
      select_collection_id db (name c) = Some id
  | Inserted conn id => insert_collection db (name c) = Ok (conn, id)
  | _ => True
  end.

(** The callers agree with the committed registry, which has grown from
    [db0] by appended collection rows only, and at most one caller holds the
    write lock. *)
Definition consistent (db0 : database) (sys : system) : Prop :=
  (exists cs, collections (shared sys) = collections db0 ++ cs)
  /\ documents (shared sys) = documents db0
  /\ (forall j c, nth_error (callers sys) j = Some c ->
                  caller_ok (shared sys) c)
  /\ (forall i j ci cj,
         nth_error (callers sys) i = Some ci ->
         nth_error (callers sys) j = Some cj ->
         holds_lock ci = true -> holds_lock cj = true -> i = j).

(** ** The JSON values that [dumps] and [loads] exchange *)

Import Json.

Section JsonValues.
Local Open Scope char_scope.

(** What may follow a value in a document: the end of the text or one of
    the delimiters. *)
Definition boundary (rest : list ascii) : bool :=
  match rest with
  | [] => true
  | c :: _ => (c =? ",") || (c =? "]") || (c =? "}")
  end.

(** The decimal digits of [d] as characters. *)
Definition digits_of (d : Decimal.uint) : list ascii :=
  list_ascii_of_string (DecimalString.NilEmpty.string_of_uint d).

(** A numeral that starts with a digit other than zero. *)
Definition leading_nonzero (d : Decimal.uint) : Prop :=
  match d with
  | Decimal.Nil | Decimal.D0 _ => False
  | _ => True
  end.

(** The values a Python dictionary can hold: the keys of every object are
    pairwise different. *)
Fixpoint json_wf (j : json) : bool :=
  match j with
  | JList l => forallb json_wf l
  | JDict kvs =>
      distinct (map fst kvs)
      && forallb (fun kv => match kv with (_, v) => json_wf v end) kvs
  | _ => true
  end.

(** A character that can start a value. *)
Definition value_start (c : ascii) : bool :=
  negb (is_ws c) && negb (c =? "]") && negb (c =? "}").

Definition head_ok (s : list ascii) : Prop :=
  match s with
  | c :: _ => value_start c = true
  | [] => False
  end.

(** A character that can start a number. *)
Definition number_start (c : ascii) : bool := is_digit c || (c =? "-").

(** The value [v] is read back from its encoding, whatever follows it. *)
Definition reads_back (v : json) : Prop :=
  forall fuel rest,
    (List.length (encode v) <= fuel)%nat -> boundary rest = true ->
    scan_once fuel (encode v ++ rest) = Ok (v, rest).

(** One [key: value] item of an encoded object. *)
Definition encode_pair (kv : string * json) : list ascii :=
  match kv with
  | (k, v) => encode_str k ++ key_separator ++ encode v
  end.

End JsonValues.

(** ** Binary32 quantities *)

(** The exponent of the last kept digit of a number of magnitude [2 ^ e]. *)
Definition fexp32 (e : Z) : Z := Z.max (e - 24) (-149).

(** "[x > 0.999]", exactly. *)
Definition gt_999 (x : spec_float) : bool :=
  match x with
  | S754_infinity false => true
  | S754_finite false mq eq => 999 * 2 ^ (- eq) <? 1000 * Zpos mq
  | _ => false
  end.

(** * Properties *)

(** ** Store invariants *)

(** *** Rowids *)

Lemma fold_max_ge (l : list Z) (a : Z) : a <= fold_left Z.max l a.
Proof.
  revert a; induction l as [|x l IH]; intros a; simpl; [lia|].
  specialize (IH (Z.max a x)); lia.
Qed.

Lemma fold_max_in (l : list Z) (a x : Z) : In x l -> x <= fold_left Z.max l a.
Proof.
  revert a; induction l as [|y l IH]; intros a [].
  - subst; simpl. pose proof (fold_max_ge l (Z.max a x)); lia.
  - simpl; auto.
Qed.

Lemma next_rowid_fresh (ids : list Z) (x : Z) : In x ids -> x < next_rowid ids.
Proof.
  destruct ids as [|i rest]; [intros []|].
  unfold next_rowid; intros [->|H].
  - pose proof (fold_max_ge rest x); lia.
  - pose proof (fold_max_in rest i x H); lia.
Qed.

Lemma increasing_app_last (l : list Z) (x : Z) :
  increasing l = true -> (forall y, In y l -> y < x) ->
  increasing (l ++ [x]) = true.
Proof.
  induction l as [|a l IH]; intros Hinc Hlt; [reflexivity|].
  destruct l as [|b l].
  - simpl. rewrite andb_true_r. apply Z.ltb_lt, Hlt; now left.
  - simpl in Hinc. apply andb_prop in Hinc as [Hab Hinc].
    change (((a <? b) && increasing ((b :: l) ++ [x])) = true).
    rewrite Hab, IH; auto. intros y Hy; apply Hlt; now right.
Qed.

Lemma increasing_lt (l1 l2 : list Z) (x y : Z) :
  increasing (l1 ++ x :: l2) = true -> In y l2 -> x < y.
Proof.
  induction l1 as [|a l1 IH]; simpl app.
  - revert x; induction l2 as [|b l2 IH2]; intros x Hinc []; simpl in Hinc;
      apply andb_prop in Hinc as [Hxb Hinc]; apply Z.ltb_lt in Hxb.
    + now subst.
    + specialize (IH2 b Hinc H). lia.
  - intros Hinc; apply IH. simpl in Hinc.
    destruct (l1 ++ x :: l2) eqn:E; [now destruct l1|].
    now apply andb_prop in Hinc.
Qed.

Lemma increasing_NoDup (l : list Z) : increasing l = true -> NoDup l.
Proof.
  induction l as [|a l IH]; intros Hinc; constructor.
  - intros Hin. pose proof (increasing_lt [] l a a Hinc Hin). lia.
  - apply IH. simpl in Hinc. destruct l; [reflexivity|].
    now apply andb_prop in Hinc.
Qed.

(** *** Names *)

Lemma existsb_name_find (name : string) (cs : list collection_row) :
  existsb (name_is name) cs = false <-> find (name_is name) cs = None.
Proof.
  induction cs as [|c cs IH]; simpl; [tauto|].
  destruct (name_is name c); simpl; [split; discriminate|exact IH].
Qed.

Lemma distinct_app_last (l : list string) (x : string) :
  distinct l = true -> existsb (String.eqb x) l = false ->
  distinct (l ++ [x]) = true.
Proof.
  induction l as [|a l IH]; intros Hd Hx; [reflexivity|].
  simpl in *. apply andb_prop in Hd as [Ha Hd].
  apply orb_false_elim in Hx as [Hxa Hx].
  rewrite IH by assumption. rewrite andb_true_r.
  rewrite existsb_app; simpl. rewrite orb_false_r.
  apply negb_true_iff in Ha; rewrite Ha; simpl.
  now rewrite String.eqb_sym, Hxa.
Qed.

Lemma existsb_names (name : string) (cs : list collection_row) :
  existsb (String.eqb name) (map collection_name cs) = existsb (name_is name) cs.
Proof.
  induction cs as [|c cs IH]; simpl; [reflexivity|].
  rewrite IH. unfold name_is. now rewrite String.eqb_sym.
Qed.

(** ** What the operations do to the store *)

Lemma select_none_insert (db : database) (name : string) :
  select_collection_id db name = None ->
  insert_collection db name = Ok (add_collection db name, new_collection_id db).
Proof.
  unfold select_collection_id, insert_collection; intros H.
  destruct (find (name_is name) (collections db)) eqn:E; [discriminate|].
  apply existsb_name_find in E. now rewrite E.
Qed.

Lemma select_some_insert (db : database) (name : string) (id : Z) :
  select_collection_id db name = Some id ->
  exists e, insert_collection db name = Raise e.
Proof.
  unfold select_collection_id, insert_collection; intros H.
  destruct (existsb (name_is name) (collections db)) eqn:E; [eauto|].
  apply existsb_name_find in E. now rewrite E in H.
Qed.

(** All outcomes of [_get_or_create_collection]: an exception leaves the
    registry as it was; a known name is returned without a change; a new name
    is committed with a fresh id. *)
Lemma get_or_create_cases (self : VectorDB.t) (name : string) (db : database) :
  (exists e, _get_or_create_collection self name db = (Raise e, db))
  \/ (exists id, select_collection_id db name = Some id
                 /\ _get_or_create_collection self name db = (Ok id, db))
  \/ (select_collection_id db name = None
      /\ _get_or_create_collection self name db
         = (Ok (new_collection_id db), add_collection db name)).
Proof.
  unfold _get_or_create_collection, check, bind, lift, ret, connect, commit.
  destruct (io self GetOrCreate_connect); simpl; [eauto|].
  destruct (io self GetOrCreate_select); simpl; [eauto|].
  destruct (select_collection_id db name) as [id|] eqn:Hsel.
  - destruct (io self GetOrCreate_commit); simpl; eauto.
  - rewrite (select_none_insert _ _ Hsel).
    destruct (io self GetOrCreate_insert); simpl; [eauto|].
    destruct (io self GetOrCreate_commit); simpl; eauto.
Qed.

Lemma get_or_create_no_faults (self : VectorDB.t) (name : string) (db : database) :
  io self GetOrCreate_connect = None -> io self GetOrCreate_select = None ->
  io self GetOrCreate_insert = None -> io self GetOrCreate_commit = None ->
  _get_or_create_collection self name db =
    match select_collection_id db name with
    | Some id => (Ok id, db)
    | None => (Ok (new_collection_id db), add_collection db name)
    end.
Proof.
  intros H1 H2 H3 H4.
  unfold _get_or_create_collection, check, bind, lift, ret, connect, commit.
  rewrite H1, H2, H4; simpl.
  destruct (select_collection_id db name) eqn:Hsel; simpl; [reflexivity|].
  rewrite H3; simpl. now rewrite (select_none_insert _ _ Hsel).
Qed.

(** [write], statement by statement. *)
Lemma write_unfold (self : VectorDB.t) (collection text : string)
      (metadata : Json.json) (db : database) :
  write self collection text metadata db =
    let failed e db' :=
      (Error ("Error writing to database: " ++ exn_str e)%string, db') in
    match model self text with
    | Raise e => failed e db
    | Ok embedding =>
        match _get_or_create_collection self collection db with
        | (Raise e, db1) => failed e db1
        | (Ok cid, db1) =>
            match io self Write_connect with
            | Some e => failed e db1
            | None =>
                match io self Write_insert with
                | Some e => failed e db1
                | None =>
                    match io self Write_commit with
                    | Some e => failed e db1
                    | None =>
                        (Written (written_message (new_document_id db1) collection)
                                 (new_document_id db1),
                         add_document db1 cid text metadata embedding)
                    end
                end
            end
        end
    end.
Proof.
  unfold write, try_except, bind, lift, check, ret, connect, commit.
  destruct (model self text); [|reflexivity].
  destruct (_get_or_create_collection self collection db) as [[cid|e] db1];
    [|reflexivity].
  destruct (io self Write_connect); [reflexivity|].
  destruct (io self Write_insert); [reflexivity|].
  destruct (io self Write_commit); reflexivity.
Qed.

Lemma write_cases (self : VectorDB.t) (collection text : string)
      (metadata : Json.json) (db : database) :
  write_outcome self collection text metadata db
    (fst (write self collection text metadata db))
    (snd (write self collection text metadata db)).
Proof.
  rewrite write_unfold; cbv zeta.
  destruct (model self text) as [embedding|e] eqn:Henc; [|constructor].
  destruct (get_or_create_cases self collection db)
    as [[e ->]|[(id & Hsel & ->)|(Hsel & ->)]].
  - constructor.
  - destruct (io self Write_connect); [constructor|].
    destruct (io self Write_insert); [constructor|].
    destruct (io self Write_commit); [constructor|].
    apply (write_done _ _ _ _ _ embedding id db); auto.
  - destruct (io self Write_connect); [now constructor|].
    destruct (io self Write_insert); [now constructor|].
    destruct (io self Write_commit); [now constructor|].
    apply (write_done _ _ _ _ _ embedding _ (add_collection db collection));
      auto.
Qed.

(** [write] with a working encoder and storage layer. *)
Lemma write_no_faults (self : VectorDB.t) (collection text : string)
      (metadata : Json.json) (db : database) (embedding : Np.ndarray) :
  model self text = Ok embedding -> io self = no_faults ->
  write self collection text metadata db =
    let (cid, dbm) :=
      match select_collection_id db collection with
      | Some id => (id, db)
      | None => (new_collection_id db, add_collection db collection)
      end in
    (Written (written_message (new_document_id dbm) collection)
             (new_document_id dbm),
     add_document dbm cid text metadata embedding).
Proof.
  intros Henc Hio.
  rewrite write_unfold; cbv zeta. rewrite Henc.
  rewrite get_or_create_no_faults by (rewrite Hio; reflexivity).
  rewrite Hio; unfold no_faults.
  destruct (select_collection_id db collection); reflexivity.
Qed.

(** *** Preservation of the invariants *)

Lemma wfb_parts (db : database) :
  wfb db = true <->
  increasing (map collection_id (collections db)) = true
  /\ distinct (map collection_name (collections db)) = true
  /\ increasing (map doc_id (documents db)) = true
  /\ references_ok db = true.
Proof.
  unfold wfb. rewrite !andb_true_iff. tauto.
Qed.

Lemma references_ok_more (cs cs' : list collection_row) (ds : list document_row) :
  references_ok {| collections := cs; documents := ds |} = true ->
  references_ok {| collections := cs ++ cs'; documents := ds |} = true.
Proof.
  unfold references_ok; simpl. rewrite !forallb_forall.
  intros H d Hd. rewrite existsb_app, (H d Hd). reflexivity.
Qed.

Lemma wfb_add_collection (db : database) (name : string) :
  wfb db = true -> select_collection_id db name = None ->
  wfb (add_collection db name) = true.
Proof.
  rewrite !wfb_parts. intros (Hci & Hn & Hdi & Hr) Hsel.
  unfold add_collection; simpl. rewrite !map_app; simpl.
  repeat split.
  - apply increasing_app_last; [assumption|]. apply next_rowid_fresh.
  - apply distinct_app_last; [assumption|].
    rewrite existsb_names. apply existsb_name_find.
    unfold select_collection_id in Hsel.
    now destruct (find (name_is name) (collections db)).
  - assumption.
  - destruct db as [cs ds]. now apply references_ok_more.
Qed.

Lemma wfb_add_document (db : database) (cid : Z) (text : string)
      (metadata : Json.json) (embedding : Np.ndarray) :
  wfb db = true ->
  existsb (fun c => collection_id c =? cid) (collections db) = true ->
  wfb (add_document db cid text metadata embedding) = true.
Proof.
  rewrite !wfb_parts. intros (Hci & Hn & Hdi & Hr) Hcid.
  unfold add_document, insert_document; simpl. repeat split; try assumption.
  - rewrite map_app; simpl.
    apply increasing_app_last; [assumption|]. apply next_rowid_fresh.
  - unfold references_ok in *; simpl. rewrite forallb_app, Hr; simpl.
    now rewrite Hcid.
Qed.

Lemma select_some_exists (db : database) (name : string) (id : Z) :
  select_collection_id db name = Some id ->
  existsb (fun c => collection_id c =? id) (collections db) = true.
Proof.
  unfold select_collection_id.
  destruct (find (name_is name) (collections db)) as [c|] eqn:E; [|discriminate].
  intros [= <-]. apply find_some in E as [Hin _].
  apply existsb_exists. exists c; split; [assumption|apply Z.eqb_refl].
Qed.

Lemma add_collection_exists (db : database) (name : string) :
  existsb (fun c => collection_id c =? new_collection_id db)
          (collections (add_collection db name)) = true.
Proof.
  unfold add_collection; simpl. rewrite existsb_app; simpl.
  unfold new_collection_id. now rewrite Z.eqb_refl, orb_true_r.
Qed.

(** Every [write], failed or not, keeps the store well formed. *)
Lemma write_preserves_wfb (self : VectorDB.t) (collection text : string)
      (metadata : Json.json) (db : database) :
  wfb db = true -> wfb (snd (write self collection text metadata db)) = true.
Proof.
  intros Hwf.
  destruct (write_cases self collection text metadata db)
    as [msg|msg Hsel|embedding cid dbm Henc
                       [[Hsel ->]|(Hsel & -> & ->)]].
  - assumption.
  - now apply wfb_add_collection.
  - apply wfb_add_document; [assumption|]. eapply select_some_exists; eauto.
  - apply wfb_add_document; [now apply wfb_add_collection|].
    apply add_collection_exists.
Qed.

(** ** [query], statement by statement *)

Lemma query_unfold (self : VectorDB.t) (collection q : string) (n_results : Z)
      (db : database) :
  query self collection q n_results db =
    let failed e :=
      (Error ("Error querying database: " ++ exn_str e)%string, db) in
    match model self q with
    | Raise e => failed e
    | Ok query_embedding =>
        match io self Query_connect with
        | Some e => failed e
        | None =>
            match io self Query_select_collection with
            | Some e => failed e
            | None =>
                match select_collection_id db collection with
                | None => (Error (not_found_message collection), db)
                | Some cid =>
                    match io self Query_select_documents with
                    | Some e => failed e
                    | None =>
                        match traverse (score_row query_embedding)
                                       (select_documents db cid) with
                        | Raise e => failed e
                        | Ok documents =>
                            match top_results documents n_results with
                            | Raise e => failed e
                            | Ok top => (Results top, db)
                            end
                        end
                    end
                end
            end
        end
    end.
Proof.
  unfold query, try_except, bind, lift, check, ret, connect, commit.
  destruct (model self q); [|reflexivity].
  destruct (io self Query_connect); [reflexivity|].
  destruct (io self Query_select_collection); [reflexivity|].
  destruct (select_collection_id db collection); [|reflexivity].
  destruct (io self Query_select_documents); [reflexivity|].
  destruct (traverse (score_row a) (select_documents db z)); [|reflexivity].
  destruct (top_results a0 n_results); reflexivity.
Qed.

(** [query] never changes the store. *)
Lemma query_read_only (self : VectorDB.t) (collection q : string)
      (n_results : Z) (db : database) :
  snd (query self collection q n_results db) = db.
Proof.
  rewrite query_unfold; cbv zeta.
  repeat match goal with
         | |- context [match ?x with _ => _ end] => destruct x
         end; reflexivity.
Qed.

(** What a successful [query] has computed. *)
Lemma query_results_inv (self : VectorDB.t) (collection q : string)
      (n_results : Z) (db db' : database) (rs : list hit) :
  query self collection q n_results db = (Results rs, db') ->
  exists query_embedding cid documents,
    model self q = Ok query_embedding
    /\ select_collection_id db collection = Some cid
    /\ traverse (score_row query_embedding) (select_documents db cid)
       = Ok documents
    /\ top_results documents n_results = Ok rs.
Proof.
  rewrite query_unfold; cbv zeta.
  destruct (model self q) as [qe|]; [|discriminate].
  destruct (io self Query_connect); [discriminate|].
  destruct (io self Query_select_collection); [discriminate|].
  destruct (select_collection_id db collection) as [cid|]; [|discriminate].
  destruct (io self Query_select_documents); [discriminate|].
  destruct (traverse (score_row qe) (select_documents db cid)) as [docs|] eqn:E;
    [|discriminate].
  destruct (top_results docs n_results) eqn:E'; [|discriminate].
  intros [= <- <-]. now exists qe, cid, docs.
Qed.

Lemma query_no_faults (self : VectorDB.t) (collection q : string)
      (n_results : Z) (db : database) (query_embedding : Np.ndarray) (cid : Z)
      (documents top : list hit) :
  model self q = Ok query_embedding -> io self = no_faults ->
  select_collection_id db collection = Some cid ->
  traverse (score_row query_embedding) (select_documents db cid) = Ok documents ->
  top_results documents n_results = Ok top ->
  query self collection q n_results db = (Results top, db).
Proof.
  intros Henc Hio Hsel Hdocs Htop.
  rewrite query_unfold; cbv zeta.
  now rewrite Henc, Hio, Hsel, Hdocs, Htop.
Qed.

(** ** Loops over [result] *)

Lemma traverse_Forall2 {A B} (f : A -> result B) (l : list A) (bs : list B) :
  traverse f l = Ok bs -> Forall2 (fun a b => f a = Ok b) l bs.
Proof.
  revert bs; induction l as [|a l IH]; simpl; intros bs.
  - intros [= <-]; constructor.
  - destruct (f a) eqn:Ha; [|discriminate].
    destruct (traverse f l); [|discriminate].
    intros [= <-]; constructor; auto.
Qed.

Lemma Forall2_traverse {A B} (f : A -> result B) (l : list A) (bs : list B) :
  Forall2 (fun a b => f a = Ok b) l bs -> traverse f l = Ok bs.
Proof.
  induction 1 as [|a b l bs Hab _ IH]; simpl; [reflexivity|].
  now rewrite Hab, IH.
Qed.

Lemma traverse_length {A B} (f : A -> result B) (l : list A) (bs : list B) :
  traverse f l = Ok bs -> List.length bs = List.length l.
Proof.
  intros H; apply traverse_Forall2 in H.
  symmetry; eapply Forall2_length; eauto.
Qed.

Lemma Forall2_nth_error_r {A B} (R : A -> B -> Prop) (l : list A) (bs : list B)
      (i : nat) (b : B) :
  Forall2 R l bs -> nth_error bs i = Some b ->
  exists a, nth_error l i = Some a /\ R a b.
Proof.
  intros H; revert i; induction H as [|a b' l bs Hab _ IH]; intros [|i]; simpl;
    try discriminate.
  - intros [= <-]; eauto.
  - apply IH.
Qed.

Lemma Forall2_nth_error_l {A B} (R : A -> B -> Prop) (l : list A) (bs : list B)
      (i : nat) (a : A) :
  Forall2 R l bs -> nth_error l i = Some a ->
  exists b, nth_error bs i = Some b /\ R a b.
Proof.
  intros H; revert i; induction H as [|a' b l bs Hab _ IH]; intros [|i]; simpl;
    try discriminate.
  - intros [= <-]; eauto.
  - apply IH.
Qed.

Lemma traverse_in {A B} (f : A -> result B) (l : list A) (bs : list B) (b : B) :
  traverse f l = Ok bs -> In b bs -> exists a, In a l /\ f a = Ok b.
Proof.
  intros H Hin. apply traverse_Forall2 in H.
  apply In_nth_error in Hin as [i Hi].
  destruct (Forall2_nth_error_r _ _ _ _ _ H Hi) as (a & Ha & Hab).
  exists a; split; [eapply nth_error_In; eauto|assumption].
Qed.

(** ** The order NumPy sorts by *)

Lemma pos_compare_cont_Eq (p q : positive) :
  Pos.compare_cont Eq p q = (Zpos p ?= Zpos q).
Proof. reflexivity. Qed.

Lemma float_lt_key (a b : F32.t) :
  Np.float_lt a b = true <-> key_lt (sort_key a) (sort_key b).
Proof.
  unfold Np.float_lt, F32.ltb, SFltb.
  destruct a as [sa|sa| |sa ma ea], b as [sb|sb| |sb mb eb];
    try destruct sa; try destruct sb; simpl;
    try (split; [discriminate|lia]); try (split; [lia|reflexivity]).
  - rewrite pos_compare_cont_Eq.
    destruct (Z.compare_spec ea eb), (Z.compare_spec (Zpos ma) (Zpos mb));
      simpl; split; try discriminate; try reflexivity; lia.
  - rewrite pos_compare_cont_Eq.
    destruct (Z.compare_spec ea eb), (Z.compare_spec (Zpos ma) (Zpos mb));
      simpl; split; try discriminate; try reflexivity; lia.
Qed.

Lemma float_lt_false_key (a b : F32.t) :
  Np.float_lt a b = false <-> ~ key_lt (sort_key a) (sort_key b).
Proof.
  rewrite <- float_lt_key. destruct (Np.float_lt a b); split; congruence.
Qed.

Lemma float_lt_asym (a b : F32.t) :
  Np.float_lt a b = true -> Np.float_lt b a = false.
Proof.
  rewrite float_lt_false_key, float_lt_key. unfold key_lt.
  destruct (sort_key a) as [[a1 a2] a3], (sort_key b) as [[b1 b2] b3]. lia.
Qed.

Lemma float_lt_negtrans (a b c : F32.t) :
  Np.float_lt a b = false -> Np.float_lt b c = false -> Np.float_lt a c = false.
Proof.
  rewrite !float_lt_false_key. unfold key_lt.
  destruct (sort_key a) as [[a1 a2] a3], (sort_key b) as [[b1 b2] b3],
    (sort_key c) as [[c1 c2] c3]. lia.
Qed.

(** On numbers, "not [float_lt]" is the IEEE comparison [>=]. *)
Lemma float_lt_false_leb (a b : F32.t) :
  F32.is_nan a = false -> F32.is_nan b = false ->
  Np.float_lt a b = false -> F32.leb b a = true.
Proof.
  intros Ha Hb. rewrite float_lt_false_key. unfold F32.leb, SFleb, key_lt.
  destruct a as [sa|sa| |sa ma ea], b as [sb|sb| |sb mb eb];
    try discriminate; try destruct sa; try destruct sb; simpl;
    try reflexivity; try lia.
  - rewrite pos_compare_cont_Eq.
    destruct (Z.compare_spec eb ea), (Z.compare_spec (Zpos mb) (Zpos ma));
      simpl; try reflexivity; lia.
  - rewrite pos_compare_cont_Eq.
    destruct (Z.compare_spec eb ea), (Z.compare_spec (Zpos mb) (Zpos ma));
      simpl; try reflexivity; lia.
Qed.

Lemma eqb_not_float_lt (a b : F32.t) :
  F32.eqb a b = true -> Np.float_lt b a = false.
Proof.
  rewrite float_lt_false_key. unfold F32.eqb, SFeqb, key_lt.
  destruct a as [sa|sa| |sa ma ea], b as [sb|sb| |sb mb eb];
    try discriminate; try destruct sa; try destruct sb; simpl;
    try discriminate; try lia.
  - rewrite pos_compare_cont_Eq.
    destruct (Z.compare_spec ea eb), (Z.compare_spec (Zpos ma) (Zpos mb));
      simpl; try discriminate; lia.
  - rewrite pos_compare_cont_Eq.
    destruct (Z.compare_spec ea eb), (Z.compare_spec (Zpos ma) (Zpos mb));
      simpl; try discriminate; lia.
Qed.

(** ** [np.argsort(...)[::-1]] *)

Section Ranking.
Variable v : list F32.t.

Lemma insert_left_perm (vi : nat) (rp : list nat) :
  Permutation (Np.insert_left v vi rp) (vi :: rp).
Proof.
  induction rp as [|k rp IH]; simpl; [reflexivity|].
  destruct (Np.float_lt (Np.at_ v vi) (Np.at_ v k)); [|reflexivity].
  rewrite IH. apply perm_swap.
Qed.

Lemma fold_insert_perm (l acc : list nat) :
  Permutation (fold_left (ins v) l acc) (l ++ acc).
Proof.
  revert acc; induction l as [|x l IH]; intros acc; simpl; [reflexivity|].
  unfold ins at 2. rewrite IH, insert_left_perm.
  symmetry; apply Permutation_middle.
Qed.

Lemma insert_left_sorted (vi : nat) (rp : list nat) :
  (forall x, In x rp -> (x < vi)%nat) ->
  StronglySorted (before v) rp ->
  StronglySorted (before v) (Np.insert_left v vi rp).
Proof.
  intros Hlt Hs; induction Hs as [|k rp Hs IH Hk]; simpl.
  - repeat constructor.
  - destruct (Np.float_lt (Np.at_ v vi) (Np.at_ v k)) eqn:E.
    + constructor.
      * apply IH. intros x Hx; apply Hlt; now right.
      * apply Forall_forall. intros x Hx.
        apply (Permutation_in _ (insert_left_perm vi rp)) in Hx as [<-|Hx].
        -- split; [now apply float_lt_asym|now left].
        -- rewrite Forall_forall in Hk. now apply Hk.
    + constructor; [now constructor|].
      apply Forall_forall. intros x Hx.
      assert (Hx' : (x < vi)%nat) by now apply Hlt.
      split; [|now right].
      destruct Hx as [<-|Hx]; [assumption|].
      rewrite Forall_forall in Hk. destruct (Hk x Hx) as [Hkx _].
      eapply float_lt_negtrans; eauto.
Qed.

Lemma fold_insert_sorted (n k : nat) (acc : list nat) :
  (forall x, In x acc -> (x < k)%nat) ->
  StronglySorted (before v) acc ->
  StronglySorted (before v) (fold_left (ins v) (seq k n) acc).
Proof.
  revert k acc; induction n as [|n IH]; intros k acc Hlt Hs; simpl;
    [assumption|].
  apply IH.
  - intros x Hx.
    apply (Permutation_in _ (insert_left_perm k acc)) in Hx as [<-|Hx];
      [lia|]. specialize (Hlt x Hx); lia.
  - now apply insert_left_sorted.
Qed.

Lemma ranking_fold :
  (ranking v) = fold_left (ins v) (seq 0 (List.length v)) [].
Proof. unfold ranking, Np.reversed, Np.argsort. apply rev_involutive. Qed.

Lemma ranking_perm : Permutation (ranking v) (seq 0 (List.length v)).
Proof.
  rewrite ranking_fold, fold_insert_perm. now rewrite app_nil_r.
Qed.

Lemma ranking_sorted : StronglySorted (before v) (ranking v).
Proof.
  rewrite ranking_fold. apply fold_insert_sorted; [intros x []|constructor].
Qed.

Lemma ranking_length : List.length (ranking v) = List.length v.
Proof.
  rewrite (Permutation_length ranking_perm). apply length_seq.
Qed.

Lemma ranking_bound (i : nat) : In i (ranking v) -> (i < List.length v)%nat.
Proof.
  intros H. apply (Permutation_in _ ranking_perm) in H.
  apply in_seq in H; lia.
Qed.

Lemma ranking_NoDup : NoDup (ranking v).
Proof.
  eapply Permutation_NoDup; [symmetry; apply ranking_perm|apply seq_NoDup].
Qed.
End Ranking.

Lemma firstn_incl {A} (l : list A) (n : nat) (x : A) :
  In x (firstn n l) -> In x l.
Proof.
  intros H. rewrite <- (firstn_skipn n l). apply in_or_app; now left.
Qed.

Lemma StronglySorted_firstn {A} (R : A -> A -> Prop) (l : list A) (n : nat) :
  StronglySorted R l -> StronglySorted R (firstn n l).
Proof.
  intros H; revert n; induction H as [|a l Hs IH Ha]; intros [|n]; simpl;
    try constructor; auto.
  apply Forall_forall; intros x Hx. rewrite Forall_forall in Ha.
  apply Ha. eapply firstn_incl; eauto.
Qed.

Lemma StronglySorted_nth_error {A} (R : A -> A -> Prop) (l : list A)
      (i j : nat) (a b : A) :
  StronglySorted R l -> (i < j)%nat ->
  nth_error l i = Some a -> nth_error l j = Some b -> R a b.
Proof.
  intros H; revert i j; induction H as [|x l Hs IH Hx]; intros i j Hij.
  - now destruct i.
  - destruct i as [|i], j as [|j]; simpl; try lia.
    + intros [= <-] Hb. rewrite Forall_forall in Hx.
      apply Hx. eapply nth_error_In; eauto.
    + apply IH; lia.
Qed.

(** The slice [a[:n]] is a prefix of [a]. *)
Lemma slice_to_firstn {A} (a : list A) (n : Z) :
  exists k, Np.slice_to a n = firstn k a.
Proof. unfold Np.slice_to. destruct (n <? 0); eauto. Qed.

Lemma slice_to_zero {A} (a : list A) : Np.slice_to a 0 = [].
Proof. reflexivity. Qed.

Lemma slice_to_all {A} (a : list A) (n : Z) :
  Z.of_nat (List.length a) <= n -> Np.slice_to a n = a.
Proof.
  intros H. unfold Np.slice_to.
  destruct (n <? 0) eqn:E; [apply Z.ltb_lt in E; lia|].
  apply firstn_all2. lia.
Qed.

Lemma slice_to_negative {A} (a : list A) (n : Z) :
  n < 0 ->
  List.length (Np.slice_to a n) = Z.to_nat (Z.of_nat (List.length a) + n).
Proof.
  intros H. unfold Np.slice_to.
  destruct (n <? 0) eqn:E; [|apply Z.ltb_ge in E; lia].
  rewrite length_firstn. lia.
Qed.

(** ** The result list *)

Lemma getitem_all {A} (l : list A) (idxs : list nat) :
  (forall i, In i idxs -> (i < List.length l)%nat) ->
  exists rs, traverse (getitem l) idxs = Ok rs.
Proof.
  induction idxs as [|i idxs IH]; intros H; simpl; [eauto|].
  unfold getitem at 1.
  destruct (nth_error l i) eqn:E.
  - destruct IH as [rs ->]; [intros; apply H; now right|]. eauto.
  - apply nth_error_None in E. specialize (H i (or_introl eq_refl)). lia.
Qed.

Lemma getitem_Ok {A} (l : list A) (i : nat) (a : A) :
  getitem l i = Ok a <-> nth_error l i = Some a.
Proof.
  unfold getitem. destruct (nth_error l i); split; congruence.
Qed.

Lemma sorted_indices_bound (documents : list hit) (n : Z) (i : nat) :
  In i (sorted_indices documents n) -> (i < List.length documents)%nat.
Proof.
  unfold sorted_indices. destruct (slice_to_firstn (ranking (map hit_similarity documents)) n) as [k ->].
  intros H; apply firstn_incl, ranking_bound in H. now rewrite length_map in H.
Qed.

(** [top_results] never raises, and picks the documents at [sorted_indices]. *)
Lemma top_results_total (documents : list hit) (n : Z) :
  exists rs, top_results documents n = Ok rs.
Proof.
  unfold top_results. apply getitem_all. apply sorted_indices_bound.
Qed.

Lemma top_results_spec (documents rs : list hit) (n : Z) :
  top_results documents n = Ok rs ->
  Forall2 (fun i h => nth_error documents i = Some h)
          (sorted_indices documents n) rs.
Proof.
  intros H. apply traverse_Forall2 in H.
  eapply Forall2_impl; [|exact H]. intros i h; apply getitem_Ok.
Qed.

Lemma top_results_length (documents rs : list hit) (n : Z) :
  top_results documents n = Ok rs ->
  List.length rs = List.length (sorted_indices documents n).
Proof. intros H; now apply traverse_length in H. Qed.

Lemma top_results_in (documents rs : list hit) (n : Z) (h : hit) :
  top_results documents n = Ok rs -> In h rs -> In h documents.
Proof.
  intros H Hin. destruct (traverse_in _ _ _ _ H Hin) as (i & _ & Hi).
  apply getitem_Ok in Hi. eapply nth_error_In; eauto.
Qed.

(** Two results, in the order they are returned, and their positions among
    the scored documents. *)
Lemma top_results_order (documents rs : list hit) (n : Z) (i j : nat)
      (hi hj : hit) :
  top_results documents n = Ok rs -> (i < j)%nat ->
  nth_error rs i = Some hi -> nth_error rs j = Some hj ->
  exists a b,
    nth_error documents a = Some hi /\ nth_error documents b = Some hj
    /\ Np.float_lt (hit_similarity hi) (hit_similarity hj) = false
    /\ (Np.float_lt (hit_similarity hj) (hit_similarity hi) = true
        \/ (b < a)%nat).
Proof.
  intros Htop Hij Hi Hj. apply top_results_spec in Htop.
  destruct (Forall2_nth_error_r _ _ _ _ _ Htop Hi) as (a & Ha & Hai).
  destruct (Forall2_nth_error_r _ _ _ _ _ Htop Hj) as (b & Hb & Hbj).
  exists a, b. split; [assumption|]. split; [assumption|].
  unfold sorted_indices in Ha, Hb.
  destruct (slice_to_firstn (ranking (map hit_similarity documents)) n)
    as [k Hk]. rewrite Hk in Ha, Hb.
  pose proof (StronglySorted_firstn _ _ k
                (ranking_sorted (map hit_similarity documents))) as Hs.
  pose proof (StronglySorted_nth_error _ _ _ _ _ _ Hs Hij Ha Hb) as [H1 H2].
  assert (Hat : forall x h, nth_error documents x = Some h ->
                        Np.at_ (map hit_similarity documents) x
                        = hit_similarity h).
  { intros x h Hx. unfold Np.at_.
    erewrite nth_error_nth; [reflexivity|].
    now rewrite nth_error_map, Hx. }
  rewrite (Hat _ _ Hai), (Hat _ _ Hbj) in H1, H2. auto.
Qed.

(** *** From results back to rows *)

Lemma score_row_inv (query_embedding : Np.ndarray) (row : document_row) (h : hit) :
  score_row query_embedding row = Ok h ->
  hit_id h = doc_id row /\ hit_text h = doc_text row
  /\ load_metadata (doc_metadata row) = Ok (hit_metadata h)
  /\ exists embedding,
      Np.frombuffer (doc_embedding row) = Ok embedding
      /\ cosine_similarity query_embedding embedding = Ok (hit_similarity h).
Proof.
  unfold score_row, rbind.
  destruct (Np.frombuffer (doc_embedding row)) as [e|]; [|discriminate].
  destruct (cosine_similarity query_embedding e) as [s|] eqn:Hs; [|discriminate].
  destruct (load_metadata (doc_metadata row)) as [m|]; [|discriminate].
  intros [= <-]; simpl. repeat split; auto. exists e; auto.
Qed.

Lemma query_hit_row (self : VectorDB.t) (collection q : string) (n : Z)
      (db db' : database) (rs : list hit) (h : hit) :
  query self collection q n db = (Results rs, db') -> In h rs ->
  exists query_embedding cid row,
    model self q = Ok query_embedding
    /\ select_collection_id db collection = Some cid
    /\ In row (select_documents db cid)
    /\ score_row query_embedding row = Ok h.
Proof.
  intros Hq Hin.
  destruct (query_results_inv _ _ _ _ _ _ _ Hq)
    as (qe & cid & docs & Henc & Hsel & Hdocs & Htop).
  pose proof (top_results_in _ _ _ _ Htop Hin) as Hd.
  destruct (traverse_in _ _ _ _ Hdocs Hd) as (row & Hrow & Hscore).
  now exists qe, cid, row.
Qed.

Lemma select_documents_in (db : database) (cid : Z) (row : document_row) :
  In row (select_documents db cid) <->
  In row (documents db) /\ doc_collection_id row = cid.
Proof.
  unfold select_documents. rewrite filter_In, Z.eqb_eq. tauto.
Qed.

(** ** Sample data *)

(** ** Unknown collections (C5) *)

(** C5. A query that names a collection absent from the registry returns an
    error envelope (status ["error"]), never a success envelope, and leaves
    the store unchanged; when the encoder and the storage layer work, the
    message is the not-found message rather than the one of a caught
    exception. *)
Theorem C5_unknown_collection_is_error
        (self : VectorDB.t) (collection q : string) (n_results : Z)
        (db : database) :
  select_collection_id db collection = None ->
  exists msg,
    query self collection q n_results db = (Error msg, db)
    /\ status (Error msg) = "error"
    /\ (forall query_embedding,
           model self q = Ok query_embedding ->
           io self Query_connect = None ->
           io self Query_select_collection = None ->
           msg = not_found_message collection).
Proof.
  intros Hsel. rewrite query_unfold; cbv zeta. rewrite Hsel.
  destruct (model self q) as [qe|e].
  - destruct (io self Query_connect) as [e|].
    + eexists; repeat split. intros ? _ [=].
    + destruct (io self Query_select_collection) as [e|].
      * eexists; repeat split. intros ? _ _ [=].
      * eexists; repeat split.
  - eexists; repeat split. intros ? [=].
Qed.

Lemma C5_unknown_collection_witness :
  select_collection_id Sample.twice_a "missingcol" = None
  /\ exists msg,
      query Sample.tool "missingcol" "x" 5 Sample.twice_a
      = (Error msg, Sample.twice_a)
      /\ status (Error msg) = "error"
      /\ (forall query_embedding,
             model Sample.tool "x" = Ok query_embedding ->
             io Sample.tool Query_connect = None ->
             io Sample.tool Query_select_collection = None ->
             msg = not_found_message "missingcol").
Proof.
  split; [reflexivity|].
  apply (C5_unknown_collection_is_error Sample.tool "missingcol" "x" 5
                                        Sample.twice_a).
  reflexivity.
Defined.

(** ** Non-atomic writes (C8) *)

Lemma references_bound (db : database) (row : document_row) :
  wfb db = true -> In row (documents db) ->
  doc_collection_id row < new_collection_id db.
Proof.
  intros Hwf Hin. apply wfb_parts in Hwf as (_ & _ & _ & Hr).
  unfold references_ok in Hr. rewrite forallb_forall in Hr.
  specialize (Hr row Hin). apply existsb_exists in Hr as (c & Hc & Heq).
  apply Z.eqb_eq in Heq. rewrite <- Heq.
  apply next_rowid_fresh. now apply in_map.
Qed.

Lemma filter_none {A} (f : A -> bool) (l : list A) :
  (forall x, In x l -> f x = false) -> filter f l = [].
Proof.
  induction l as [|a l IH]; intros H; simpl; [reflexivity|].
  rewrite (H a) by now left. apply IH; intros; apply H; now right.
Qed.

(** A collection that has just been created holds no documents. *)
Lemma new_collection_empty (db : database) (name : string) :
  wfb db = true ->
  select_documents (add_collection db name) (new_collection_id db) = [].
Proof.
  intros Hwf. unfold select_documents, add_collection; simpl.
  apply filter_none. intros row Hin.
  pose proof (references_bound db row Hwf Hin). apply Z.eqb_neq; lia.
Qed.

Lemma find_app_none {A} (f : A -> bool) (l l' : list A) :
  find f l = None -> find f (l ++ l') = find f l'.
Proof.
  induction l as [|a l IH]; simpl; [reflexivity|].
  destruct (f a); [discriminate|exact IH].
Qed.

Lemma select_after_add (db : database) (name : string) :
  select_collection_id db name = None ->
  select_collection_id (add_collection db name) name
  = Some (new_collection_id db).
Proof.
  unfold select_collection_id, add_collection; simpl. intros H.
  destruct (find (name_is name) (collections db)) eqn:E; [discriminate|].
  rewrite find_app_none by assumption. simpl. unfold name_is; simpl.
  now rewrite String.eqb_refl.
Qed.

(** C8. When the document insertion fails (at the second connection, at the
    INSERT or at its commit) after [_get_or_create_collection] has committed
    a row for a new name, [write] returns an error envelope and the store
    keeps the new collection row: the registry has grown by exactly that row,
    no document was added, and in a well-formed store the new collection is
    usable but empty (a query on it succeeds with no results). *)
Theorem C8_write_not_atomic
        (self : VectorDB.t) (collection text : string) (metadata : Json.json)
        (db : database) (embedding : Np.ndarray) :
  model self text = Ok embedding ->
  select_collection_id db collection = None ->
  io self GetOrCreate_connect = None -> io self GetOrCreate_select = None ->
  io self GetOrCreate_insert = None -> io self GetOrCreate_commit = None ->
  (io self Write_connect <> None \/ io self Write_insert <> None
   \/ io self Write_commit <> None) ->
  exists msg db',
    write self collection text metadata db = (Error msg, db')
    /\ collections db'
       = collections db
         ++ [{| collection_id := new_collection_id db;
                collection_name := collection |}]
    /\ documents db' = documents db
    /\ select_collection_id db' collection = Some (new_collection_id db)
    /\ (wfb db = true ->
        forall (reader : VectorDB.t) (q : string) (n : Z) (qe : Np.ndarray),
          model reader q = Ok qe -> io reader = no_faults ->
          query reader collection q n db' = (Results [], db')).
Proof.
  intros Henc Hsel H1 H2 H3 H4 Hfail.
  rewrite write_unfold; cbv zeta. rewrite Henc.
  rewrite get_or_create_no_faults, Hsel by assumption.
  assert (Hq : wfb db = true ->
               forall (reader : VectorDB.t) (q : string) (n : Z) (qe : Np.ndarray),
                 model reader q = Ok qe -> io reader = no_faults ->
                 query reader collection q n (add_collection db collection)
                 = (Results [], add_collection db collection)).
  { intros Hwf reader q n qe Hqe Hio.
    eapply query_no_faults; eauto using select_after_add.
    - rewrite new_collection_empty by assumption. reflexivity.
    - unfold top_results; simpl. unfold Np.argsort, Np.reversed; simpl.
      unfold Np.slice_to; simpl. now destruct (n <? 0); rewrite firstn_nil. }
  destruct (io self Write_connect) as [e|];
    [|destruct (io self Write_insert) as [e|];
      [|destruct (io self Write_commit) as [e|];
        [|exfalso; intuition congruence]]];
    (eexists; eexists; split; [reflexivity|]);
    (split; [reflexivity|]); (split; [reflexivity|]);
    (split; [now apply select_after_add|exact Hq]).
Qed.

Lemma C8_write_not_atomic_witness :
  exists msg db',
    write Sample.failing_insert "fresh" "a" Json.JNull Sample.twice_a
    = (Error msg, db')
    /\ collections db'
       = collections Sample.twice_a
         ++ [{| collection_id := new_collection_id Sample.twice_a;
                collection_name := "fresh" |}]
    /\ documents db' = documents Sample.twice_a
    /\ select_collection_id db' "fresh"
       = Some (new_collection_id Sample.twice_a)
    /\ (wfb Sample.twice_a = true ->
        forall (reader : VectorDB.t) (q : string) (n : Z) (qe : Np.ndarray),
          model reader q = Ok qe -> io reader = no_faults ->
          query reader "fresh" q n db' = (Results [], db')).
Proof.
  apply (C8_write_not_atomic Sample.failing_insert "fresh" "a" Json.JNull
                             Sample.twice_a [Sample.one; Sample.zero]);
    try reflexivity.
  right; left; discriminate.
Defined.

(** ** Truncation to [n_results] (C3) *)

Lemma nth_error_seq_all {A} (l : list A) :
  map (nth_error l) (seq 0 (List.length l)) = map Some l.
Proof.
  induction l as [|a l IH]; [reflexivity|].
  simpl. f_equal. rewrite <- seq_shift, map_map. exact IH.
Qed.

Lemma Forall2_nth_error_map {A} (l : list A) (idxs : list nat) (rs : list A) :
  Forall2 (fun i h => nth_error l i = Some h) idxs rs ->
  map Some rs = map (nth_error l) idxs.
Proof.
  induction 1 as [|i h idxs rs Hi _ IH]; simpl; [reflexivity|].
  now rewrite Hi, IH.
Qed.

Lemma map_Some_inj {A} (l l' : list A) : map Some l = map Some l' -> l = l'.
Proof.
  revert l'; induction l as [|a l IH]; intros [|b l']; simpl; try discriminate;
    [reflexivity|].
  intros [= -> H]. f_equal; auto.
Qed.

(** With [n_results] at least the number of scored documents, all of them
    are returned. *)
Lemma top_results_all (documents rs : list hit) (n : Z) :
  Z.of_nat (List.length documents) <= n ->
  top_results documents n = Ok rs -> Permutation rs documents.
Proof.
  intros Hn Htop. apply top_results_spec in Htop.
  unfold sorted_indices in Htop.
  rewrite slice_to_all in Htop
    by (rewrite ranking_length, length_map; exact Hn).
  apply Forall2_nth_error_map in Htop.
  pose proof (Permutation_map (nth_error documents)
                (ranking_perm (map hit_similarity documents))) as Hp.
  rewrite length_map, nth_error_seq_all, <- Htop in Hp.
  symmetry in Hp.
  apply Permutation_map_inv in Hp as (l3 & Heq & Hp).
  apply map_Some_inj in Heq. subst l3. now symmetry.
Qed.

Lemma top_results_zero (documents rs : list hit) :
  top_results documents 0 = Ok rs -> rs = [].
Proof. unfold top_results. rewrite slice_to_zero; simpl. congruence. Qed.

(** A negative [n_results] drops that many results from the end of the
    ranking instead of returning none. *)
Lemma top_results_negative (documents rs : list hit) (n : Z) :
  n < 0 -> top_results documents n = Ok rs ->
  List.length rs = Z.to_nat (Z.of_nat (List.length documents) + n).
Proof.
  intros Hn Htop. rewrite (top_results_length _ _ _ Htop).
  unfold sorted_indices. rewrite slice_to_negative by assumption.
  now rewrite ranking_length, length_map.
Qed.

(** [query] with [n_results = 0] on an existing collection: an empty success
    list. *)
Lemma query_top_k_zero (self : VectorDB.t) (collection q : string)
      (db db' : database) (rs : list hit) :
  query self collection q 0 db = (Results rs, db') -> rs = [].
Proof.
  intros H. destruct (query_results_inv _ _ _ _ _ _ _ H)
    as (qe & cid & docs & _ & _ & _ & Htop).
  now apply top_results_zero in Htop.
Qed.

(** [query] with [n_results] at least the size of the collection returns one
    result per document of the collection. *)
Lemma query_top_k_all (self : VectorDB.t) (collection q : string) (n : Z)
      (db db' : database) (rs : list hit) (cid : Z) :
  select_collection_id db collection = Some cid ->
  Z.of_nat (List.length (select_documents db cid)) <= n ->
  query self collection q n db = (Results rs, db') ->
  Permutation (map hit_id rs) (map doc_id (select_documents db cid)).
Proof.
  intros Hsel Hn H. destruct (query_results_inv _ _ _ _ _ _ _ H)
    as (qe & cid' & docs & _ & Hsel' & Hdocs & Htop).
  rewrite Hsel in Hsel'; injection Hsel' as <-.
  pose proof (traverse_length _ _ _ Hdocs) as Hlen.
  apply top_results_all in Htop; [|lia].
  rewrite (Permutation_map hit_id Htop).
  apply traverse_Forall2 in Hdocs.
  assert (Hids : map hit_id docs = map doc_id (select_documents db cid)).
  { clear -Hdocs.
    induction Hdocs as [|row h rows hs Hrh _ IH]; simpl; [reflexivity|].
    apply score_row_inv in Hrh as (-> & _). now rewrite IH. }
  now rewrite Hids.
Qed.

(** C3 (failing input). With two documents in the collection and
    [n_results = -1], [query] returns one result where the claim requires an
    empty list: the slice [[:-1]] drops only the last entry of the
    ranking. *)
Theorem C3_negative_top_k_returns_results :
  query Sample.tool "c" "a" (-1) Sample.twice_a
  = (Results [{| hit_id := 2; hit_text := "a"; hit_metadata := Json.JNull;
                 hit_similarity := S754_finite false 8388608 (-23) |}],
     Sample.twice_a).
Proof. vm_compute. reflexivity. Qed.

(** ** The row a successful [write] appends *)

Lemma write_success_inv (self : VectorDB.t) (collection text : string)
      (metadata : Json.json) (db db' : database) (msg : string) (id : Z) :
  write self collection text metadata db = (Written msg id, db') ->
  exists embedding cid,
    model self text = Ok embedding
    /\ id = new_document_id db
    /\ select_collection_id db' collection = Some cid
    /\ documents db'
       = documents db ++ [written_row db cid text metadata embedding]
    /\ (collections db' = collections db
        \/ select_collection_id db collection = None
           /\ db' = add_document (add_collection db collection)
                                 (new_collection_id db) text metadata embedding).
Proof.
  intros Hw. pose proof (write_cases self collection text metadata db) as Hc.
  rewrite Hw in Hc; simpl in Hc.
  inversion Hc as [| |embedding cid dbm Henc Hsel Hmsg Hdb]; subst.
  exists embedding, cid. split; [assumption|].
  destruct Hsel as [[Hsel ->]|(Hsel & -> & ->)].
  - repeat split; auto.
  - repeat split; auto.
    unfold add_document, insert_document, select_collection_id; simpl.
    apply (select_after_add db collection Hsel).
Qed.

Lemma written_row_by_id (db : database) (cid : Z) (text : string)
      (metadata : Json.json) (embedding : Np.ndarray) (row : document_row) :
  In row (documents db ++ [written_row db cid text metadata embedding]) ->
  doc_id row = new_document_id db ->
  row = written_row db cid text metadata embedding.
Proof.
  intros Hin Hid. apply in_app_or in Hin as [Hin|[<-|[]]]; [|reflexivity].
  pose proof (next_rowid_fresh (map doc_id (documents db)) (doc_id row)
                (in_map _ _ _ Hin)) as Hlt.
  unfold new_document_id in Hid. lia.
Qed.

(** A later [query] that returns the written document has scored exactly the
    written row. *)
Lemma query_written_row (self reader : VectorDB.t)
      (collection text collection' q : string) (metadata : Json.json)
      (db db' db'' : database) (msg : string) (id n : Z) (rs : list hit)
      (h : hit) :
  write self collection text metadata db = (Written msg id, db') ->
  query reader collection' q n db' = (Results rs, db'') ->
  In h rs -> hit_id h = id ->
  exists embedding cid query_embedding,
    model self text = Ok embedding
    /\ model reader q = Ok query_embedding
    /\ score_row query_embedding (written_row db cid text metadata embedding)
       = Ok h.
Proof.
  intros Hw Hq Hin Hid.
  destruct (write_success_inv _ _ _ _ _ _ _ _ Hw)
    as (embedding & cid & Henc & -> & _ & Hdocs & _).
  destruct (query_hit_row _ _ _ _ _ _ _ _ Hq Hin)
    as (qe & cid' & row & Hqe & _ & Hrow & Hscore).
  apply select_documents_in in Hrow as [Hrow _]. rewrite Hdocs in Hrow.
  pose proof (score_row_inv _ _ _ Hscore) as (Hid' & _).
  rewrite Hid in Hid'. symmetry in Hid'.
  rewrite (written_row_by_id _ _ _ _ _ _ Hrow Hid') in Hscore.
  now exists embedding, cid, qe.
Qed.

(** ** Falsy metadata (C10) *)

(** C10. When the [metadata] argument of a successful [write] is falsy
    ([None], the empty mapping, an empty list or string, [0], [False]), the
    document row is stored with a NULL metadata column, and every later query
    that returns the document reports its metadata as [None] (JSON [null]),
    not as the value that was passed. *)
Theorem C10_falsy_metadata_reads_back_null
        (self reader : VectorDB.t) (collection text collection' q : string)
        (metadata : Json.json) (db db' db'' : database) (msg : string)
        (id n : Z) (rs : list hit) (h : hit) :
  Json.truthy metadata = false ->
  write self collection text metadata db = (Written msg id, db') ->
  (exists row, In row (documents db') /\ doc_id row = id
               /\ doc_metadata row = None)
  /\ (query reader collection' q n db' = (Results rs, db'') ->
      In h rs -> hit_id h = id -> hit_metadata h = Json.JNull).
Proof.
  intros Hfalsy Hw. split.
  - destruct (write_success_inv _ _ _ _ _ _ _ _ Hw)
      as (embedding & cid & _ & -> & _ & Hdocs & _).
    exists (written_row db cid text metadata embedding).
    rewrite Hdocs. split; [apply in_or_app; right; now left|].
    split; [reflexivity|]. simpl. unfold metadata_column. now rewrite Hfalsy.
  - intros Hq Hin Hid.
    destruct (query_written_row _ _ _ _ _ _ _ _ _ _ _ _ _ _ _ Hw Hq Hin Hid)
      as (embedding & cid & qe & _ & _ & Hscore).
    apply score_row_inv in Hscore as (_ & _ & Hmeta & _).
    simpl in Hmeta. unfold metadata_column in Hmeta.
    rewrite Hfalsy in Hmeta. simpl in Hmeta. congruence.
Qed.

Lemma C10_falsy_metadata_witness :
  let db' := snd (write Sample.tool "c" "a" (Json.JDict []) Sqlite.empty) in
  let h := {| hit_id := 1; hit_text := "a"; hit_metadata := Json.JNull;
              hit_similarity := S754_finite false 8388608 (-23) |} in
  Json.truthy (Json.JDict []) = false
  /\ query Sample.tool "c" "a" 5 db' = (Results [h], db')
  /\ (exists row, In row (documents db') /\ doc_id row = 1
                  /\ doc_metadata row = None)
  /\ hit_metadata h = Json.JNull.
Proof.
  intros db' h.
  destruct (C10_falsy_metadata_reads_back_null
              Sample.tool Sample.tool "c" "a" "c" "a" (Json.JDict [])
              Sqlite.empty db' db'
              "Successfully wrote document 1 to collection 'c'" 1 5 [h] h)
    as [Hrow Hmeta]; [reflexivity|reflexivity|].
  split; [reflexivity|]. split; [reflexivity|]. split; [exact Hrow|].
  apply Hmeta; [reflexivity|now left|reflexivity].
Defined.

(** ** Input validation (C4) *)




(** ** Zero norms (C1) *)


(** The similarity is computed whenever the shapes agree; no norm makes the
    computation raise. *)
Lemma cosine_similarity_total (q e : Np.ndarray) :
  List.length q = List.length e ->
  cosine_similarity q e
  = Ok (F32.div (Np.sdot (combine q e)) (F32.mul (Np.norm q) (Np.norm e))).
Proof.
  intros H. unfold cosine_similarity, Np.dot, rbind.
  now rewrite H, Nat.eqb_refl.
Qed.





(** ** Ranking order and ties (C2) *)

(** C2 (counterexample). The same text written twice scores the same, and
    the query returns the second document before the first. *)
Lemma C2_tie_order_counterexample :
  exists rs,
    query Sample.tool "c" "a" 5 Sample.twice_a = (Results rs, Sample.twice_a)
    /\ ~ sorted_descending_stable rs.
Proof.
  eexists; split; [vm_compute; reflexivity|].
  intros H. specialize (H 0%nat 1%nat _ _ (Nat.lt_0_1) eq_refl eq_refl).
  destruct H as [_ H]. specialize (H eq_refl). simpl in H. lia.
Qed.

Lemma increasing_StronglySorted (l : list Z) :
  increasing l = true -> StronglySorted Z.lt l.
Proof.
  induction l as [|a l IH]; intros H; constructor.
  - apply IH. simpl in H. destruct l; [reflexivity|].
    now apply andb_prop in H.
  - apply Forall_forall. intros y Hy. exact (increasing_lt [] l a y H Hy).
Qed.

Lemma StronglySorted_map_inv {A B} (f : A -> B) (R : B -> B -> Prop)
      (l : list A) :
  StronglySorted R (map f l) -> StronglySorted (fun x y => R (f x) (f y)) l.
Proof.
  induction l as [|a l IH]; simpl; intros H; [constructor|].
  inversion H as [|? ? Hs Ha]; subst. constructor; [auto|].
  rewrite Forall_forall in *. intros x Hx. apply Ha. now apply in_map.
Qed.

Lemma StronglySorted_filter {A} (R : A -> A -> Prop) (f : A -> bool)
      (l : list A) :
  StronglySorted R l -> StronglySorted R (filter f l).
Proof.
  induction 1 as [|a l Hs IH Ha]; simpl; [constructor|].
  destruct (f a); [|assumption]. constructor; [assumption|].
  rewrite Forall_forall in *. intros x Hx. apply Ha.
  now apply filter_In in Hx.
Qed.

(** Rows of one collection are fetched in the order they were written. *)
Lemma select_documents_sorted (db : database) (cid : Z) :
  wfb db = true ->
  StronglySorted (fun r r' => doc_id r < doc_id r') (select_documents db cid).
Proof.
  intros Hwf. apply wfb_parts in Hwf as (_ & _ & Hd & _).
  apply StronglySorted_filter, StronglySorted_map_inv.
  now apply increasing_StronglySorted.
Qed.

(** C2 (amended). The results of a successful query are in descending order
    of similarity in the order NumPy sorts by: results whose similarity is
    NaN come first, and among the others no result has a smaller similarity
    than a later one.  Two results with equal similarity appear in reverse
    write order, the later written document first; this part is stated for
    collections of at most 16 documents, where [Np.argsort] is all of
    NumPy's algorithm. *)
Theorem C2_results_descending_ties_latest_first
        (self : VectorDB.t) (collection q : string) (n : Z)
        (db db' : database) (rs : list hit) (i j : nat) (hi hj : hit) :
  wfb db = true ->
  query self collection q n db = (Results rs, db') ->
  (i < j)%nat -> nth_error rs i = Some hi -> nth_error rs j = Some hj ->
  (F32.is_nan (hit_similarity hj) = true ->
   F32.is_nan (hit_similarity hi) = true)
  /\ (F32.is_nan (hit_similarity hi) = false ->
      F32.is_nan (hit_similarity hj) = false ->
      F32.leb (hit_similarity hj) (hit_similarity hi) = true)
  /\ (forall cid,
         select_collection_id db collection = Some cid ->
         (List.length (select_documents db cid) <= 16)%nat ->
         F32.eqb (hit_similarity hi) (hit_similarity hj) = true ->
         hit_id hj < hit_id hi).
Proof.
  intros Hwf Hq Hij Hi Hj.
  destruct (query_results_inv _ _ _ _ _ _ _ Hq)
    as (qe & cid & docs & _ & Hsel & Hdocs & Htop).
  destruct (top_results_order _ _ _ _ _ _ _ Htop Hij Hi Hj)
    as (a & b & Ha & Hb & Hge & Htie).
  split; [|split].
  - intros Hnan. destruct (F32.is_nan (hit_similarity hi)) eqn:E; [reflexivity|].
    unfold Np.float_lt in Hge. rewrite Hnan, E in Hge.
    now rewrite orb_true_r in Hge.
  - intros Hni Hnj. now apply float_lt_false_leb.
  - intros cid' Hsel' _ Heq.
    rewrite Hsel in Hsel'; injection Hsel' as <-.
    apply eqb_not_float_lt in Heq.
    destruct Htie as [Hlt|Hba]; [congruence|].
    apply traverse_Forall2 in Hdocs.
    destruct (Forall2_nth_error_r _ _ _ _ _ Hdocs Ha) as (ra & Hra & Hsa).
    destruct (Forall2_nth_error_r _ _ _ _ _ Hdocs Hb) as (rb & Hrb & Hsb).
    apply score_row_inv in Hsa as (-> & _).
    apply score_row_inv in Hsb as (-> & _).
    exact (StronglySorted_nth_error _ _ _ _ _ _
             (select_documents_sorted db cid Hwf) Hba Hrb Hra).
Qed.

Lemma C2_results_descending_witness :
  let h1 := {| hit_id := 1; hit_text := "a"; hit_metadata := Json.JNull;
               hit_similarity := S754_finite false 8388608 (-23) |} in
  let h2 := {| hit_id := 2; hit_text := "a"; hit_metadata := Json.JNull;
               hit_similarity := S754_finite false 8388608 (-23) |} in
  (F32.is_nan (hit_similarity h1) = true ->
   F32.is_nan (hit_similarity h2) = true)
  /\ (F32.is_nan (hit_similarity h2) = false ->
      F32.is_nan (hit_similarity h1) = false ->
      F32.leb (hit_similarity h1) (hit_similarity h2) = true)
  /\ (forall cid,
         select_collection_id Sample.twice_a "c" = Some cid ->
         (List.length (select_documents Sample.twice_a cid) <= 16)%nat ->
         F32.eqb (hit_similarity h2) (hit_similarity h1) = true ->
         hit_id h1 < hit_id h2).
Proof.
  intros h1 h2.
  apply (C2_results_descending_ties_latest_first
           Sample.tool "c" "a" 5 Sample.twice_a Sample.twice_a [h2; h1]
           0%nat 1%nat h2 h1).
  - reflexivity.
  - vm_compute; reflexivity.
  - lia.
  - reflexivity.
  - reflexivity.
Defined.

(** ** Concurrent callers of [_get_or_create_collection] (C9) *)

Lemma Forall_replace_nth {A} (P : A -> Prop) (i : nat) (a : A) (l : list A) :
  Forall P l -> P a -> Forall P (replace_nth i a l).
Proof.
  intros Hl Ha; revert i; induction Hl as [|x l Hx Hl IH]; intros [|i]; simpl;
    constructor; auto.
Qed.

Lemma Forall_nth_error {A} (P : A -> Prop) (i : nat) (a : A) (l : list A) :
  Forall P l -> nth_error l i = Some a -> P a.
Proof.
  intros Hl Hi. rewrite Forall_forall in Hl. apply Hl.
  eapply nth_error_In; eauto.
Qed.

Lemma insert_collection_distinct (db conn : database) (n : string) (id : Z) :
  distinct (names_of db) = true ->
  insert_collection db n = Ok (conn, id) ->
  distinct (names_of conn) = true.
Proof.
  unfold insert_collection, names_of. intros Hd.
  destruct (existsb (name_is n) (collections db)) eqn:E; [discriminate|].
  intros [= <- _]; simpl. rewrite map_app; simpl.
  apply distinct_app_last; [assumption|]. now rewrite existsb_names.
Qed.

Lemma step_inv (i : nat) (sys : system) :
  registry_inv sys -> registry_inv (step i sys).
Proof.
  intros [Hs Hc]. unfold step.
  destruct (nth_error (callers sys) i) as [c|] eqn:Hi; [|now split].
  pose proof (Forall_nth_error _ _ _ _ Hc Hi) as Hci.
  cbv beta in Hci. revert Hci.
  destruct (at_ c) as [|[id|]|conn id|r]; intros Hci.
  - split; simpl; [assumption|]. now apply Forall_replace_nth.
  - split; simpl; [assumption|]. now apply Forall_replace_nth.
  - destruct (existsb holds_lock (callers sys)).
    + split; simpl; [assumption|]. now apply Forall_replace_nth.
    + destruct (insert_collection (shared sys) (name c)) as [[conn id]|e] eqn:E.
      * split; simpl; [assumption|].
        apply Forall_replace_nth; [assumption|]. simpl.
        eapply insert_collection_distinct; eauto.
      * split; simpl; [assumption|]. now apply Forall_replace_nth.
  - split; simpl; [assumption|]. now apply Forall_replace_nth.
  - now split.
Qed.

Lemma run_inv (schedule : list nat) (sys : system) :
  registry_inv sys -> registry_inv (run schedule sys).
Proof.
  revert sys; induction schedule as [|i schedule IH]; intros sys H;
    [assumption|].
  apply IH. now apply step_inv.
Qed.

Lemma initial_inv (db : database) (names : list string) :
  distinct (names_of db) = true -> registry_inv (initial db names).
Proof.
  intros H; split; [assumption|]. unfold initial; simpl.
  apply Forall_forall. intros c Hc. apply in_map_iff in Hc as (n & <- & _).
  exact I.
Qed.

Lemma distinct_rows_named (n : string) (cs : list collection_row) :
  distinct (map collection_name cs) = true ->
  (List.length (filter (name_is n) cs) <= 1)%nat.
Proof.
  induction cs as [|c cs IH]; simpl; [lia|].
  intros H. apply andb_prop in H as [Hc Hd]. specialize (IH Hd).
  destruct (name_is n c) eqn:E; [|assumption]. simpl.
  apply negb_true_iff in Hc. rewrite existsb_names in Hc.
  unfold name_is in E. apply String.eqb_eq in E. rewrite E in Hc.
  rewrite filter_none; [simpl; lia|].
  intros x Hx. destruct (name_is n x) eqn:Ex; [|reflexivity].
  assert (existsb (name_is n) cs = true)
    by (apply existsb_exists; eauto).
  congruence.
Qed.

Lemma run_rows_named (db : database) (names : list string)
      (schedule : list nat) (n : string) :
  distinct (names_of db) = true ->
  (rows_named n (shared (run schedule (initial db names))) <= 1)%nat.
Proof.
  intros H. apply distinct_rows_named.
  now apply (run_inv schedule _ (initial_inv db names H)).
Qed.

(** The interleaving model agrees with the sequential code: a caller that
    runs alone goes through the statements of [_get_or_create_collection]. *)
Lemma solo_caller_is_get_or_create (self : VectorDB.t) (n : string)
      (db : database) :
  io self = no_faults ->
  run [0; 0; 0]%nat (initial db [n])
  = {| shared := snd (_get_or_create_collection self n db);
       callers :=
         [{| name := n;
             at_ := Returned (fst (_get_or_create_collection self n db)) |}] |}.
Proof.
  intros Hio.
  rewrite get_or_create_no_faults by (rewrite Hio; reflexivity).
  unfold run, initial; simpl. unfold step at 3; simpl.
  destruct (select_collection_id db n) as [id|] eqn:Hsel.
  - reflexivity.
  - unfold step at 2; simpl. rewrite (select_none_insert _ _ Hsel).
    reflexivity.
Qed.

Lemma insert_after_add (db : database) (n : string) :
  insert_collection (add_collection db n) n
  = Raise (IntegrityError "UNIQUE constraint failed: collections.name").
Proof.
  unfold insert_collection, add_collection; simpl.
  rewrite existsb_app; simpl. unfold name_is at 2; simpl.
  now rewrite String.eqb_refl, orb_true_r.
Qed.

(** C9 (counterexample). Starting from an empty registry, no interleaving of
    two callers of [_get_or_create_collection("newcol")] leaves two rows
    named ["newcol"]. *)
Lemma C9_two_rows_counterexample :
  ~ (exists schedule,
        (2 <= rows_named "newcol"
                (shared (run schedule
                             (initial Sqlite.empty ["newcol"; "newcol"]))))%nat).
Proof.
  intros [schedule H].
  pose proof (run_rows_named Sqlite.empty ["newcol"; "newcol"] schedule
                             "newcol" eq_refl).
  lia.
Qed.

(** C9 (amended). [_get_or_create_collection] is a check-then-act sequence,
    and two concurrent callers with the same new name can both observe "not
    found".  The UNIQUE constraint on [collections.name] then lets only one
    INSERT through: the other caller's INSERT raises an integrity error, one
    row is committed, and in every interleaving of any number of callers the
    names in the registry stay unique. *)
Theorem C9_concurrent_get_or_create_keeps_names_unique
        (db : database) (new_name : string) (names : list string)
        (schedule : list nat) :
  distinct (names_of db) = true ->
  select_collection_id db new_name = None ->
  map at_ (callers (run [0; 1]%nat (initial db [new_name; new_name])))
  = [Selected None; Selected None]
  /\ run [0; 1; 0; 0; 1]%nat (initial db [new_name; new_name])
     = {| shared := add_collection db new_name;
          callers :=
            [{| name := new_name;
                at_ := Returned (Ok (new_collection_id db)) |};
             {| name := new_name;
                at_ := Returned
                         (Raise (IntegrityError
                                   "UNIQUE constraint failed: collections.name")) |}] |}
  /\ distinct (names_of (shared (run schedule (initial db names)))) = true
  /\ (forall n,
         (rows_named n (shared (run schedule (initial db names))) <= 1)%nat).
Proof.
  intros Hd Hsel. split; [|split; [|split]].
  - unfold run, initial; simpl. unfold step; simpl. now rewrite Hsel.
  - unfold run, initial; simpl.
    unfold step at 5; simpl. unfold step at 4; simpl. rewrite Hsel.
    unfold step at 3; simpl. rewrite (select_none_insert _ _ Hsel).
    unfold step at 2; simpl. unfold step; simpl.
    now rewrite insert_after_add.
  - now apply (run_inv schedule _ (initial_inv db names Hd)).
  - intros n. now apply run_rows_named.
Qed.

Lemma C9_concurrent_get_or_create_witness :
  map at_ (callers (run [0; 1]%nat (initial Sqlite.empty ["newcol"; "newcol"])))
  = [Selected None; Selected None]
  /\ run [0; 1; 0; 0; 1]%nat (initial Sqlite.empty ["newcol"; "newcol"])
     = {| shared := add_collection Sqlite.empty "newcol";
          callers :=
            [{| name := "newcol";
                at_ := Returned (Ok (new_collection_id Sqlite.empty)) |};
             {| name := "newcol";
                at_ := Returned
                         (Raise (IntegrityError
                                   "UNIQUE constraint failed: collections.name")) |}] |}
  /\ distinct (names_of (shared (run [1; 0; 1; 0; 0; 1]%nat
                                     (initial Sqlite.empty
                                              ["newcol"; "newcol"])))) = true
  /\ (forall n,
         (rows_named n (shared (run [1; 0; 1; 0; 0; 1]%nat
                                    (initial Sqlite.empty
                                             ["newcol"; "newcol"]))) <= 1)%nat).
Proof.
  apply (C9_concurrent_get_or_create_keeps_names_unique
           Sqlite.empty "newcol" ["newcol"; "newcol"] [1; 0; 1; 0; 0; 1]%nat);
    reflexivity.
Defined.

(** ** [json.loads] after [json.dumps] *)

Section JsonRoundTrip.
Local Open Scope char_scope.

Lemma scanstring_escape (c : ascii) (tail : list ascii) :
  scanstring (escape_char c ++ tail)
  = match scanstring tail with
    | Ok (cs, rest) => Ok (c :: cs, rest)
    | Raise x => Raise x
    end.
Proof.
  destruct c as [[] [] [] [] [] [] [] []]; reflexivity.
Qed.

Lemma scanstring_encoded (cs : list ascii) (rest : list ascii) :
  scanstring (flat_map escape_char cs ++ quote :: rest) = Ok (cs, rest).
Proof.
  induction cs as [|c cs IH]; simpl; [reflexivity|].
  rewrite <- app_assoc, scanstring_escape, IH. reflexivity.
Qed.

Lemma boundary_cases (rest : list ascii) :
  boundary rest = true ->
  rest = [] \/ exists r, rest = "," :: r \/ rest = "]" :: r \/ rest = "}" :: r.
Proof.
  destruct rest as [|c r]; [now left|]. simpl. intros H. right; exists r.
  apply orb_prop in H as [H|H]; [apply orb_prop in H as [H|H]|];
    apply Ascii.eqb_eq in H; subst; auto.
Qed.

Lemma span_digits_of (d : Decimal.uint) (rest : list ascii) :
  boundary rest = true -> span_digits (digits_of d ++ rest) = (digits_of d, rest).
Proof.
  intros Hb. unfold digits_of.
  induction d; simpl; try (rewrite IHd; reflexivity).
  destruct (boundary_cases rest Hb) as [->|[r [->|[->| ->]]]]; reflexivity.
Qed.

Lemma digits_of_string (d : Decimal.uint) :
  string_of_list_ascii (digits_of d) = DecimalString.NilEmpty.string_of_uint d.
Proof. apply string_of_list_ascii_of_string. Qed.

Lemma to_uint_leading (p : positive) : leading_nonzero (Pos.to_uint p).
Proof.
  pose proof (DecimalPos.Unsigned.to_of (Pos.to_uint p)) as H.
  rewrite DecimalPos.Unsigned.of_to in H. simpl in H.
  pose proof (DecimalPos.Unsigned.to_uint_nonzero p) as Hz.
  pose proof (DecimalPos.Unsigned.to_uint_nonnil p) as Hn.
  destruct (Pos.to_uint p) as [|d| | | | | | | | | ] eqn:E; simpl; auto.
  unfold Decimal.unorm in H. rewrite DecimalFacts.nzhead_D0 in H.
  destruct (Decimal.nzhead d) eqn:En; try discriminate.
  - injection H as H. subst d. now apply Hz.
  - exfalso. eapply DecimalFacts.nzhead_nonzero; eauto.
Qed.

Lemma int_of_digits_of (neg : bool) (d : Decimal.uint) :
  d <> Decimal.Nil ->
  int_of_digits neg (digits_of d)
  = Ok (if neg then Z.opp (Z.of_uint d) else Z.of_uint d).
Proof.
  intros Hd. unfold int_of_digits. rewrite digits_of_string.
  replace (DecimalString.NilEmpty.string_of_uint d)
    with (DecimalString.NilZero.string_of_uint d) by now destruct d.
  now rewrite DecimalString.NilZero.usu.
Qed.

Lemma match_number_digits (neg : bool) (d : Decimal.uint) (rest : list ascii) :
  leading_nonzero d -> boundary rest = true ->
  match_number ((if neg then ["-"] else []) ++ digits_of d ++ rest)
  = Ok (if neg then Z.opp (Z.of_uint d) else Z.of_uint d, rest).
Proof.
  intros Hd Hb.
  assert (Hn : d <> Decimal.Nil) by (intros ->; exact Hd).
  pose proof (span_digits_of d rest Hb) as Hs.
  pose proof (int_of_digits_of neg d Hn) as Hi.
  unfold match_number.
  destruct d; try (exfalso; exact Hd);
    destruct neg; cbn [app digits_of list_ascii_of_string DecimalString.NilEmpty.string_of_uint] in *;
    rewrite Hs;
    destruct (boundary_cases rest Hb) as [->|[r [->|[->| ->]]]];
    cbv beta iota; rewrite Hi; reflexivity.
Qed.

Lemma json_induction (P : json -> Prop) :
  P JNull -> (forall b, P (JBool b)) -> (forall z, P (JInt z)) ->
  (forall s, P (JStr s)) ->
  (forall l, Forall P l -> P (JList l)) ->
  (forall kvs, Forall (fun kv => P (snd kv)) kvs -> P (JDict kvs)) ->
  forall j, P j.
Proof.
  intros HN HB HI HS HL HD. fix IH 1. intros [ |b|z|s|l|kvs].
  - exact HN.
  - apply HB.
  - apply HI.
  - apply HS.
  - apply HL. induction l as [|x l IHl]; constructor; [apply IH|exact IHl].
  - apply HD. induction kvs as [|[k v] kvs IHl]; constructor;
      [apply IH|exact IHl].
Qed.

Lemma skip_ws_head (s : list ascii) : head_ok s -> skip_ws s = s.
Proof.
  destruct s as [|c tl]; [reflexivity|]. simpl. unfold value_start.
  intros H. apply andb_prop in H as [H _]. apply andb_prop in H as [H _].
  apply negb_true_iff in H. now rewrite H.
Qed.

Lemma head_ok_app (s rest : list ascii) : head_ok s -> head_ok (s ++ rest).
Proof. now destruct s. Qed.

Lemma digits_head (d : Decimal.uint) :
  leading_nonzero d ->
  exists c tl, digits_of d = c :: tl /\ is_digit c = true.
Proof.
  destruct d; simpl; intros H; try contradiction; eexists _, _; split;
    reflexivity.
Qed.

Lemma number_head (z : Z) :
  exists c tl, list_ascii_of_string (str_of_Z z) = c :: tl
               /\ number_start c = true.
Proof.
  unfold str_of_Z. destruct z as [|p|p]; simpl.
  - eexists _, _; split; reflexivity.
  - destruct (digits_head _ (to_uint_leading p)) as (c & tl & E & Hc).
    exists c, tl. unfold digits_of in E.
    replace (DecimalString.NilZero.string_of_uint (Pos.to_uint p))
      with (DecimalString.NilEmpty.string_of_uint (Pos.to_uint p)).
    + split; [assumption|]. unfold number_start. now rewrite Hc.
    + pose proof (to_uint_leading p). now destruct (Pos.to_uint p).
  - eexists _, _; split; reflexivity.
Qed.

Lemma number_start_value (c : ascii) :
  number_start c = true -> value_start c = true.
Proof.
  destruct c as [[] [] [] [] [] [] [] []]; try discriminate; reflexivity.
Qed.

Lemma encode_head (j : json) : head_ok (encode j).
Proof.
  destruct j as [ |[]|z|s|l|kvs]; try reflexivity.
  destruct (number_head z) as (c & tl & E & Hc). simpl. rewrite E.
  now apply number_start_value.
Qed.

Lemma match_number_str_of_Z (z : Z) (rest : list ascii) :
  boundary rest = true ->
  match_number (list_ascii_of_string (str_of_Z z) ++ rest) = Ok (z, rest).
Proof.
  intros Hb. unfold str_of_Z. destruct z as [|p|p]; simpl Z.to_int.
  - simpl. unfold match_number.
    destruct (boundary_cases rest Hb) as [->|[r [->|[->| ->]]]]; reflexivity.
  - pose proof (to_uint_leading p) as Hl.
    pose proof (match_number_digits false _ rest Hl Hb) as H.
    simpl in H. unfold digits_of in H.
    replace (DecimalString.NilZero.string_of_int (Decimal.Pos (Pos.to_uint p)))
      with (DecimalString.NilEmpty.string_of_uint (Pos.to_uint p))
      by (simpl; now destruct (Pos.to_uint p)).
    rewrite H. unfold Z.of_uint. now rewrite DecimalPos.Unsigned.of_to.
  - pose proof (to_uint_leading p) as Hl.
    pose proof (match_number_digits true _ rest Hl Hb) as H.
    simpl in H. unfold digits_of in H.
    replace (list_ascii_of_string
               (DecimalString.NilZero.string_of_int (Decimal.Neg (Pos.to_uint p))))
      with ("-" :: list_ascii_of_string
                     (DecimalString.NilEmpty.string_of_uint (Pos.to_uint p)))
      by (simpl; now destruct (Pos.to_uint p)).
    simpl app. rewrite H. unfold Z.of_uint.
    now rewrite DecimalPos.Unsigned.of_to.
Qed.

Lemma scan_once_number (f : nat) (c : ascii) (tl : list ascii) :
  number_start c = true ->
  scan_once (S f) (c :: tl)
  = match match_number (c :: tl) with
    | Ok (z, rest) => Ok (JInt z, rest)
    | Raise x => Raise x
    end.
Proof.
  destruct c as [[] [] [] [] [] [] [] []]; try discriminate; reflexivity.
Qed.

Lemma scan_once_list (f : nat) (c : ascii) (tl : list ascii) :
  value_start c = true ->
  scan_once (S f) ("[" :: c :: tl)
  = match array_items f (c :: tl) [] with
    | Ok (vs, rest) => Ok (JList vs, rest)
    | Raise x => Raise x
    end.
Proof.
  destruct c as [[] [] [] [] [] [] [] []]; try discriminate; reflexivity.
Qed.

Lemma scan_once_dict (f : nat) (tl : list ascii) :
  scan_once (S f) ("{" :: quote :: tl)
  = match object_items f (quote :: tl) [] with
    | Ok (pairs, rest) => Ok (JDict (dict_of_pairs pairs), rest)
    | Raise x => Raise x
    end.
Proof. reflexivity. Qed.

Lemma array_items_S (f : nat) (s : list ascii) (acc : list json) :
  array_items (S f) s acc
  = match scan_once f s with
    | Raise x => Raise x
    | Ok (v, r) =>
        match skip_ws r with
        | "]" :: rest => Ok (rev (v :: acc), rest)
        | "," :: rest => array_items f (skip_ws rest) (v :: acc)
        | _ => decode_error "Expecting ',' delimiter"
        end
    end.
Proof. reflexivity. Qed.

Lemma object_items_S (f : nat) (r : list ascii) (acc : list (string * json)) :
  object_items (S f) (quote :: r) acc
  = match scanstring r with
    | Raise x => Raise x
    | Ok (k, r1) =>
        match skip_ws r1 with
        | ":" :: r2 =>
            match scan_once f (skip_ws r2) with
            | Raise x => Raise x
            | Ok (v, r3) =>
                let acc' := (string_of_list_ascii k, v) :: acc in
                match skip_ws r3 with
                | "}" :: rest => Ok (rev acc', rest)
                | "," :: rest => object_items f (skip_ws rest) acc'
                | _ => decode_error "Expecting ',' delimiter"
                end
            end
        | _ => decode_error "Expecting ':' delimiter"
        end
    end.
Proof. reflexivity. Qed.

Lemma join_cons2 (sep p q : list ascii) (ps : list (list ascii)) :
  join sep (p :: q :: ps) = p ++ sep ++ join sep (q :: ps).
Proof. reflexivity. Qed.

Lemma skip_ws_comma (r : list ascii) : skip_ws ("," :: r) = "," :: r.
Proof. reflexivity. Qed.
Lemma skip_ws_colon (r : list ascii) : skip_ws (":" :: r) = ":" :: r.
Proof. reflexivity. Qed.
Lemma skip_ws_bracket (r : list ascii) : skip_ws ("]" :: r) = "]" :: r.
Proof. reflexivity. Qed.
Lemma skip_ws_brace (r : list ascii) : skip_ws ("}" :: r) = "}" :: r.
Proof. reflexivity. Qed.
Lemma skip_ws_space (r : list ascii) : skip_ws (" " :: r) = skip_ws r.
Proof. reflexivity. Qed.

Lemma join_head (vs : list json) (v : json) (rest : list ascii) :
  head_ok (join item_separator (map encode (v :: vs)) ++ rest).
Proof.
  apply head_ok_app. cbn [map]. destruct (map encode vs).
  - apply encode_head.
  - rewrite join_cons2. apply head_ok_app, encode_head.
Qed.

Lemma array_items_encode (vs : list json) :
  forall (v : json) (acc : list json) (f : nat) (rest : list ascii),
    Forall reads_back (v :: vs) ->
    (List.length (join item_separator (map encode (v :: vs))) < f)%nat ->
    array_items f (join item_separator (map encode (v :: vs)) ++ "]" :: rest) acc
    = Ok (rev acc ++ v :: vs, rest).
Proof.
  induction vs as [|v' vs IH]; intros v acc f rest Hall Hf;
    destruct f as [|f]; try lia; rewrite array_items_S;
    inversion Hall as [|? ? Hv Hvs]; subst.
  - simpl in *. rewrite Hv by (simpl; auto; lia). reflexivity.
  - change (join item_separator (map encode (v :: v' :: vs)))
      with (encode v ++ item_separator
                     ++ join item_separator (map encode (v' :: vs))) in *.
    rewrite !length_app in Hf. rewrite <- !app_assoc.
    rewrite Hv; [|lia|reflexivity].
    change (item_separator ++ ?x) with ("," :: " " :: x).
    rewrite skip_ws_comma. cbv iota beta.
    rewrite skip_ws_space, skip_ws_head by apply join_head.
    change (List.length item_separator) with 2%nat in Hf.
    rewrite (IH v' (v :: acc) f rest Hvs) by lia.
    simpl. now rewrite <- app_assoc.
Qed.

Lemma dict_set_fresh (k : string) (v : json) (d : list (string * json)) :
  existsb (String.eqb k) (map fst d) = false -> dict_set k v d = d ++ [(k, v)].
Proof.
  induction d as [|[k' v'] d IH]; simpl; [reflexivity|].
  intros H. apply orb_false_elim in H as [Hk H]. now rewrite Hk, IH.
Qed.

Lemma dict_of_pairs_distinct (kvs d : list (string * json)) :
  distinct (map fst (d ++ kvs)) = true ->
  fold_left (fun d kv => dict_set (fst kv) (snd kv) d) kvs d = d ++ kvs.
Proof.
  revert d; induction kvs as [|[k v] kvs IH]; intros d H; simpl.
  - now rewrite app_nil_r.
  - rewrite dict_set_fresh.
    + rewrite IH; rewrite <- app_assoc; [reflexivity|exact H].
    + clear IH. induction d as [|[k' v'] d IHd]; [reflexivity|].
      simpl in H. apply andb_prop in H as [Hk Hd]. simpl.
      rewrite (IHd Hd), orb_false_r.
      apply negb_true_iff in Hk. rewrite map_app, existsb_app in Hk.
      apply orb_false_elim in Hk as [_ Hk]. simpl in Hk.
      apply orb_false_elim in Hk as [Hk _]. now rewrite String.eqb_sym.
Qed.

Lemma encode_str_app (k : string) (tail : list ascii) :
  encode_str k ++ tail
  = quote :: flat_map escape_char (list_ascii_of_string k) ++ quote :: tail.
Proof. unfold encode_str. simpl. now rewrite <- app_assoc. Qed.

Lemma object_items_encode (kvs : list (string * json)) :
  forall (kv : string * json) (acc : list (string * json)) (f : nat)
         (rest : list ascii),
    Forall (fun kv => reads_back (snd kv)) (kv :: kvs) ->
    (List.length (join item_separator (map encode_pair (kv :: kvs))) < f)%nat ->
    object_items f (join item_separator (map encode_pair (kv :: kvs))
                      ++ "}" :: rest) acc
    = Ok (rev acc ++ kv :: kvs, rest).
Proof.
  induction kvs as [|kv' kvs IH]; intros [k v] acc f rest Hall Hf;
    destruct f as [|f]; try lia;
    inversion Hall as [|? ? Hv Hvs]; subst; simpl in Hv.
  - cbn [map join encode_pair] in *.
    rewrite <- !app_assoc, encode_str_app, object_items_S.
    rewrite scanstring_encoded.
    change (key_separator ++ ?x) with (":" :: " " :: x).
    rewrite skip_ws_colon. cbv iota beta.
    rewrite skip_ws_space, skip_ws_head by apply head_ok_app, encode_head.
    rewrite Hv; [|simpl in Hf; rewrite !length_app in Hf; simpl in Hf; lia
                 |reflexivity].
    rewrite skip_ws_brace. cbv iota beta zeta.
    now rewrite string_of_list_ascii_of_string.
  - change (join item_separator (map encode_pair ((k, v) :: kv' :: kvs)))
      with (encode_pair (k, v) ++ item_separator
                     ++ join item_separator (map encode_pair (kv' :: kvs))) in *.
    cbn [encode_pair] in *.
    rewrite <- !app_assoc, encode_str_app, object_items_S.
    rewrite scanstring_encoded.
    change (key_separator ++ ?x) with (":" :: " " :: x).
    rewrite skip_ws_colon. cbv iota beta.
    rewrite skip_ws_space, skip_ws_head by apply head_ok_app, encode_head.
    rewrite Hv; [|simpl in Hf; rewrite !length_app in Hf; simpl in Hf; lia
                 |reflexivity].
    change (item_separator ++ ?x) with ("," :: " " :: x).
    rewrite skip_ws_comma. cbv iota beta zeta.
    rewrite skip_ws_space, string_of_list_ascii_of_string.
    rewrite skip_ws_head.
    + rewrite (IH kv' ((k, v) :: acc) f rest Hvs).
      * simpl. now rewrite <- app_assoc.
      * rewrite !length_app in Hf.
        change (List.length item_separator) with 2%nat in Hf. lia.
    + apply head_ok_app. destruct kv' as [k' v']. cbn [map].
      destruct (map encode_pair kvs); [reflexivity|].
      rewrite join_cons2. reflexivity.
Qed.

Lemma encode_dict_pairs (kvs : list (string * json)) :
  encode (JDict kvs)
  = "{" :: join item_separator (map encode_pair kvs) ++ ["}"].
Proof. reflexivity. Qed.

Lemma json_wf_list (l : list json) :
  json_wf (JList l) = true -> Forall (fun v => json_wf v = true) l.
Proof. simpl. rewrite forallb_forall. now rewrite Forall_forall. Qed.

Lemma json_wf_dict (kvs : list (string * json)) :
  json_wf (JDict kvs) = true ->
  distinct (map fst kvs) = true
  /\ Forall (fun kv => json_wf (snd kv) = true) kvs.
Proof.
  simpl. intros H. apply andb_prop in H as [Hd Hf]. split; [assumption|].
  rewrite forallb_forall in Hf. apply Forall_forall.
  intros [k v] Hin. exact (Hf _ Hin).
Qed.

Lemma Forall_modus_ponens {A} (P Q : A -> Prop) (l : list A) :
  Forall (fun x => P x -> Q x) l -> Forall P l -> Forall Q l.
Proof.
  induction 1 as [|x l Hx _ IH]; intros Hp; constructor;
    inversion Hp; subst; auto.
Qed.

(** Every well-formed value is read back from its encoding. *)
Lemma scan_once_encode (j : json) : json_wf j = true -> reads_back j.
Proof.
  induction j as [ |b|z|s|l IH|kvs IH] using json_induction; intros Hwf.
  - intros [|f] rest Hf Hb; [simpl in Hf; lia|reflexivity].
  - intros [|f] rest Hf Hb; [destruct b; simpl in Hf; lia|].
    destruct b; reflexivity.
  - intros [|f] rest Hf Hb.
    + destruct (number_head z) as (c & tl & E & _). simpl in Hf.
      rewrite E in Hf. simpl in Hf. lia.
    + pose proof (match_number_str_of_Z z rest Hb) as Hm.
      destruct (number_head z) as (c & tl & E & Hc).
      cbn [encode] in *. rewrite E in *. cbn [app] in *.
      rewrite scan_once_number by assumption. now rewrite Hm.
  - intros [|f] rest Hf Hb; [simpl in Hf; lia|].
    cbn [encode]. rewrite encode_str_app.
    change (scan_once (S f) (quote :: ?r))
      with (match scanstring r with
            | Ok (cs, rest) => Ok (JStr (string_of_list_ascii cs), rest)
            | Raise x => Raise x
            end).
    rewrite scanstring_encoded. now rewrite string_of_list_ascii_of_string.
  - apply json_wf_list in Hwf.
    pose proof (Forall_modus_ponens _ _ _ IH Hwf) as Hall.
    intros [|f] rest Hf Hb; [simpl in Hf; lia|].
    destruct l as [|v vs]; [reflexivity|].
    cbn [encode] in *. cbn [app].
    rewrite <- app_assoc. cbn [app].
    pose proof (join_head vs v ("]" :: rest)) as Hh.
    destruct (join item_separator (map encode (v :: vs)) ++ "]" :: rest)
      as [|c tl] eqn:E; [contradiction|].
    rewrite scan_once_list by exact Hh. rewrite <- E.
    rewrite (array_items_encode vs v [] f rest Hall); [reflexivity|].
    cbn [List.length] in Hf. rewrite length_app in Hf.
    cbn [List.length] in Hf. lia.
  - apply json_wf_dict in Hwf as [Hd Hwf].
    pose proof (Forall_modus_ponens _ _ _ IH Hwf) as Hall.
    intros [|f] rest Hf Hb; [simpl in Hf; lia|].
    destruct kvs as [|kv kvs]; [reflexivity|].
    rewrite encode_dict_pairs in *. cbn [app].
    rewrite <- app_assoc. cbn [app].
    assert (Hq : exists tl,
               join item_separator (map encode_pair (kv :: kvs)) ++ "}" :: rest
               = quote :: tl).
    { destruct kv as [k v]. cbn [map].
      destruct (map encode_pair kvs); cbn [join encode_pair];
        rewrite <- !app_assoc, encode_str_app; eauto. }
    destruct Hq as [tl E].
    pose proof (object_items_encode kvs kv [] f rest Hall) as Ho.
    rewrite E in *. rewrite scan_once_dict, Ho.
    + cbn [rev app]. unfold dict_of_pairs.
      now rewrite dict_of_pairs_distinct.
    + cbn [List.length] in Hf. rewrite length_app in Hf.
      cbn [List.length] in Hf. lia.
Qed.

(** [json.loads(json.dumps(j)) == j]. *)
Theorem loads_dumps (j : json) : json_wf j = true -> loads (dumps j) = Ok j.
Proof.
  intros Hwf. unfold loads, dumps.
  rewrite list_ascii_of_string_of_list_ascii.
  rewrite skip_ws_head by apply encode_head.
  pose proof (scan_once_encode j Hwf (S (List.length (encode j))) []) as H.
  rewrite app_nil_r in H. rewrite H; [reflexivity|lia|reflexivity].
Qed.

Lemma dumps_nonempty (j : json) : String.eqb (dumps j) EmptyString = false.
Proof.
  unfold dumps. pose proof (encode_head j) as H.
  now destruct (encode j).
Qed.

End JsonRoundTrip.

(** ** Metadata round trip (C7) *)

Lemma load_metadata_column (metadata : json) :
  json_wf metadata = true -> truthy metadata = true ->
  load_metadata (metadata_column metadata) = Ok metadata.
Proof.
  intros Hwf Ht. unfold metadata_column, load_metadata. rewrite Ht.
  rewrite dumps_nonempty. now apply loads_dumps.
Qed.



(** ** Binary32 arithmetic: rounding, square root, product, quotient *)

(** *** Number of binary digits *)

Lemma digits2_pos_bounds (p : positive) :
  2 ^ (Zpos (digits2_pos p) - 1) <= Zpos p < 2 ^ Zpos (digits2_pos p).
Proof.
  induction p as [p IH|p IH|]; simpl digits2_pos.
  - rewrite Pos2Z.inj_succ.
    replace (Z.succ (Zpos (digits2_pos p)) - 1) with (Z.succ (Zpos (digits2_pos p) - 1)) by lia.
    rewrite !Z.pow_succ_r by lia. lia.
  - rewrite Pos2Z.inj_succ.
    replace (Z.succ (Zpos (digits2_pos p)) - 1) with (Z.succ (Zpos (digits2_pos p) - 1)) by lia.
    rewrite !Z.pow_succ_r by lia. lia.
  - simpl. lia.
Qed.

Lemma digits2_pos_unique (p : positive) (k : Z) :
  2 ^ (k - 1) <= Zpos p < 2 ^ k -> Zpos (digits2_pos p) = k.
Proof.
  intros [Hlo Hhi]. pose proof (digits2_pos_bounds p) as [Hl Hh].
  set (d := Zpos (digits2_pos p)) in *.
  assert (0 < k).
  { destruct (Z_lt_le_dec 0 k); [assumption|].
    destruct (Z.eq_dec k 0); [subst; simpl in Hhi; lia|].
    rewrite Z.pow_neg_r in Hhi by lia. lia. }
  destruct (Z.lt_trichotomy d k) as [Hlt|[Heq|Hgt]]; [|assumption|].
  - assert (2 ^ d <= 2 ^ (k - 1)) by (apply Z.pow_le_mono_r; lia). lia.
  - assert (2 ^ k <= 2 ^ (d - 1)) by (apply Z.pow_le_mono_r; lia). lia.
Qed.

(** *** Shifting a mantissa to the right, with its rounding record *)

Lemma shr_1_spec (mrs : shr_record) :
  0 <= shr_m mrs ->
  shr_m (shr_1 mrs) = shr_m mrs / 2 /\ shr_r (shr_1 mrs) = Z.odd (shr_m mrs).
Proof.
  destruct mrs as [m r s]; simpl. intros Hm.
  rewrite <- Z.div2_div.
  destruct m as [|[p|p|]|p]; simpl; try lia; auto.
Qed.

Lemma div_pow2_pow2 (a i j : Z) :
  0 <= i -> 0 <= j -> a / 2 ^ i / 2 ^ j = a / 2 ^ (i + j).
Proof.
  intros Hi Hj.
  assert (0 < 2 ^ i) by (apply Z.pow_pos_nonneg; lia).
  assert (0 < 2 ^ j) by (apply Z.pow_pos_nonneg; lia).
  rewrite Z.div_div by lia. now rewrite <- Z.pow_add_r.
Qed.

Lemma shr_iter (p : positive) :
  forall mrs, 0 <= shr_m mrs ->
    shr_m (iter_pos shr_1 p mrs) = shr_m mrs / 2 ^ Zpos p
    /\ shr_r (iter_pos shr_1 p mrs) = Z.odd (shr_m mrs / 2 ^ (Zpos p - 1)).
Proof.
  assert (Hnn : forall a i, 0 <= a -> 0 <= a / 2 ^ i).
  { intros a i Ha. destruct (Z_lt_le_dec i 0).
    - rewrite Z.pow_neg_r by lia. now rewrite Z.div_0_r.
    - apply Z.div_pos; [lia|apply Z.pow_pos_nonneg; lia]. }
  induction p as [p IH|p IH|]; intros mrs Hm; simpl iter_pos.
  - destruct (shr_1_spec mrs Hm) as [H1 _].
    assert (H1' : 0 <= shr_m (shr_1 mrs))
      by (rewrite H1; change 2 with (2 ^ 1); now apply Hnn).
    destruct (IH _ H1') as [H2 _].
    assert (H2' : 0 <= shr_m (iter_pos shr_1 p (shr_1 mrs)))
      by (rewrite H2; now apply Hnn).
    destruct (IH _ H2') as [H3 H4]. rewrite H3, H4, H2, H1.
    change (shr_m mrs / 2) with (shr_m mrs / 2 ^ 1).
    rewrite !div_pow2_pow2 by lia. rewrite Pos2Z.inj_xI.
    split; [f_equal; f_equal; lia|f_equal; f_equal; f_equal; lia].
  - destruct (IH _ Hm) as [H2 _].
    assert (H2' : 0 <= shr_m (iter_pos shr_1 p mrs))
      by (rewrite H2; now apply Hnn).
    destruct (IH _ H2') as [H3 H4]. rewrite H3, H4, H2.
    rewrite !div_pow2_pow2 by lia. rewrite Pos2Z.inj_xO.
    split; [f_equal; f_equal; lia|f_equal; f_equal; f_equal; lia].
  - destruct (shr_1_spec mrs Hm) as [H1 H2]. rewrite H1, H2.
    simpl. now rewrite Z.div_1_r.
Qed.

Lemma round_nearest_even_bounds (mrs : shr_record) :
  let k := round_nearest_even (shr_m mrs) (loc_of_shr_record mrs) in
  shr_m mrs <= k <= shr_m mrs + (if shr_r mrs then 1 else 0).
Proof.
  destruct mrs as [m [] []]; simpl; try destruct (Z.even m); lia.
Qed.

Lemma loc_of_record_of_loc (m : Z) (l : location) :
  loc_of_shr_record (shr_record_of_loc m l) = l
  /\ shr_m (shr_record_of_loc m l) = m.
Proof. destruct l as [|[]]; split; reflexivity. Qed.

Lemma round_nearest_even_loc (m : Z) (l : location) :
  m <= round_nearest_even m l <= m + 1.
Proof. destruct l as [|[]]; simpl; try destruct (Z.even m); lia. Qed.

Lemma shr_spec (mrs : shr_record) (e n : Z) :
  0 <= shr_m mrs ->
  shr_m (fst (shr mrs e n)) = shr_m mrs / 2 ^ Z.max 0 n
  /\ snd (shr mrs e n) = e + Z.max 0 n
  /\ (0 < n -> shr_r (fst (shr mrs e n)) = Z.odd (shr_m mrs / 2 ^ (n - 1)))
  /\ (n <= 0 -> fst (shr mrs e n) = mrs).
Proof.
  intros Hm. unfold shr. destruct n as [|p|p]; simpl fst; simpl snd.
  - rewrite Z.div_1_r. repeat split; try lia; auto.
  - destruct (shr_iter p mrs Hm) as [H1 H2].
    rewrite H1, H2. repeat split; auto; lia.
  - rewrite Z.div_1_r. repeat split; try lia; auto.
Qed.

Lemma fexp32_eq (e : Z) : fexp 24 128 e = fexp32 e.
Proof. reflexivity. Qed.

(** The two normalisation steps of [binary_round_aux], in arithmetic. *)
Lemma binary_round_aux_spec (sx : bool) (mx ex : Z) (lx : location) :
  0 < mx ->
  let n := fexp32 (Zdigits2 mx + ex) - ex in
  exists k,
    mx / 2 ^ Z.max 0 n <= k <= mx / 2 ^ Z.max 0 n + 1
    /\ (0 < n -> k * 2 ^ n <= mx + 2 ^ (n - 1))
    /\ (n <= 0 -> k = round_nearest_even mx lx)
    /\ binary_round_aux 24 128 sx mx ex lx
       = let e1 := ex + Z.max 0 n in
         let n2 := fexp32 (Zdigits2 k + e1) - e1 in
         match k / 2 ^ Z.max 0 n2 with
         | Z0 => S754_zero sx
         | Zpos m =>
             if e1 + Z.max 0 n2 <=? 104
             then S754_finite sx m (e1 + Z.max 0 n2)
             else S754_infinity sx
         | Zneg _ => S754_nan
         end.
Proof.
  intros Hmx n. unfold binary_round_aux, shr_fexp. rewrite fexp32_eq.
  fold n.
  destruct (loc_of_record_of_loc mx lx) as [Hloc Hrm].
  assert (H0 : 0 <= shr_m (shr_record_of_loc mx lx)) by (rewrite Hrm; lia).
  destruct (shr_spec (shr_record_of_loc mx lx) ex n H0)
    as (Hm1 & He1 & Hr1 & Hid).
  destruct (shr (shr_record_of_loc mx lx) ex n) as [mrs1 e1] eqn:E1.
  simpl fst in *; simpl snd in *. rewrite Hrm in *.
  pose proof (round_nearest_even_bounds mrs1) as Hk.
  set (k := round_nearest_even (shr_m mrs1) (loc_of_shr_record mrs1)) in *.
  cbv zeta in Hk. exists k.
  assert (Hk0 : 0 <= k).
  { rewrite Hm1 in Hk. pose proof (Z.div_pos mx (2 ^ Z.max 0 n)).
    assert (0 < 2 ^ Z.max 0 n) by (apply Z.pow_pos_nonneg; lia). lia. }
  split; [rewrite <- Hm1; destruct (shr_r mrs1); lia|].
  split.
  { intros Hn. specialize (Hr1 Hn).
    assert (Hp : 0 < 2 ^ (n - 1)) by (apply Z.pow_pos_nonneg; lia).
    assert (Hpn : 2 ^ n = 2 * 2 ^ (n - 1)).
    { rewrite <- Z.pow_succ_r by lia. f_equal; lia. }
    rewrite Z.max_r in Hm1 by lia.
    set (a := mx / 2 ^ (n - 1)) in *.
    assert (Ha : a * 2 ^ (n - 1) <= mx).
    { unfold a. pose proof (Z.mul_div_le mx (2 ^ (n - 1)) Hp). lia. }
    assert (Hm1a : shr_m mrs1 = a / 2).
    { rewrite Hm1, Hpn. unfold a. rewrite Z.mul_comm.
      now rewrite <- Z.div_div by lia. }
    pose proof (Z.div_mod a 2 ltac:(lia)) as Hdm.
    rewrite Zmod_odd in Hdm. rewrite <- Hr1 in Hdm.
    destruct (shr_r mrs1); nia. }
  split.
  { intros Hn. unfold k. rewrite (Hid Hn). now rewrite Hloc, Hrm. }
  rewrite He1. cbv zeta.
  set (e1' := ex + Z.max 0 n).
  rewrite fexp32_eq.
  set (n2 := fexp32 (Zdigits2 k + e1') - e1').
  destruct (loc_of_record_of_loc k loc_Exact) as [_ Hrm2].
  assert (H02 : 0 <= shr_m (shr_record_of_loc k loc_Exact)) by (rewrite Hrm2; lia).
  destruct (shr_spec (shr_record_of_loc k loc_Exact) e1' n2 H02)
    as (Hm2 & He2 & _ & _).
  destruct (shr (shr_record_of_loc k loc_Exact) e1' n2) as [mrs2 e2] eqn:E2.
  simpl fst in *; simpl snd in *. rewrite Hrm2 in Hm2.
  rewrite Hm2, He2. reflexivity.
Qed.

Lemma bounded_cases (m : positive) (e : Z) :
  bounded 24 128 m e = true ->
  1 <= Zpos (digits2_pos m) <= 24 /\ -149 <= e <= 104
  /\ (Zpos (digits2_pos m) < 24 -> e = -149).
Proof.
  unfold bounded, canonical_mantissa. rewrite fexp32_eq. unfold fexp32.
  intros H. apply andb_prop in H as [H1 H2].
  apply Z.eqb_eq in H1. apply Z.leb_le in H2.
  pose proof (Pos2Z.is_pos (digits2_pos m)). lia.
Qed.

Lemma pow2_pos (i : Z) : 0 <= i -> 0 < 2 ^ i.
Proof. intros; apply Z.pow_pos_nonneg; lia. Qed.

Lemma pow2_le (i j : Z) : 0 <= i <= j -> 2 ^ i <= 2 ^ j.
Proof. intros; apply Z.pow_le_mono_r; lia. Qed.

Lemma pow2_add (i j : Z) : 0 <= i -> 0 <= j -> 2 ^ (i + j) = 2 ^ i * 2 ^ j.
Proof. intros; apply Z.pow_add_r; lia. Qed.

(** The square root of a binary32 number. *)
Lemma sqrt_spec (m : positive) (e : Z) :
  1 <= Zpos (digits2_pos m) <= 24 -> -149 <= e <= 104 ->
  exists (mr : positive) (er s : Z),
    SFsqrt 24 128 (S754_finite false m e) = S754_finite false mr er
    /\ e = 2 * er + s
    /\ 47 - Zpos (digits2_pos m) <= s <= 48 - Zpos (digits2_pos m)
    /\ -98 <= er <= 40
    /\ 2 ^ 23 <= Zpos mr < 2 ^ 24
    /\ 2 ^ 46 <= Zpos m * 2 ^ s < 2 ^ 48
    /\ (Zpos mr - 1) * (Zpos mr - 1) <= Zpos m * 2 ^ s.
Proof.
  intros Hd He.
  pose proof (digits2_pos_bounds m) as Hm.
  set (d := Zpos (digits2_pos m)) in *.
  unfold SFsqrt, SFsqrt_core_binary. rewrite fexp32_eq.
  change (Zdigits2 (Zpos m)) with d.
  rewrite !Z.div2_div.
  set (t := (d + e + 1) / 2).
  assert (Ht : d + e + 1 = 2 * t + (d + e + 1) mod 2)
    by (apply Z.div_mod; lia).
  pose proof (Z.mod_pos_bound (d + e + 1) 2 ltac:(lia)) as Hb.
  set (b := (d + e + 1) mod 2) in *.
  assert (He2 : e = 2 * (e / 2) + e mod 2) by (apply Z.div_mod; lia).
  pose proof (Z.mod_pos_bound e 2 ltac:(lia)) as Hb2.
  assert (Her : Z.min (fexp32 t) (e / 2) = t - 24) by (unfold fexp32; lia).
  rewrite Her.
  set (er := t - 24) in *.
  set (s := e - 2 * er).
  assert (Hs : s = 47 - d + b) by (unfold s, er; lia).
  assert (Hspos : 0 < s) by lia.
  destruct s as [|ps|ps] eqn:Es; try lia.
  rewrite <- Es in *. clear Es ps.
  rewrite Z.shiftl_mul_pow2 by lia.
  set (M := Zpos m * 2 ^ s).
  assert (HM : 2 ^ 46 <= M < 2 ^ 48).
  { unfold M.
    assert (H1 : 2 ^ (d - 1) * 2 ^ s = 2 ^ (46 + b))
      by (rewrite <- pow2_add by lia; f_equal; lia).
    assert (H2 : 2 ^ d * 2 ^ s = 2 ^ (47 + b))
      by (rewrite <- pow2_add by lia; f_equal; lia).
    pose proof (pow2_pos s ltac:(lia)).
    assert (2 ^ 46 <= 2 ^ (46 + b)) by (apply pow2_le; lia).
    assert (2 ^ (47 + b) <= 2 ^ 48) by (apply pow2_le; lia).
    nia. }
  pose proof (Z.sqrtrem_spec M ltac:(lia)) as Hsq.
  destruct (Z.sqrtrem M) as [q r]. destruct Hsq as [HMq Hr].
  assert (Hq : 2 ^ 23 <= q < 2 ^ 24).
  { change (2 ^ 46) with (2 ^ 23 * 2 ^ 23) in HM.
    change (2 ^ 48) with (2 ^ 24 * 2 ^ 24) in HM.
    assert (0 <= q) by nia. split; nia. }
  set (l := if r =? 0 then loc_Exact
            else loc_Inexact (if r <=? q then Lt else Gt)).
  assert (Hk : q <= round_nearest_even q l < 2 ^ 24).
  { pose proof (round_nearest_even_loc q l) as Hk. split; [lia|].
    destruct (Z.eq_dec q (2 ^ 24 - 1)) as [Hq1|Hq1]; [|lia].
    assert (Hb1 : b = 1).
    { destruct (Z.eq_dec b 1); [assumption|]. exfalso.
      assert (b = 0) by lia.
      assert (M < 2 ^ 47).
      { unfold M. assert (H2 : 2 ^ d * 2 ^ s = 2 ^ 47)
          by (rewrite <- pow2_add by lia; f_equal; lia).
        pose proof (pow2_pos s ltac:(lia)). nia. }
      subst q. change (2 ^ 24 - 1) with 16777215 in *.
      change (2 ^ 47) with 140737488355328 in *. lia. }
    assert (Hmul : exists c, M = c * 2 ^ 24).
    { exists (Zpos m * 2 ^ (s - 24)). unfold M.
      rewrite <- Z.mul_assoc, <- pow2_add by lia. do 2 f_equal. lia. }
    destruct Hmul as [c Hc].
    assert (Hrq : r <= q).
    { subst q. change (2 ^ 24) with 16777216 in *.
      change (2 ^ 48) with 281474976710656 in *. lia. }
    unfold l. destruct (r =? 0); simpl; [lia|].
    apply Z.leb_le in Hrq. rewrite Hrq. simpl. lia. }
  destruct (binary_round_aux_spec false q er l ltac:(lia))
    as (k & _ & _ & Hkeq & Hres).
  assert (Hdq : Zdigits2 q = 24).
  { destruct q as [|pq|pq]; try lia. simpl.
    apply digits2_pos_unique. simpl. lia. }
  rewrite Hdq in *.
  assert (Hn : fexp32 (24 + er) - er = 0) by (unfold fexp32; lia).
  rewrite Hn in *. specialize (Hkeq ltac:(lia)). subst k.
  set (k := round_nearest_even q l) in *.
  assert (Hdk : Zdigits2 k = 24).
  { destruct k as [|pk|pk]; try lia. simpl.
    apply digits2_pos_unique. simpl. lia. }
  rewrite Hdk in Hres. cbv zeta in Hres.
  replace (er + Z.max 0 0) with er in Hres by lia.
  rewrite Hn in Hres. simpl Z.max in Hres. rewrite Z.div_1_r in Hres.
  replace (er + 0) with er in Hres by lia.
  destruct k as [|mk|mk] eqn:Ek; try lia.
  replace (er + Z.max 0 0) with er in Hres by lia.
  assert (Hle : (er <=? 104) = true) by (apply Z.leb_le; lia).
  rewrite Hle in Hres.
  exists mk, er, s. rewrite Hres.
  repeat split; try lia.
  pose proof (round_nearest_even_loc q l) as Hkl. fold k in Hkl.
  rewrite Ek in Hkl. nia.
Qed.

Lemma digits2_pos_le (p : positive) (k : Z) :
  Zpos p < 2 ^ k -> Zpos (digits2_pos p) <= k.
Proof.
  intros H. pose proof (digits2_pos_bounds p) as [Hl _].
  destruct (Z_le_gt_dec (Zpos (digits2_pos p)) k) as [|Hgt]; [assumption|].
  assert (0 <= k).
  { destruct (Z_lt_le_dec k 0); [|assumption].
    rewrite Z.pow_neg_r in H by lia. lia. }
  assert (2 ^ k <= 2 ^ (Zpos (digits2_pos p) - 1)) by (apply pow2_le; lia).
  lia.
Qed.

Lemma digits2_pos_ge (p : positive) (k : Z) :
  2 ^ k <= Zpos p -> k < Zpos (digits2_pos p).
Proof.
  intros H. pose proof (digits2_pos_bounds p) as [_ Hh].
  destruct (Z_lt_le_dec k (Zpos (digits2_pos p))) as [|Hle]; [assumption|].
  assert (2 ^ Zpos (digits2_pos p) <= 2 ^ k) by (apply pow2_le; lia).
  lia.
Qed.

(** The square of a normal mantissa, rounded. *)
Lemma mul_sq_spec (mr : positive) (er : Z) :
  2 ^ 23 <= Zpos mr < 2 ^ 24 -> -98 <= er <= 40 ->
  exists k n,
    SFmul 24 128 (S754_finite false mr er) (S754_finite false mr er)
    = match k with
      | Zpos mk => S754_finite false mk (2 * er + n)
      | _ => S754_zero false
      end
    /\ 0 <= k < 2 ^ 24 /\ 23 <= n /\ -149 <= 2 * er + n <= 104
    /\ k * 2 ^ n <= Zpos mr * Zpos mr + 2 ^ (n - 1)
    /\ (25 <= n -> n = -149 - 2 * er).
Proof.
  intros Hmr Her. unfold SFmul. simpl xorb.
  set (P := Zpos (mr * mr)).
  assert (HP : P = Zpos mr * Zpos mr) by apply Pos2Z.inj_mul.
  assert (HPb : 2 ^ 46 <= P < 2 ^ 48).
  { change (2 ^ 46) with (2 ^ 23 * 2 ^ 23).
    change (2 ^ 48) with (2 ^ 24 * 2 ^ 24). nia. }
  destruct (binary_round_aux_spec false P (er + er) loc_Exact ltac:(lia))
    as (k & Hk & Hkn & _ & Hres).
  change (Zdigits2 P) with (Zpos (digits2_pos (mr * mr))) in *.
  pose proof (digits2_pos_le (mr * mr) 48 (proj2 HPb)) as Hd1.
  pose proof (digits2_pos_ge (mr * mr) 46 (proj1 HPb)) as Hd2.
  pose proof (digits2_pos_bounds (mr * mr)) as HdP. fold P in HdP.
  set (dP := Zpos (digits2_pos (mr * mr))) in *.
  set (n := fexp32 (dP + (er + er)) - (er + er)) in *.
  assert (Hn : n = Z.max (dP - 24) (-149 - 2 * er)) by (unfold n, fexp32; lia).
  assert (Hn23 : 23 <= n) by lia.
  rewrite Z.max_r in Hk, Hres by lia.
  specialize (Hkn ltac:(lia)).
  assert (Hpn : 0 < 2 ^ n) by (apply pow2_pos; lia).
  assert (Hk0 : 0 <= k).
  { pose proof (Z.div_pos P (2 ^ n) ltac:(lia) Hpn). lia. }
  assert (Hk24 : k < 2 ^ 24).
  { destruct (Z_le_gt_dec n (dP - 24)) as [Hnorm|Hsub].
    - assert (n = dP - 24) by lia.
      destruct (Z.eq_dec dP 48) as [E|E].
      + assert (n = 24) by lia. subst n.
        replace (fexp32 (dP + (er + er)) - (er + er)) with 24 in * by lia.
        change (2 ^ 24) with 16777216 in *.
        change (2 ^ (24 - 1)) with 8388608 in *. nia.
      + assert (dP = 47) by lia. assert (n = 23) by lia. subst n.
        replace (fexp32 (dP + (er + er)) - (er + er)) with 23 in * by lia.
        replace dP with 47 in HdP by lia.
        change (2 ^ 47) with 140737488355328 in *.
        change (2 ^ 23) with 8388608 in *.
        change (2 ^ (23 - 1)) with 4194304 in *.
        change (2 ^ 24) with 16777216 in *.
        assert (Zpos mr <= 11863283) by nia. nia.
    - assert (P / 2 ^ n < 2 ^ 23).
      { apply Z.div_lt_upper_bound; [lia|].
        rewrite <- pow2_add by lia.
        assert (2 ^ dP <= 2 ^ (n + 23)) by (apply pow2_le; lia). lia. }
      change (2 ^ 23) with 8388608 in *. change (2 ^ 24) with 16777216. lia. }
  exists k, n. cbv zeta in Hres. rewrite Hres.
  replace (er + er + n) with (2 * er + n) by lia.
  split.
  - destruct k as [|mk|mk]; try lia.
    + rewrite Z.div_0_l; [reflexivity|].
      apply Z.pow_nonzero; lia.
    + pose proof (digits2_pos_le mk 24 Hk24) as Hdk.
      change (Zdigits2 (Zpos mk)) with (Zpos (digits2_pos mk)).
      assert (Hn2 : fexp32 (Zpos (digits2_pos mk) + (2 * er + n))
                    - (2 * er + n) <= 0) by (unfold fexp32; lia).
      rewrite Z.max_l by lia. simpl (2 ^ 0). rewrite Z.div_1_r.
      replace (2 * er + n + 0) with (2 * er + n) by lia.
      assert (Hle : (2 * er + n <=? 104) = true) by (apply Z.leb_le; lia).
      now rewrite Hle.
  - repeat split; try lia.
Qed.

Lemma gt_999_finite (mq : positive) (eq : Z) :
  2 ^ 23 <= Zpos mq ->
  (-23 <= eq \/ (eq = -24 /\ 16777200 <= Zpos mq)) ->
  gt_999 (S754_finite false mq eq) = true.
Proof.
  intros Hm H. unfold gt_999. apply Z.ltb_lt.
  change (2 ^ 23) with 8388608 in Hm.
  destruct H as [H|[-> H]]; [|simpl; lia].
  destruct (Z_lt_le_dec 0 eq).
  - rewrite Z.pow_neg_r by lia. lia.
  - assert (2 ^ (- eq) <= 2 ^ 23) by (apply pow2_le; lia).
    change (2 ^ 23) with 8388608 in *. lia.
Qed.

(** Division by a number that is at most a little larger. *)
Lemma div_close (m k : positive) (e ep n s : Z) :
  1 <= Zpos (digits2_pos m) <= 24 -> Zpos k < 2 ^ 24 ->
  0 <= n -> 0 <= s -> e - ep = s - n ->
  2 ^ 20 * (Zpos k * 2 ^ n) <= (2 ^ 20 + 1) * (Zpos m * 2 ^ s) ->
  gt_999 (SFdiv 24 128 (S754_finite false m e) (S754_finite false k ep)) = true.
Proof.
  intros Hd1 Hk24 Hn Hs Hee Hrel.
  pose proof (digits2_pos_bounds m) as Hm.
  pose proof (digits2_pos_bounds k) as Hk.
  pose proof (digits2_pos_le k 24 Hk24) as Hd2.
  pose proof (Pos2Z.is_pos (digits2_pos k)) as Hd2pos.
  unfold SFdiv, SFdiv_core_binary. simpl xorb. rewrite fexp32_eq.
  change (Zdigits2 (Zpos m)) with (Zpos (digits2_pos m)).
  change (Zdigits2 (Zpos k)) with (Zpos (digits2_pos k)).
  set (d1 := Zpos (digits2_pos m)) in *.
  set (d2 := Zpos (digits2_pos k)) in *.
  set (D := d1 + e - (d2 + ep)).
  assert (HDdef : D = d1 - d2 + s - n) by (unfold D; lia).
  pose proof (pow2_pos n Hn) as Hpn. pose proof (pow2_pos s Hs) as Hps.
  change (2 ^ 20) with 1048576 in Hrel.
  assert (HD : -1 <= D).
  { destruct (Z_le_gt_dec (-1) D) as [|Hlt]; [assumption|exfalso].
    assert (H1 : 2 ^ (d1 + s + 1) <= 2 ^ (d2 - 1 + n)) by (apply pow2_le; lia).
    rewrite !pow2_add in H1 by lia. simpl (2 ^ 1) in H1.
    nia. }
  assert (He2 : Z.min (fexp32 D) (e - ep) = D - 24) by (unfold fexp32; lia).
  rewrite He2.
  set (sh := e - ep - (D - 24)).
  assert (Hsh : sh = 24 - d1 + d2) by (unfold sh; lia).
  destruct sh as [|psh|psh] eqn:Esh; try lia.
  rewrite <- Esh in *. clear Esh psh.
  rewrite Z.shiftl_mul_pow2 by lia.
  pose proof (pow2_pos sh ltac:(lia)) as Hpsh.
  pose proof (Z_div_mod (Zpos m * 2 ^ sh) (Zpos k) ltac:(lia)) as Hdiv.
  destruct (Z.div_eucl (Zpos m * 2 ^ sh) (Zpos k)) as [Q R].
  destruct Hdiv as [HQR HR].
  assert (Hlo : 2 ^ 23 * 2 ^ d2 <= Zpos m * 2 ^ sh).
  { rewrite <- pow2_add by lia.
    replace (23 + d2) with (d1 - 1 + sh) by lia.
    rewrite pow2_add by lia. nia. }
  assert (Hhi : Zpos m * 2 ^ sh < 2 ^ 25 * 2 ^ (d2 - 1)).
  { rewrite <- pow2_add by lia.
    replace (25 + (d2 - 1)) with (d1 + sh) by lia.
    rewrite pow2_add by lia. nia. }
  pose proof (pow2_pos d2 ltac:(lia)) as Hpd2.
  assert (HQ : 2 ^ 23 <= Q < 2 ^ 25).
  { change (2 ^ 23) with 8388608 in *. change (2 ^ 25) with 33554432 in *.
    split; nia. }
  assert (Hstar : D <= 0 -> 1048576 * 2 ^ (24 - D) < 1048577 * (Q + 1)) .
  { intros HD0. assert (Hsn : 2 ^ sh * 2 ^ n = 2 ^ (24 - D) * 2 ^ s).
    { rewrite <- !pow2_add by lia. f_equal. lia. }
    pose proof (pow2_pos (24 - D) ltac:(lia)) as HpD.
    assert (H1 : Zpos m * 2 ^ sh < Zpos k * (Q + 1)) by nia.
    assert (H2 : Zpos m * 2 ^ sh * 2 ^ n < Zpos k * 2 ^ n * (Q + 1)) by nia.
    assert (H3 : Zpos m * 2 ^ s * 2 ^ (24 - D) < Zpos k * 2 ^ n * (Q + 1)).
    { replace (Zpos m * 2 ^ s * 2 ^ (24 - D))
        with (Zpos m * 2 ^ sh * 2 ^ n); [assumption|].
      rewrite <- !Z.mul_assoc. f_equal. rewrite Hsn. lia. }
    assert (H4 : 0 < Zpos m * 2 ^ s) by nia.
    set (X := Zpos m * 2 ^ s) in *. set (Y := Zpos k * 2 ^ n) in *.
    assert (H5 : 1048576 * (X * 2 ^ (24 - D)) < 1048577 * X * (Q + 1)) by nia.
    nia. }
  destruct (binary_round_aux_spec false Q (D - 24)
              (new_location (Zpos k) R) ltac:(change (2 ^ 23) with 8388608 in HQ; lia))
    as (kq & Hkq & _ & _ & Hres).
  rewrite Hres. clear Hres.
  destruct Q as [|pQ|pQ]; try (change (2 ^ 23) with 8388608 in HQ; lia).
  change (Zdigits2 (Zpos pQ)) with (Zpos (digits2_pos pQ)) in *.
  pose proof (digits2_pos_le pQ 25 (proj2 HQ)) as HdQ1.
  pose proof (digits2_pos_ge pQ 23 (proj1 HQ)) as HdQ2.
  pose proof (digits2_pos_bounds pQ) as HdQ.
  set (dQ := Zpos (digits2_pos pQ)) in *.
  assert (Hnq : fexp32 (dQ + (D - 24)) - (D - 24) = dQ - 24)
    by (unfold fexp32; lia).
  rewrite Hnq in *. rewrite Z.max_r in * by lia.
  assert (Hkqb : 2 ^ 23 <= kq <= 2 ^ 24
                 /\ (dQ = 24 -> Zpos pQ <= kq)
                 /\ (dQ = 25 -> Zpos pQ <= 2 * kq + 1)).
  { destruct (Z.eq_dec dQ 24) as [E|E].
    - rewrite E in *. change (2 ^ (24 - 24)) with 1 in Hkq. rewrite Z.div_1_r in Hkq.
      change (2 ^ (24 - 1)) with (2 ^ 23) in HdQ. lia.
    - assert (E' : dQ = 25) by lia. rewrite E' in *.
      change (2 ^ (25 - 24)) with 2 in Hkq.
      change (2 ^ (25 - 1)) with 16777216 in HdQ.
      change (2 ^ 25) with 33554432 in *. change (2 ^ 23) with 8388608.
      change (2 ^ 24) with 16777216.
      pose proof (Z.div_mod (Zpos pQ) 2 ltac:(lia)) as Hdm.
      pose proof (Z.mod_pos_bound (Zpos pQ) 2 ltac:(lia)).
      lia. }
  destruct Hkqb as (Hkqb & HkQ24 & HkQ25).
  destruct kq as [|pk|pk]; try (change (2 ^ 23) with 8388608 in Hkqb; lia).
  change (Zdigits2 (Zpos pk)) with (Zpos (digits2_pos pk)).
  assert (Hdk1 : Zpos (digits2_pos pk) <= 25).
  { apply digits2_pos_le. change (2 ^ 24) with 16777216 in Hkqb.
    change (2 ^ 25) with 33554432. lia. }
  pose proof (digits2_pos_ge pk 23 (proj1 Hkqb)) as Hdk2.
  pose proof (digits2_pos_bounds pk) as Hdk.
  set (dk := Zpos (digits2_pos pk)) in *.
  cbv zeta.
  assert (Hn2 : fexp32 (dk + (D - 24 + (dQ - 24))) - (D - 24 + (dQ - 24))
                = dk - 24) by (unfold fexp32; lia).
  rewrite Hn2. rewrite Z.max_r by lia.
  set (eq := D - 24 + (dQ - 24) + (dk - 24)).
  assert (Hmq : 2 ^ 23 <= Zpos pk / 2 ^ (dk - 24)
                /\ (dk = 24 -> Zpos pk / 2 ^ (dk - 24) = Zpos pk)).
  { destruct (Z.eq_dec dk 24) as [E|E].
    - rewrite E. change (2 ^ (24 - 24)) with 1. rewrite Z.div_1_r. lia.
    - assert (E' : dk = 25) by lia. rewrite E' in *.
      change (2 ^ (25 - 24)) with 2. change (2 ^ (25 - 1)) with 16777216 in Hdk.
      change (2 ^ 23) with 8388608.
      pose proof (Z.div_mod (Zpos pk) 2 ltac:(lia)) as Hdm.
      pose proof (Z.mod_pos_bound (Zpos pk) 2 ltac:(lia)). lia. }
  destruct Hmq as [Hmq Hmq24].
  destruct (Zpos pk / 2 ^ (dk - 24)) as [|mq|mq] eqn:Emq;
    try (change (2 ^ 23) with 8388608 in Hmq; lia).
  destruct (eq <=? 104); [|reflexivity].
  apply gt_999_finite; [assumption|].
  destruct (Z_le_gt_dec (-23) eq) as [|Hlow]; [now left|right].
  assert (HD0 : D <= 0) by (unfold eq in Hlow; lia).
  specialize (Hstar HD0).
  change (2 ^ 23) with 8388608 in *. change (2 ^ 24) with 16777216 in *.
  change (2 ^ 25) with 33554432 in *.
  destruct (Z.eq_dec D 0) as [E0|E0].
  - rewrite E0 in Hstar. change (2 ^ (24 - 0)) with 16777216 in Hstar.
    assert (dQ = 24 /\ dk = 24) by (unfold eq in Hlow; lia).
    unfold eq. specialize (Hmq24 ltac:(lia)). lia.
  - assert (E1 : D = -1) by lia.
    rewrite E1 in Hstar. change (2 ^ (24 - -1)) with 33554432 in Hstar.
    assert (HQbig : 33554400 <= Zpos pQ) by lia.
    assert (dQ = 25).
    { destruct (Z.eq_dec dQ 25); [assumption|].
      assert (dQ = 24) by lia.
      replace dQ with 24 in HdQ by lia.
      change (2 ^ 24) with 16777216 in HdQ. lia. }
    assert (dk = 24) by (unfold eq in Hlow; lia).
    unfold eq. specialize (Hmq24 ltac:(lia)). lia.
Qed.

(** [s / (sqrt s * sqrt s) > 0.999] for every positive binary32 number. *)
Lemma self_quotient_gt_999 (m : positive) (e : Z) :
  bounded 24 128 m e = true ->
  let s := S754_finite false m e in
  let r := SFsqrt 24 128 s in
  gt_999 (SFdiv 24 128 s (SFmul 24 128 r r)) = true.
Proof.
  intros Hb s r. destruct (bounded_cases m e Hb) as (Hd & He & _).
  destruct (sqrt_spec m e Hd He)
    as (mr & er & sh & Hr & Hes & Hsh & Her & Hmr & HM & Hsq).
  unfold r, s. rewrite Hr.
  destruct (mul_sq_spec mr er Hmr Her)
    as (k & n & Hmul & Hk & Hn & Hep & Hkn & Hsub).
  rewrite Hmul. destruct k as [|mk|mk]; try lia; [reflexivity|].
  apply (div_close m mk e (2 * er + n) n sh); try lia.
  set (M := Zpos m * 2 ^ sh) in *.
  change (2 ^ 24) with 16777216 in *. change (2 ^ 23) with 8388608 in *.
  change (2 ^ 46) with 70368744177664 in *.
  change (2 ^ 20) with 1048576.
  assert (Hsq' : Zpos mr * Zpos mr < M + 33554432) by nia.
  destruct (Z_le_gt_dec n 26) as [Hsmall|Hbig].
  - assert (2 ^ (n - 1) <= 2 ^ 25) by (apply pow2_le; lia).
    change (2 ^ 25) with 33554432 in *. lia.
  - specialize (Hsub ltac:(lia)).
    assert (HMn : M = Zpos m * 2 ^ (sh - n) * 2 ^ n).
    { unfold M. rewrite <- Z.mul_assoc, <- pow2_add by lia.
      do 2 f_equal. lia. }
    set (V := Zpos m * 2 ^ (sh - n)) in *.
    assert (Hp2 : 2 ^ n = 4 * 2 ^ (n - 2)).
    { change 4 with (2 ^ 2). rewrite <- pow2_add by lia. f_equal. lia. }
    assert (Hp1 : 2 ^ (n - 1) = 2 * 2 ^ (n - 2)).
    { change 2 with (2 ^ 1) at 2. rewrite <- pow2_add by lia. f_equal. lia. }
    assert (Hp25 : 2 ^ 25 <= 2 ^ (n - 2)) by (apply pow2_le; lia).
    change (2 ^ 25) with 33554432 in *.
    assert (Zpos mk <= V) by nia.
    pose proof (pow2_pos n ltac:(lia)). nia.
Qed.

(** ** Validity of results *)

Lemma fexp32_mono (a b : Z) : a <= b -> fexp32 a <= fexp32 b.
Proof. unfold fexp32; lia. Qed.

Lemma digits_div_pow2 (p : positive) (j : Z) (q : positive) :
  0 <= j -> Zpos p / 2 ^ j = Zpos q ->
  Zpos (digits2_pos q) = Zpos (digits2_pos p) - j.
Proof.
  intros Hj Hq. pose proof (digits2_pos_bounds p) as [Hl Hh].
  set (d := Zpos (digits2_pos p)) in *.
  pose proof (pow2_pos j Hj) as Hpj.
  assert (Hjd : j < d).
  { destruct (Z_lt_le_dec j d); [assumption|exfalso].
    assert (2 ^ d <= 2 ^ j) by (apply pow2_le; unfold d; lia).
    rewrite Z.div_small in Hq by lia. lia. }
  apply digits2_pos_unique. rewrite <- Hq. split.
  - apply Z.div_le_lower_bound; [lia|].
    rewrite <- pow2_add by lia.
    replace (j + (d - j - 1)) with (d - 1) by lia. lia.
  - apply Z.div_lt_upper_bound; [lia|].
    rewrite <- pow2_add by lia.
    replace (j + (d - j)) with d by lia. lia.
Qed.

(** With enough digits to round, [binary_round_aux] yields a valid
    number. *)
Lemma binary_round_aux_valid (sx : bool) (mx : positive) (ex : Z)
      (lx : location) :
  ex <= fexp32 (Zpos (digits2_pos mx) + ex) ->
  valid_binary 24 128 (binary_round_aux 24 128 sx (Zpos mx) ex lx) = true.
Proof.
  intros Hpre.
  destruct (binary_round_aux_spec sx (Zpos mx) ex lx ltac:(lia))
    as (k & Hk & _ & _ & Hres).
  rewrite Hres; clear Hres. cbv zeta.
  change (Zdigits2 (Zpos mx)) with (Zpos (digits2_pos mx)) in *.
  pose proof (digits2_pos_bounds mx) as Hmx.
  set (dx := Zpos (digits2_pos mx)) in *.
  set (n := fexp32 (dx + ex) - ex) in *.
  assert (Hn0 : 0 <= n) by (unfold n; lia).
  replace (Z.max 0 n) with n in * by lia.
  set (e1 := ex + n).
  assert (He1 : e1 = fexp32 (dx + ex)) by (unfold e1, n; lia).
  pose proof (pow2_pos n ltac:(lia)) as Hpn.
  assert (Hk0 : 0 <= k).
  { pose proof (Z.div_pos (Zpos mx) (2 ^ n) ltac:(lia) Hpn). lia. }
  destruct k as [|pk|pk]; try lia.
  { rewrite Z.div_0_l by (apply Z.pow_nonzero; lia). reflexivity. }
  change (Zdigits2 (Zpos pk)) with (Zpos (digits2_pos pk)).
  pose proof (digits2_pos_bounds pk) as Hpk.
  set (dk := Zpos (digits2_pos pk)) in *.
  assert (Hdk : dx - n <= dk).
  { destruct (Z_lt_le_dec n dx) as [Hlt|Hge]; [|unfold dk; lia].
    assert (Hlt' : dx - n - 1 < dk); [|lia].
    unfold dk. apply digits2_pos_ge.
    assert (2 ^ (dx - 1) = 2 ^ n * 2 ^ (dx - n - 1)).
    { rewrite <- pow2_add by lia. f_equal. lia. }
    assert (2 ^ (dx - n - 1) <= Zpos mx / 2 ^ n)
      by (apply Z.div_le_lower_bound; lia).
    lia. }
  set (n2 := fexp32 (dk + e1) - e1).
  destruct (Z_le_gt_dec n2 0) as [Hn2|Hn2].
  - rewrite Z.max_l by lia. simpl (2 ^ 0). rewrite Z.div_1_r.
    replace (e1 + 0) with e1 by lia.
    destruct (e1 <=? 104) eqn:Ele; [|reflexivity].
    unfold valid_binary, bounded, canonical_mantissa. rewrite fexp32_eq.
    fold dk. change (128 - 24) with 104. rewrite Ele, andb_true_r.
    apply Z.eqb_eq.
    assert (fexp32 (dx + ex) <= fexp32 (dk + e1))
      by (apply fexp32_mono; unfold e1; lia).
    unfold n2 in Hn2. lia.
  - rewrite Z.max_r by lia.
    destruct (Zpos pk / 2 ^ n2) as [|pm|pm] eqn:Em; try reflexivity.
    destruct (e1 + n2 <=? 104) eqn:Ele; [|reflexivity].
    unfold valid_binary, bounded, canonical_mantissa. rewrite fexp32_eq.
    change (128 - 24) with 104. rewrite Ele, andb_true_r. apply Z.eqb_eq.
    rewrite (digits_div_pow2 pk n2 pm ltac:(lia) Em). fold dk.
    replace (dk - n2 + (e1 + n2)) with (dk + e1) by lia.
    unfold n2. lia.
Qed.

Lemma valid_finite (s : bool) (m : positive) (e : Z) :
  valid_binary 24 128 (S754_finite s m e) = true ->
  Zpos (digits2_pos m) <= 24 /\ -149 <= e
  /\ (Zpos (digits2_pos m) < 24 -> e = -149).
Proof.
  simpl. intros H. destruct (bounded_cases m e H) as (H1 & H2 & H3). lia.
Qed.

Lemma SFmul_valid (x y : spec_float) :
  valid_binary 24 128 x = true -> valid_binary 24 128 y = true ->
  valid_binary 24 128 (SFmul 24 128 x y) = true.
Proof.
  intros Hx Hy.
  destruct x as [sx|sx| |sx mx ex], y as [sy|sy| |sy my ey]; try reflexivity.
  apply valid_finite in Hx as (Hdx & Hex & Hsx).
  apply valid_finite in Hy as (Hdy & Hey & Hsy).
  unfold SFmul. apply binary_round_aux_valid.
  pose proof (digits2_pos_bounds mx) as [Hx1 _].
  pose proof (digits2_pos_bounds my) as [Hy1 _].
  pose proof (Pos2Z.is_pos (digits2_pos mx)).
  pose proof (Pos2Z.is_pos (digits2_pos my)).
  assert (Hd : Zpos (digits2_pos mx) + Zpos (digits2_pos my) - 2
               < Zpos (digits2_pos (mx * my))).
  { apply digits2_pos_ge. rewrite Pos2Z.inj_mul.
    replace (Zpos (digits2_pos mx) + Zpos (digits2_pos my) - 2)
      with ((Zpos (digits2_pos mx) - 1) + (Zpos (digits2_pos my) - 1)) by lia.
    rewrite pow2_add by lia.
    apply Z.mul_le_mono_nonneg; try lia; apply Z.lt_le_incl, pow2_pos; lia. }
  unfold fexp32. lia.
Qed.

Lemma pos_iter_xO (p d : positive) :
  Zpos (Pos.iter xO p d) = Zpos p * 2 ^ Zpos d.
Proof.
  induction d as [|d IH] using Pos.peano_ind.
  - simpl. lia.
  - rewrite Pos.iter_succ, Pos2Z.inj_succ, Z.pow_succ_r by lia.
    rewrite Pos2Z.inj_xO, IH. lia.
Qed.

Lemma binary_round_valid (sx : bool) (mx : positive) (ex : Z) :
  valid_binary 24 128 (binary_round 24 128 sx mx ex) = true.
Proof.
  unfold binary_round, shl_align. rewrite fexp32_eq.
  destruct (fexp32 (Zpos (digits2_pos mx) + ex) - ex) as [|d|d] eqn:E;
    apply binary_round_aux_valid; try lia.
  assert (Hd : Zpos (digits2_pos (Pos.iter xO mx d))
               = Zpos (digits2_pos mx) + Zpos d).
  { apply digits2_pos_unique. rewrite pos_iter_xO.
    pose proof (digits2_pos_bounds mx) as [Hl Hh].
    pose proof (Pos2Z.is_pos (digits2_pos mx)).
    replace (Zpos (digits2_pos mx) + Zpos d - 1)
      with ((Zpos (digits2_pos mx) - 1) + Zpos d) by lia.
    rewrite !pow2_add by lia.
    pose proof (pow2_pos (Zpos d) ltac:(lia)). nia. }
  rewrite Hd.
  replace (Zpos (digits2_pos mx) + Zpos d
           + fexp32 (Zpos (digits2_pos mx) + ex))
    with (Zpos (digits2_pos mx) + ex) by lia.
  lia.
Qed.

Lemma binary_normalize_valid (m e : Z) (sz : bool) :
  valid_binary 24 128 (binary_normalize 24 128 m e sz) = true.
Proof.
  destruct m; [reflexivity| |]; apply binary_round_valid.
Qed.

Lemma SFadd_valid (x y : spec_float) :
  valid_binary 24 128 x = true -> valid_binary 24 128 y = true ->
  valid_binary 24 128 (SFadd 24 128 x y) = true.
Proof.
  intros Hx Hy.
  destruct x as [sx|sx| |sx mx ex], y as [sy|sy| |sy my ey];
    try destruct sx; try destruct sy; try reflexivity; try assumption.
  all: apply binary_normalize_valid.
Qed.

(** ** Vectors read back from the store *)

Lemma of_bits_valid (w : Z) : valid_binary 24 128 (F32.of_bits w) = true.
Proof.
  unfold F32.of_bits.
  replace (Z.land w 8388607) with (w mod 2 ^ 23)
    by (change 8388607 with (Z.ones 23); now rewrite Z.land_ones).
  replace (Z.land (Z.shiftr w 23) 255) with (Z.shiftr w 23 mod 2 ^ 8)
    by (change 255 with (Z.ones 8); now rewrite Z.land_ones).
  pose proof (Z.mod_pos_bound w (2 ^ 23) ltac:(lia)) as Hf.
  pose proof (Z.mod_pos_bound (Z.shiftr w 23) (2 ^ 8) ltac:(lia)) as He.
  set (frac := w mod 2 ^ 23) in *. set (ex := Z.shiftr w 23 mod 2 ^ 8) in *.
  change (2 ^ 23) with 8388608 in Hf. change (2 ^ 8) with 256 in He.
  destruct (Z.eqb_spec ex 0) as [E0|E0].
  - destruct frac as [|p|p] eqn:Ef; try reflexivity.
    unfold valid_binary, bounded, canonical_mantissa. rewrite fexp32_eq.
    pose proof (digits2_pos_le p 23 ltac:(change (2 ^ 23) with 8388608; lia)).
    pose proof (Pos2Z.is_pos (digits2_pos p)).
    apply andb_true_intro; split; [apply Z.eqb_eq; unfold fexp32; lia|].
    reflexivity.
  - destruct (Z.eqb_spec ex 255) as [E1|E1].
    + destruct (frac =? 0); reflexivity.
    + destruct (frac + 8388608) as [|p|p] eqn:Ef; try reflexivity.
      unfold valid_binary, bounded, canonical_mantissa. rewrite fexp32_eq.
      assert (Hd : Zpos (digits2_pos p) = 24).
      { apply digits2_pos_unique. change (2 ^ (24 - 1)) with 8388608.
        change (2 ^ 24) with 16777216. lia. }
      rewrite Hd.
      apply andb_true_intro; split;
        [apply Z.eqb_eq; unfold fexp32|apply Z.leb_le]; lia.
Qed.

Lemma val_valid (x : Np.float32) : valid_binary 24 128 (Np.val x) = true.
Proof. apply of_bits_valid. Qed.

Lemma sdot_valid (xy : list (Np.float32 * Np.float32)) :
  valid_binary 24 128 (Np.sdot xy) = true.
Proof.
  unfold Np.sdot.
  assert (H : forall acc, valid_binary 24 128 acc = true ->
                valid_binary 24 128
                  (fold_left (fun acc p =>
                                F32.add acc (F32.mul (Np.val (fst p))
                                                     (Np.val (snd p))))
                             xy acc) = true).
  { induction xy as [|p xy IH]; intros acc Hacc; cbn [fold_left];
      [assumption|].
    apply IH. apply SFadd_valid; [assumption|].
    apply SFmul_valid; apply val_valid. }
  now apply H.
Qed.

Lemma frombuffer_tobytes (a : Np.ndarray) : Np.frombuffer (Np.tobytes a) = Ok a.
Proof.
  induction a as [|[[[b0 b1] b2] b3] a IH]; [reflexivity|].
  change (Np.tobytes ((b0, b1, b2, b3) :: a))
    with (b0 :: b1 :: b2 :: b3 :: Np.tobytes a).
  cbn [Np.frombuffer]. now rewrite IH.
Qed.

Lemma sqrt_finite_nonzero (s : F32.t) :
  F32.is_finite (F32.sqrt s) && negb (F32.is_zero (F32.sqrt s)) = true ->
  exists m e, s = S754_finite false m e.
Proof.
  destruct s as [sx|[]| |[] m e]; try discriminate; eauto.
Qed.

(** The similarity of a vector with itself exceeds 0.999 whenever its norm
    is a finite nonzero binary32 number. *)
Lemma self_similarity_gt_999 (e : Np.ndarray) :
  F32.is_finite (Np.norm e) && negb (F32.is_zero (Np.norm e)) = true ->
  exists s,
    cosine_similarity e e = Ok s /\ gt_999 s = true.
Proof.
  intros Hnorm. rewrite cosine_similarity_total by reflexivity.
  eexists; split; [reflexivity|].
  unfold Np.norm in *.
  destruct (sqrt_finite_nonzero _ Hnorm) as (m & ex & Hs).
  pose proof (sdot_valid (combine e e)) as Hv.
  rewrite Hs in *. apply (self_quotient_gt_999 m ex Hv).
Qed.

(** ** Round trip of a text (C6) *)

Lemma load_metadata_total (metadata : json) :
  json_wf metadata = true ->
  load_metadata (metadata_column metadata)
  = Ok (if truthy metadata then metadata else JNull).
Proof.
  intros Hwf. destruct (truthy metadata) eqn:Ht.
  - now apply load_metadata_column.
  - unfold metadata_column. now rewrite Ht.
Qed.

Lemma top_results_single (h : hit) (n : Z) :
  1 <= n -> top_results [h] n = Ok [h].
Proof.
  intros Hn. unfold top_results.
  change (Np.reversed (Np.argsort (map hit_similarity [h]))) with [0%nat].
  unfold Np.slice_to. destruct (Z.ltb_spec n 0) as [|_]; [lia|].
  rewrite firstn_all2 by (simpl; lia). reflexivity.
Qed.

Lemma select_documents_app (db : database) (cid : Z) (row : document_row)
      (rows : list document_row) :
  documents db = rows ++ [row] -> doc_collection_id row = cid ->
  filter (fun d => doc_collection_id d =? cid) rows = [] ->
  select_documents db cid = [row].
Proof.
  intros Hd Hc Hf. unfold select_documents.
  rewrite Hd, filter_app, Hf. simpl. now rewrite Hc, Z.eqb_refl.
Qed.

(** C6 (counterexample). An encoding with the single large component
    [2^64] has squared norm [2^128], which overflows binary32: its norm is
    infinite (hence nonzero), and the similarity of the written document
    with the same text is NaN, which is not greater than 0.999. *)
Lemma C6_overflow_counterexample :
  let db' := snd (write Sample.tool "c" "huge" JNull Sqlite.empty) in
  Np.norm [Sample.two_pow_64; Sample.zero] = S754_infinity false
  /\ F32.is_zero (Np.norm [Sample.two_pow_64; Sample.zero]) = false
  /\ query Sample.tool "c" "huge" 5 db'
     = (Results [{| hit_id := 1; hit_text := "huge"; hit_metadata := JNull;
                    hit_similarity := S754_nan |}], db')
  /\ gt_999 S754_nan = false.
Proof. repeat split; vm_compute; reflexivity. Qed.

(** C6 (amended). For every text whose encoding has a finite nonzero
    binary32 norm: after a successful write of the text to a collection that
    was unknown or empty, a query of that collection with the same text (and
    at least one requested result) returns exactly the written document, and
    its similarity is greater than 0.999. *)
Theorem C6_round_trip_top_result
        (self : VectorDB.t) (collection text : string) (metadata : json)
        (db : database) (embedding : Np.ndarray) (n : Z) :
  wfb db = true -> json_wf metadata = true ->
  model self text = Ok embedding -> io self = no_faults ->
  (forall cid, select_collection_id db collection = Some cid ->
               select_documents db cid = []) ->
  F32.is_finite (Np.norm embedding)
  && negb (F32.is_zero (Np.norm embedding)) = true ->
  1 <= n ->
  exists msg id db' h,
    write self collection text metadata db = (Written msg id, db')
    /\ query self collection text n db' = (Results [h], db')
    /\ hit_id h = id /\ hit_text h = text
    /\ gt_999 (hit_similarity h) = true.
Proof.
  intros Hwf Hmd Henc Hio Hfresh Hnorm Hn.
  destruct (self_similarity_gt_999 embedding Hnorm) as (s & Hcos & Hs).
  pose proof (write_no_faults self collection text metadata db embedding
                              Henc Hio) as Hw.
  set (cid := match select_collection_id db collection with
              | Some id => id
              | None => new_collection_id db
              end).
  set (dbm := match select_collection_id db collection with
              | Some id => db
              | None => add_collection db collection
              end).
  assert (Hw' : write self collection text metadata db
                = (Written (written_message (new_document_id dbm) collection)
                           (new_document_id dbm),
                   add_document dbm cid text metadata embedding)).
  { rewrite Hw. unfold cid, dbm.
    now destruct (select_collection_id db collection). }
  set (db' := add_document dbm cid text metadata embedding) in *.
  set (row := written_row dbm cid text metadata embedding).
  assert (Hsel : select_collection_id db' collection = Some cid).
  { unfold db', cid, dbm.
    destruct (select_collection_id db collection) as [id|] eqn:E.
    - exact E.
    - exact (select_after_add db collection E). }
  assert (Hrows : select_documents db' cid = [row]).
  { apply (select_documents_app db' cid row (documents dbm));
      [reflexivity|reflexivity|].
    unfold cid, dbm.
    destruct (select_collection_id db collection) as [id|] eqn:E.
    - exact (Hfresh id eq_refl).
    - exact (new_collection_empty db collection Hwf). }
  set (h := {| hit_id := new_document_id dbm; hit_text := text;
               hit_metadata := if truthy metadata then metadata else JNull;
               hit_similarity := s |}).
  assert (Hscore : score_row embedding row = Ok h).
  { unfold score_row, row, written_row; cbn [doc_embedding doc_metadata
                                               doc_id doc_text].
    rewrite frombuffer_tobytes. cbn [rbind]. rewrite Hcos. cbn [rbind].
    rewrite (load_metadata_total metadata Hmd). reflexivity. }
  exists (written_message (new_document_id dbm) collection),
    (new_document_id dbm), db', h.
  split; [exact Hw'|]. split; [|repeat split; exact Hs].
  apply (query_no_faults self collection text n db' embedding cid [h] [h]);
    auto.
  - rewrite Hrows. cbn [traverse]. now rewrite Hscore.
  - now apply top_results_single.
Qed.

Lemma C6_round_trip_top_result_witness :
  exists msg id db' h,
    write Sample.tool "c" "a" JNull Sqlite.empty = (Written msg id, db')
    /\ query Sample.tool "c" "a" 5 db' = (Results [h], db')
    /\ hit_id h = id /\ hit_text h = "a"%string
    /\ gt_999 (hit_similarity h) = true.
Proof.
  apply (C6_round_trip_top_result Sample.tool "c" "a" JNull Sqlite.empty
                                  [Sample.one; Sample.zero] 5).
  - reflexivity.
  - reflexivity.
  - reflexivity.
  - reflexivity.
  - intros cid H. discriminate H.
  - vm_compute. reflexivity.
  - lia.
Defined.

(** * Further properties of the tool *)

(** ** What [write] does to the store *)

(** Every call of [write], successful or not and whatever the storage layer
    does, leaves a well-formed store well-formed: rowids keep growing along
    both tables, collection names stay unique, and every document refers to a
    collection of the registry. *)
Theorem write_keeps_store_well_formed
        (self : VectorDB.t) (collection text : string) (metadata : json)
        (db : database) (r : envelope) (db' : database) :
  wfb db = true ->
  write self collection text metadata db = (r, db') ->
  wfb db' = true.
Proof.
  intros Hwf Hw.
  pose proof (write_preserves_wfb self collection text metadata db Hwf) as H.
  now rewrite Hw in H.
Qed.

Lemma write_keeps_store_well_formed_witness :
  wfb Sample.twice_a = true
  /\ wfb (snd (write Sample.failing_insert "fresh" "b" JNull Sample.twice_a))
     = true.
Proof.
  split; [reflexivity|].
  apply (write_keeps_store_well_formed
           Sample.failing_insert "fresh" "b" JNull Sample.twice_a
           (fst (write Sample.failing_insert "fresh" "b" JNull Sample.twice_a))
           (snd (write Sample.failing_insert "fresh" "b" JNull Sample.twice_a))).
  - reflexivity.
  - vm_compute; reflexivity.
Defined.

(** [query] has no side effect on the store: whatever it returns (results,
    the not-found envelope, or the envelope of a caught exception), the
    committed content is what it was; and so for the [query] action of the
    command line, whatever its arguments. *)
Theorem query_leaves_store_unchanged
        (self : VectorDB.t) (collection q : string) (n_results : Z)
        (db : database) :
  snd (query self collection q n_results db) = db
  /\ (forall args : namespace,
         ns_action args = ActQuery -> snd (main self args db) = db).
Proof.
  split; [apply query_read_only|].
  intros args Hact. unfold main. rewrite Hact.
  destruct (falsy (ns_query args)); [reflexivity|].
  pose proof (query_read_only
                self (ns_collection args)
                (match ns_query args with Some s => s | None => EmptyString end)
                (ns_n_results args) db) as H.
  now destruct (query _ _ _ _ db).
Qed.

(** [write] only appends.  Whatever its outcome, the rows that were in the
    store are still there, unchanged and in place; at most one collection row
    is added, and only for a name that was unknown; a success envelope comes
    with exactly one new document row, which carries the reported id and the
    text and is filed under the id of the named collection, and an error
    envelope with none. *)
Theorem write_only_appends
        (self : VectorDB.t) (collection text : string) (metadata : json)
        (db : database) (r : envelope) (db' : database) :
  write self collection text metadata db = (r, db') ->
  exists cs ds,
    collections db' = collections db ++ cs
    /\ documents db' = documents db ++ ds
    /\ (cs = []
        \/ select_collection_id db collection = None
           /\ cs = [{| collection_id := new_collection_id db;
                       collection_name := collection |}])
    /\ match r with
       | Written _ id =>
           exists row,
             ds = [row] /\ doc_id row = id /\ doc_text row = text
             /\ select_collection_id db' collection
                = Some (doc_collection_id row)
       | _ => ds = []
       end.
Proof.
  intros Hw.
  pose proof (write_cases self collection text metadata db) as H.
  rewrite Hw in H; cbn [fst snd] in H.
  inversion H as [msg| msg Hsel | embedding cid dbm Henc Hreg]; subst.
  - exists [], []. rewrite !app_nil_r. auto.
  - exists [{| collection_id := new_collection_id db;
               collection_name := collection |}], [].
    split; [reflexivity|]. split; [now rewrite app_nil_r|].
    split; [|reflexivity]. right; split; [assumption|reflexivity].
  - destruct Hreg as [[Hsel ->]|(Hsel & -> & ->)].
    + exists [], [written_row db cid text metadata embedding].
      rewrite app_nil_r. repeat split; auto.
      eexists; repeat split. exact Hsel.
    + exists [{| collection_id := new_collection_id db;
                 collection_name := collection |}],
        [written_row (add_collection db collection)
                     (new_collection_id db) text metadata embedding].
      split; [reflexivity|]. split; [reflexivity|].
      split; [right; split; [assumption|reflexivity]|].
      eexists; repeat split. exact (select_after_add db collection Hsel).
Qed.

Lemma write_only_appends_witness :
  exists cs ds,
    collections (snd (write Sample.tool "d" "b" JNull Sample.twice_a))
    = collections Sample.twice_a ++ cs
    /\ documents (snd (write Sample.tool "d" "b" JNull Sample.twice_a))
       = documents Sample.twice_a ++ ds
    /\ (cs = []
        \/ select_collection_id Sample.twice_a "d" = None
           /\ cs = [{| collection_id := new_collection_id Sample.twice_a;
                       collection_name := "d" |}])
    /\ exists row,
        ds = [row] /\ doc_id row = 3 /\ doc_text row = "b"%string
        /\ select_collection_id
             (snd (write Sample.tool "d" "b" JNull Sample.twice_a)) "d"
           = Some (doc_collection_id row).
Proof.
  apply (write_only_appends
           Sample.tool "d" "b" JNull Sample.twice_a
           (Written "Successfully wrote document 3 to collection 'd'" 3)
           (snd (write Sample.tool "d" "b" JNull Sample.twice_a))).
  vm_compute; reflexivity.
Defined.

(** ** Document ids *)





(** ** The registry *)

(** [_get_or_create_collection] is idempotent when the storage layer works:
    the call returns an id under which the name is then registered, a second
    call returns the same id and changes nothing, and a name that was
    already registered keeps its id and leaves the store as it was. *)
Theorem get_or_create_is_idempotent
        (self : VectorDB.t) (collection_name : string) (db : database) :
  io self GetOrCreate_connect = None -> io self GetOrCreate_select = None ->
  io self GetOrCreate_insert = None -> io self GetOrCreate_commit = None ->
  exists id db',
    _get_or_create_collection self collection_name db = (Ok id, db')
    /\ select_collection_id db' collection_name = Some id
    /\ _get_or_create_collection self collection_name db' = (Ok id, db')
    /\ (forall id0, select_collection_id db collection_name = Some id0 ->
                    id = id0 /\ db' = db).
Proof.
  intros H1 H2 H3 H4.
  rewrite (get_or_create_no_faults self collection_name db H1 H2 H3 H4).
  destruct (select_collection_id db collection_name) as [id|] eqn:Hsel.
  - exists id, db. split; [reflexivity|]. split; [assumption|].
    split; [|intros id0 [= <-]; auto].
    now rewrite (get_or_create_no_faults self collection_name db H1 H2 H3 H4),
      Hsel.
  - exists (new_collection_id db), (add_collection db collection_name).
    pose proof (select_after_add db collection_name Hsel) as Hsel'.
    split; [reflexivity|]. split; [assumption|]. split; [|discriminate].
    now rewrite (get_or_create_no_faults self collection_name _ H1 H2 H3 H4),
      Hsel'.
Qed.

Lemma get_or_create_is_idempotent_witness :
  exists id db',
    _get_or_create_collection Sample.tool "newcol" Sample.twice_a = (Ok id, db')
    /\ select_collection_id db' "newcol" = Some id
    /\ _get_or_create_collection Sample.tool "newcol" db' = (Ok id, db')
    /\ (forall id0, select_collection_id Sample.twice_a "newcol" = Some id0 ->
                    id = id0 /\ db' = Sample.twice_a).
Proof.
  apply (get_or_create_is_idempotent Sample.tool "newcol" Sample.twice_a);
    reflexivity.
Defined.

(** ** How many results a query returns *)

Lemma slice_to_length {A} (a : list A) (n : Z) :
  Z.of_nat (List.length (Np.slice_to a n))
  = if n <? 0 then Z.max 0 (Z.of_nat (List.length a) + n)
    else Z.min n (Z.of_nat (List.length a)).
Proof.
  unfold Np.slice_to. destruct (Z.ltb_spec n 0); rewrite length_firstn; lia.
Qed.

(** The number of results of a successful query on a collection of [k]
    documents: [min(n_results, k)] for [n_results >= 0] (none for 0, all of
    them from [k] on), and [max(0, k + n_results)] for a negative
    [n_results], which is how the slice [[:n_results]] counts. *)
Theorem query_result_count
        (self : VectorDB.t) (collection q : string) (n_results : Z)
        (db db' : database) (rs : list hit) (cid : Z) :
  query self collection q n_results db = (Results rs, db') ->
  select_collection_id db collection = Some cid ->
  let k := Z.of_nat (List.length (select_documents db cid)) in
  Z.of_nat (List.length rs)
  = if n_results <? 0 then Z.max 0 (k + n_results) else Z.min n_results k.
Proof.
  intros Hq Hsel k.
  destruct (query_results_inv _ _ _ _ _ _ _ Hq)
    as (qe & cid' & docs & _ & Hsel' & Hdocs & Htop).
  assert (cid' = cid) by congruence; subst cid'.
  rewrite (top_results_length _ _ _ Htop). unfold sorted_indices.
  rewrite slice_to_length, ranking_length, length_map.
  now rewrite (traverse_length _ _ _ Hdocs).
Qed.

Lemma query_result_count_witness :
  Z.of_nat (List.length
              [{| hit_id := 2; hit_text := "a"; hit_metadata := JNull;
                  hit_similarity := S754_finite false 8388608 (-23) |}])
  = if -1 <? 0
    then Z.max 0 (Z.of_nat (List.length (select_documents Sample.twice_a 1))
                  + -1)
    else Z.min (-1) (Z.of_nat (List.length (select_documents Sample.twice_a 1))).
Proof.
  apply (query_result_count Sample.tool "c" "a" (-1) Sample.twice_a
                            Sample.twice_a _ 1).
  - vm_compute; reflexivity.
  - reflexivity.
Defined.

(** ** Where the results come from *)

Lemma NoDup_map_nth_error {A B} (f : A -> B) (l : list A) (i j : nat) (a b : A) :
  NoDup (map f l) -> nth_error l i = Some a -> nth_error l j = Some b ->
  f a = f b -> i = j.
Proof.
  intros Hnd Hi Hj Hf.
  assert (Hi' : nth_error (map f l) i = Some (f a))
    by (rewrite nth_error_map, Hi; reflexivity).
  assert (Hj' : nth_error (map f l) j = Some (f b))
    by (rewrite nth_error_map, Hj; reflexivity).
  rewrite NoDup_nth_error in Hnd. apply Hnd.
  - apply nth_error_Some. rewrite Hi'; discriminate.
  - rewrite Hi', Hj'. now f_equal.
Qed.

Lemma picked_NoDup {A B} (f : A -> B) (l : list A) (idxs : list nat)
      (bs : list A) :
  Forall2 (fun i b => nth_error l i = Some b) idxs bs ->
  NoDup idxs -> NoDup (map f l) -> NoDup (map f bs).
Proof.
  intros H Hidx Hl; induction H as [|i b idxs bs Hib H IH]; simpl;
    [constructor|].
  inversion Hidx as [|? ? Hnin Hidx']; subst.
  constructor; [|now apply IH].
  intros Hin. apply in_map_iff in Hin as (b' & Hf & Hb').
  apply In_nth_error in Hb' as [j Hj].
  destruct (Forall2_nth_error_r _ _ _ _ _ H Hj) as (i' & Hi' & Hib').
  assert (i = i') by (eapply (NoDup_map_nth_error f); eauto).
  subst i'. apply Hnin. eapply nth_error_In; eauto.
Qed.

Lemma NoDup_firstn {A} (l : list A) (n : nat) : NoDup l -> NoDup (firstn n l).
Proof.
  intros H; revert n; induction H as [|a l Ha H IH]; intros [|n]; simpl;
    try constructor; auto.
  intros Hin; apply Ha. eapply firstn_incl; eauto.
Qed.

Lemma sorted_indices_NoDup (documents : list hit) (n : Z) :
  NoDup (sorted_indices documents n).
Proof.
  unfold sorted_indices.
  destruct (slice_to_firstn (ranking (map hit_similarity documents)) n)
    as [k ->].
  apply NoDup_firstn, ranking_NoDup.
Qed.

Lemma StronglySorted_lt_NoDup {A} (f : A -> Z) (l : list A) :
  StronglySorted (fun a b => f a < f b) l -> NoDup (map f l).
Proof.
  induction 1 as [|a l Hs IH Ha]; simpl; constructor; [|assumption].
  intros Hin. apply in_map_iff in Hin as (b & Hf & Hb).
  rewrite Forall_forall in Ha. specialize (Ha b Hb). lia.
Qed.

Lemma scored_ids (qe : Np.ndarray) (rows : list document_row)
      (docs : list hit) :
  traverse (score_row qe) rows = Ok docs -> map hit_id docs = map doc_id rows.
Proof.
  intros H. apply traverse_Forall2 in H.
  induction H as [|row h rows docs Hs H IH]; simpl; [reflexivity|].
  apply score_row_inv in Hs as (-> & _). now rewrite IH.
Qed.

(** A successful query returns rows of the collection it was asked about,
    each at most once: every result carries the id and the text of a stored
    document of that collection, and no id occurs twice in the result
    list. *)
Theorem query_results_are_rows_of_the_collection
        (self : VectorDB.t) (collection q : string) (n_results : Z)
        (db db' : database) (rs : list hit) (cid : Z) :
  wfb db = true ->
  query self collection q n_results db = (Results rs, db') ->
  select_collection_id db collection = Some cid ->
  NoDup (map hit_id rs)
  /\ (forall h, In h rs ->
                exists row,
                  In row (documents db) /\ doc_collection_id row = cid
                  /\ doc_id row = hit_id h /\ doc_text row = hit_text h).
Proof.
  intros Hwf Hq Hsel. split.
  - destruct (query_results_inv _ _ _ _ _ _ _ Hq)
      as (qe & cid' & docs & _ & Hsel' & Hdocs & Htop).
    apply (picked_NoDup hit_id docs (sorted_indices docs n_results)).
    + now apply top_results_spec.
    + apply sorted_indices_NoDup.
    + rewrite (scored_ids _ _ _ Hdocs).
      apply StronglySorted_lt_NoDup, select_documents_sorted, Hwf.
  - intros h Hin.
    destruct (query_hit_row _ _ _ _ _ _ _ _ Hq Hin)
      as (qe & cid' & row & _ & Hsel' & Hrow & Hscore).
    assert (cid' = cid) by congruence; subst cid'.
    apply select_documents_in in Hrow as [Hrow Hc].
    apply score_row_inv in Hscore as (Hid & Htext & _).
    exists row. auto.
Qed.

Lemma query_results_are_rows_of_the_collection_witness :
  let rs := [{| hit_id := 2; hit_text := "a"; hit_metadata := JNull;
                hit_similarity := S754_finite false 8388608 (-23) |};
             {| hit_id := 1; hit_text := "a"; hit_metadata := JNull;
                hit_similarity := S754_finite false 8388608 (-23) |}] in
  NoDup (map hit_id rs)
  /\ (forall h, In h rs ->
                exists row,
                  In row (documents Sample.twice_a)
                  /\ doc_collection_id row = 1
                  /\ doc_id row = hit_id h /\ doc_text row = hit_text h).
Proof.
  intros rs.
  apply (query_results_are_rows_of_the_collection
           Sample.tool "c" "a" 5 Sample.twice_a Sample.twice_a rs 1).
  - reflexivity.
  - vm_compute; reflexivity.
  - reflexivity.
Defined.

(** ** Collections are independent *)

Lemma query_depends_on_selects (self : VectorDB.t) (collection q : string)
      (n_results : Z) (db1 db2 : database) :
  select_collection_id db1 collection = select_collection_id db2 collection ->
  (forall cid, select_collection_id db1 collection = Some cid ->
               select_documents db1 cid = select_documents db2 cid) ->
  fst (query self collection q n_results db1)
  = fst (query self collection q n_results db2).
Proof.
  intros Hsel Hdocs. rewrite !query_unfold; cbv zeta. rewrite <- Hsel.
  destruct (model self q) as [qe|e]; [|reflexivity].
  destruct (io self Query_connect); [reflexivity|].
  destruct (io self Query_select_collection); [reflexivity|].
  destruct (select_collection_id db1 collection) as [cid|] eqn:E;
    [|reflexivity].
  destruct (io self Query_select_documents); [reflexivity|].
  rewrite <- (Hdocs cid eq_refl).
  destruct (traverse (score_row qe) (select_documents db1 cid));
    [|reflexivity].
  now destruct (top_results a n_results).
Qed.

Lemma find_app_some {A} (f : A -> bool) (l l' : list A) (a : A) :
  find f l = Some a -> find f (l ++ l') = Some a.
Proof.
  induction l as [|x l IH]; simpl; [discriminate|].
  destruct (f x); [trivial|exact IH].
Qed.

Lemma select_add_other (db : database) (name other : string) :
  name <> other ->
  select_collection_id (add_collection db name) other
  = select_collection_id db other.
Proof.
  intros Hne. unfold select_collection_id, add_collection; cbn [collections].
  destruct (find (name_is other) (collections db)) as [c|] eqn:E.
  - now rewrite (find_app_some _ _ _ _ E).
  - rewrite (find_app_none _ _ _ E). simpl. unfold name_is; simpl.
    apply String.eqb_neq in Hne. now rewrite Hne.
Qed.

Lemma select_some_row (db : database) (name : string) (cid : Z) :
  select_collection_id db name = Some cid ->
  exists c, In c (collections db) /\ collection_id c = cid
            /\ collection_name c = name.
Proof.
  unfold select_collection_id.
  destruct (find (name_is name) (collections db)) as [c|] eqn:E;
    [|discriminate].
  intros [= <-]. apply find_some in E as [Hin Hname].
  exists c. repeat split; auto. now apply String.eqb_eq.
Qed.

Lemma select_ids_differ (db : database) (name other : string) (cid cid' : Z) :
  wfb db = true -> name <> other ->
  select_collection_id db name = Some cid ->
  select_collection_id db other = Some cid' -> cid <> cid'.
Proof.
  intros Hwf Hne H1 H2 Heq.
  apply select_some_row in H1 as (c1 & Hin1 & Hid1 & Hn1).
  apply select_some_row in H2 as (c2 & Hin2 & Hid2 & Hn2).
  apply wfb_parts in Hwf as (Hinc & _).
  apply increasing_NoDup in Hinc.
  apply In_nth_error in Hin1 as [i Hi]. apply In_nth_error in Hin2 as [j Hj].
  assert (i = j)
    by (eapply (NoDup_map_nth_error collection_id); eauto; congruence).
  subst j. congruence.
Qed.

Lemma select_id_below_new (db : database) (name : string) (cid : Z) :
  select_collection_id db name = Some cid -> cid < new_collection_id db.
Proof.
  intros H. apply select_some_row in H as (c & Hin & <- & _).
  apply next_rowid_fresh. now apply in_map.
Qed.

Lemma select_documents_add_other (dbm : database) (cid cid' : Z)
      (text : string) (metadata : json) (embedding : Np.ndarray) :
  cid <> cid' ->
  select_documents (add_document dbm cid text metadata embedding) cid'
  = select_documents dbm cid'.
Proof.
  intros Hne. unfold select_documents, add_document, insert_document.
  cbn [fst documents]. rewrite filter_app. cbn [filter doc_collection_id].
  apply Z.eqb_neq in Hne. rewrite Hne. apply app_nil_r.
Qed.

(** Collections do not interfere: a [write] to one collection, whatever its
    outcome, changes the answer of no query on another collection. *)
Theorem write_does_not_affect_other_collections
        (self reader : VectorDB.t) (collection text other q : string)
        (metadata : json) (n_results : Z) (db : database)
        (r : envelope) (db' : database) :
  wfb db = true -> collection <> other ->
  write self collection text metadata db = (r, db') ->
  fst (query reader other q n_results db')
  = fst (query reader other q n_results db).
Proof.
  intros Hwf Hne Hw.
  pose proof (write_cases self collection text metadata db) as H.
  rewrite Hw in H; cbn [fst snd] in H.
  inversion H as [msg| msg Hnone | embedding cid dbm Henc Hreg]; subst.
  - reflexivity.
  - apply query_depends_on_selects; [now apply select_add_other|reflexivity].
  - assert (Hsel : select_collection_id dbm other
                   = select_collection_id db other).
    { destruct Hreg as [[_ ->]|(_ & -> & _)];
        [reflexivity|now apply select_add_other]. }
    apply query_depends_on_selects.
    + exact Hsel.
    + intros cid' Hcid'. cbn [add_document] in Hcid'.
      change (select_collection_id (add_document dbm cid text metadata embedding)
                                   other)
        with (select_collection_id dbm other) in Hcid'.
      rewrite Hsel in Hcid'.
      rewrite select_documents_add_other.
      * destruct Hreg as [[_ ->]|(_ & -> & _)]; reflexivity.
      * destruct Hreg as [[Hc ->]|(_ & _ & ->)].
        -- eapply select_ids_differ; eauto.
        -- apply select_id_below_new in Hcid'. lia.
Qed.

Lemma write_does_not_affect_other_collections_witness :
  fst (query Sample.tool "c" "a" 5
             (snd (write Sample.tool "d" "b" JNull Sample.twice_a)))
  = fst (query Sample.tool "c" "a" 5 Sample.twice_a).
Proof.
  apply (write_does_not_affect_other_collections
           Sample.tool Sample.tool "d" "b" "c" "a" JNull 5 Sample.twice_a
           (fst (write Sample.tool "d" "b" JNull Sample.twice_a))
           (snd (write Sample.tool "d" "b" JNull Sample.twice_a))).
  - reflexivity.
  - discriminate.
  - vm_compute; reflexivity.
Defined.

(** ** A written document can be found again *)

(** After a successful [write], every successful query of the same
    collection that asks for at least as many results as the store holds
    documents returns the written document, with the id [write] reported and
    with its text. *)
Theorem written_document_is_found
        (self reader : VectorDB.t) (collection text q : string)
        (metadata : json) (db db' db'' : database) (msg : string)
        (id n_results : Z) (rs : list hit) :
  write self collection text metadata db = (Written msg id, db') ->
  query reader collection q n_results db' = (Results rs, db'') ->
  Z.of_nat (List.length (documents db')) <= n_results ->
  exists h, In h rs /\ hit_id h = id /\ hit_text h = text.
Proof.
  intros Hw Hq Hn.
  destruct (write_success_inv _ _ _ _ _ _ _ _ Hw)
    as (embedding & cid & _ & Hid & Hsel & Hdocs & _).
  assert (Hrow : In (written_row db cid text metadata embedding)
                    (select_documents db' cid)).
  { apply select_documents_in. split; [|reflexivity].
    rewrite Hdocs. apply in_or_app; right; now left. }
  assert (Hlen : Z.of_nat (List.length (select_documents db' cid))
                 <= n_results).
  { pose proof (filter_length_le
                  (fun d => doc_collection_id d =? cid) (documents db')).
    unfold select_documents. lia. }
  pose proof (query_top_k_all _ _ _ _ _ _ _ _ Hsel Hlen Hq) as Hperm.
  assert (Hin : In id (map hit_id rs)).
  { apply (Permutation_in _ (Permutation_sym Hperm)).
    rewrite Hid.
    exact (in_map doc_id _ _ Hrow). }
  apply in_map_iff in Hin as (h & Hh & Hin).
  exists h. split; [assumption|]. split; [assumption|].
  destruct (query_written_row _ _ _ _ _ _ _ _ _ _ _ _ _ _ _ Hw Hq Hin Hh)
    as (e' & cid' & qe & _ & _ & Hscore).
  now apply score_row_inv in Hscore as (_ & -> & _).
Qed.

Lemma written_document_is_found_witness :
  exists h,
    In h [{| hit_id := 1; hit_text := "b"; hit_metadata := JNull;
             hit_similarity := S754_zero false |}]
    /\ hit_id h = 1 /\ hit_text h = "b"%string.
Proof.
  apply (written_document_is_found
           Sample.tool Sample.tool "c" "b" "a" JNull Sqlite.empty
           (snd (write Sample.tool "c" "b" JNull Sqlite.empty))
           (snd (write Sample.tool "c" "b" JNull Sqlite.empty))
           "Successfully wrote document 1 to collection 'c'" 1 5).
  - vm_compute; reflexivity.
  - vm_compute; reflexivity.
  - vm_compute; discriminate.
Defined.

(** ** Embeddings survive storage *)

(** The embedding is stored and read back bit for bit: whenever a query
    returns a document that [write] stored, its similarity is the cosine
    similarity of the query's encoding and the encoding [write] computed for
    the text, and its text is the text that was written. *)
Theorem stored_embedding_is_read_back
        (self reader : VectorDB.t) (collection text collection' q : string)
        (metadata : json) (db db' db'' : database) (msg : string)
        (id n_results : Z) (rs : list hit) (h : hit) :
  write self collection text metadata db = (Written msg id, db') ->
  query reader collection' q n_results db' = (Results rs, db'') ->
  In h rs -> hit_id h = id ->
  exists embedding query_embedding,
    model self text = Ok embedding
    /\ model reader q = Ok query_embedding
    /\ cosine_similarity query_embedding embedding = Ok (hit_similarity h)
    /\ hit_text h = text.
Proof.
  intros Hw Hq Hin Hid.
  destruct (query_written_row _ _ _ _ _ _ _ _ _ _ _ _ _ _ _ Hw Hq Hin Hid)
    as (embedding & cid & qe & Henc & Hqe & Hscore).
  apply score_row_inv in Hscore as (_ & Htext & _ & e & He & Hcos).
  cbn [written_row doc_embedding doc_text] in He, Htext.
  rewrite frombuffer_tobytes in He. injection He as <-.
  exists embedding, qe. auto.
Qed.

Lemma stored_embedding_is_read_back_witness :
  let h := {| hit_id := 1; hit_text := "b"; hit_metadata := JNull;
              hit_similarity := S754_zero false |} in
  exists embedding query_embedding,
    model Sample.tool "b" = Ok embedding
    /\ model Sample.tool "a" = Ok query_embedding
    /\ cosine_similarity query_embedding embedding = Ok (hit_similarity h)
    /\ hit_text h = "b"%string.
Proof.
  intros h.
  apply (stored_embedding_is_read_back
           Sample.tool Sample.tool "c" "b" "c" "a" JNull Sqlite.empty
           (snd (write Sample.tool "c" "b" JNull Sqlite.empty))
           (snd (write Sample.tool "c" "b" JNull Sqlite.empty))
           "Successfully wrote document 1 to collection 'c'" 1 5 [h] h).
  - vm_compute; reflexivity.
  - vm_compute; reflexivity.
  - now left.
  - reflexivity.
Defined.

(** Querying with the text of a stored document scores that document above
    0.999 in any collection, however many other documents it holds, provided
    the reader uses the writer's encoder and the encoding has a finite
    nonzero norm. *)
Theorem same_text_scores_above_999
        (self reader : VectorDB.t) (collection text collection' : string)
        (metadata : json) (db db' db'' : database) (msg : string)
        (id n_results : Z) (rs : list hit) (h : hit) (embedding : Np.ndarray) :
  write self collection text metadata db = (Written msg id, db') ->
  query reader collection' text n_results db' = (Results rs, db'') ->
  In h rs -> hit_id h = id ->
  model self text = Ok embedding -> model reader text = Ok embedding ->
  F32.is_finite (Np.norm embedding)
  && negb (F32.is_zero (Np.norm embedding)) = true ->
  gt_999 (hit_similarity h) = true.
Proof.
  intros Hw Hq Hin Hid Henc Hqenc Hnorm.
  destruct (query_written_row _ _ _ _ _ _ _ _ _ _ _ _ _ _ _ Hw Hq Hin Hid)
    as (e & cid & qe & He & Hqe & Hscore).
  assert (e = embedding) by congruence. assert (qe = embedding) by congruence.
  subst e qe.
  apply score_row_inv in Hscore as (_ & _ & _ & e & He' & Hcos).
  cbn [written_row doc_embedding] in He'.
  rewrite frombuffer_tobytes in He'. injection He' as <-.
  destruct (self_similarity_gt_999 embedding Hnorm) as (s & Hs & Hgt).
  congruence.
Qed.

Lemma same_text_scores_above_999_witness :
  gt_999 (S754_finite false 8388608 (-23)) = true.
Proof.
  apply (same_text_scores_above_999
           Sample.tool Sample.tool "c" "a" "c" JNull
           (snd (write Sample.tool "c" "b" JNull Sqlite.empty))
           (snd (write Sample.tool "c" "a" JNull
                       (snd (write Sample.tool "c" "b" JNull Sqlite.empty))))
           (snd (write Sample.tool "c" "a" JNull
                       (snd (write Sample.tool "c" "b" JNull Sqlite.empty))))
           "Successfully wrote document 2 to collection 'c'" 2 5
           [{| hit_id := 2; hit_text := "a"; hit_metadata := JNull;
               hit_similarity := S754_finite false 8388608 (-23) |};
            {| hit_id := 1; hit_text := "b"; hit_metadata := JNull;
               hit_similarity := S754_zero false |}]
           {| hit_id := 2; hit_text := "a"; hit_metadata := JNull;
              hit_similarity := S754_finite false 8388608 (-23) |}
           [Sample.one; Sample.zero]).
  - vm_compute; reflexivity.
  - vm_compute; reflexivity.
  - now left.
  - reflexivity.
  - reflexivity.
  - reflexivity.
  - vm_compute; reflexivity.
Defined.

(** ** When the operations fail *)

Lemma traverse_raise {A B} (f : A -> result B) (l : list A) (a : A) (e : exn) :
  In a l -> f a = Raise e ->
  exists a' e', In a' l /\ f a' = Raise e' /\ traverse f l = Raise e'.
Proof.
  induction l as [|x l IH]; intros [] Hf.
  - subst x. exists a, e. simpl. rewrite Hf. auto.
  - simpl. destruct (f x) as [b|ex] eqn:Hx.
    + destruct (IH H Hf) as (a' & e' & Hin & Ha' & ->). exists a', e'. auto.
    + exists x, ex. auto.
Qed.

Lemma traverse_raise_inv {A B} (f : A -> result B) (l : list A) (e : exn) :
  traverse f l = Raise e -> exists a, In a l /\ f a = Raise e.
Proof.
  induction l as [|x l IH]; simpl; [discriminate|].
  destruct (f x) as [b|ex] eqn:Hx.
  - destruct (traverse f l); [discriminate|].
    intros [= <-]. destruct (IH eq_refl) as (a & Hin & Ha). eauto.
  - intros [= <-]. eauto.
Qed.

Lemma frombuffer_length (buf : list byte) (a : Np.ndarray) :
  Np.frombuffer buf = Ok a -> List.length buf = (4 * List.length a)%nat.
Proof.
  remember (List.length buf) as n eqn:Hn. revert buf a Hn.
  induction n as [n IH] using lt_wf_ind. intros buf a Hn.
  destruct buf as [|b0 [|b1 [|b2 [|b3 rest]]]]; try discriminate.
  - intros [= <-]. subst n; reflexivity.
  - cbn [Np.frombuffer].
    destruct (Np.frombuffer rest) as [a'|] eqn:E; [|discriminate].
    intros [= <-]. subst n. cbn [List.length].
    rewrite (IH (List.length rest) ltac:(simpl; lia) rest a' eq_refl E). lia.
Qed.

(** Embeddings of another dimension break the collection for queries.  When
    one document of a collection has an embedding whose size is not that of
    the query's encoding (say after a change of model), every query on the
    collection fails with an error envelope, whatever [n_results] is; no
    partial result is returned. *)
Theorem mixed_dimensions_fail_the_query
        (self : VectorDB.t) (collection q : string) (n_results : Z)
        (db : database) (query_embedding : Np.ndarray) (cid : Z)
        (row : document_row) :
  model self q = Ok query_embedding ->
  select_collection_id db collection = Some cid ->
  In row (documents db) -> doc_collection_id row = cid ->
  List.length (doc_embedding row) <> (4 * List.length query_embedding)%nat ->
  exists msg, query self collection q n_results db = (Error msg, db).
Proof.
  intros Hqe Hsel Hin Hc Hlen.
  assert (Hrow : In row (select_documents db cid))
    by (apply select_documents_in; auto).
  assert (Hfail : exists e, score_row query_embedding row = Raise e).
  { unfold score_row.
    destruct (Np.frombuffer (doc_embedding row)) as [e|ex] eqn:E;
      cbn [rbind]; [|eauto].
    apply frombuffer_length in E.
    unfold cosine_similarity, Np.dot.
    destruct (Nat.eqb_spec (List.length query_embedding) (List.length e));
      [lia|]. cbn [rbind]. eauto. }
  destruct Hfail as [e He].
  destruct (traverse_raise _ _ _ _ Hrow He) as (a' & e' & _ & _ & Htr).
  rewrite query_unfold; cbv zeta. rewrite Hqe, Hsel, Htr.
  destruct (io self Query_connect); [eauto|].
  destruct (io self Query_select_collection); [eauto|].
  destruct (io self Query_select_documents); eauto.
Qed.

Lemma mixed_dimensions_fail_the_query_witness :
  exists msg,
    query {| model := fun _ => Ok [Sample.one]; io := no_faults |}
          "c" "a" 5 Sample.twice_a
    = (Error msg, Sample.twice_a).
Proof.
  apply (mixed_dimensions_fail_the_query
           {| model := fun _ => Ok [Sample.one]; io := no_faults |}
           "c" "a" 5 Sample.twice_a [Sample.one] 1
           {| doc_id := 1; doc_collection_id := 1; doc_text := "a";
              doc_metadata := None;
              doc_embedding := Np.tobytes [Sample.one; Sample.zero] |}).
  - reflexivity.
  - reflexivity.
  - left; reflexivity.
  - reflexivity.
  - vm_compute; discriminate.
Defined.




(** The causes of an error envelope of [query]: the collection is unknown
    (with the not-found message), or an exception was caught and reported as
    ["Error querying database: "] followed by [str(e)], raised by the encoder
    on the query text, by the storage layer, or while a stored document of
    the collection was decoded and scored.  Ranking and truncation never
    fail. *)
Theorem query_failure_causes
        (self : VectorDB.t) (collection q : string) (n_results : Z)
        (db : database) (msg : string) (db' : database) :
  query self collection q n_results db = (Error msg, db') ->
  (select_collection_id db collection = None
   /\ msg = not_found_message collection)
  \/ exists e,
      msg = ("Error querying database: " ++ exn_str e)%string
      /\ (model self q = Raise e
          \/ (exists s, io self s = Some e)
          \/ exists query_embedding cid row,
              model self q = Ok query_embedding
              /\ select_collection_id db collection = Some cid
              /\ In row (documents db) /\ doc_collection_id row = cid
              /\ score_row query_embedding row = Raise e).
Proof.
  rewrite query_unfold; cbv zeta.
  destruct (model self q) as [qe|e];
    [|intros [= <- <-]; right; eexists; split; [reflexivity|now left]].
  destruct (io self Query_connect) as [e|] eqn:E1;
    [intros [= <- <-]; right; eexists; split;
     [reflexivity|right; left; eexists; eassumption]|].
  destruct (io self Query_select_collection) as [e|] eqn:E2;
    [intros [= <- <-]; right; eexists; split;
     [reflexivity|right; left; eexists; eassumption]|].
  destruct (select_collection_id db collection) as [cid|] eqn:Hsel;
    [|intros [= <- <-]; left; auto].
  destruct (io self Query_select_documents) as [e|] eqn:E3;
    [intros [= <- <-]; right; eexists; split;
     [reflexivity|right; left; eexists; eassumption]|].
  destruct (traverse (score_row qe) (select_documents db cid))
    as [docs|e] eqn:Htr.
  - destruct (top_results_total docs n_results) as [rs ->]. discriminate.
  - intros [= <- <-]. right. exists e. split; [reflexivity|].
    right; right.
    apply traverse_raise_inv in Htr as (row & Hrow & Hscore).
    apply select_documents_in in Hrow as [Hrow Hc].
    exists qe, cid, row. auto.
Qed.

Lemma query_failure_causes_witness :
  let reader := {| model := fun _ => Ok [Sample.one]; io := no_faults |} in
  (select_collection_id Sample.twice_a "c" = None
   /\ "Error querying database: shapes not aligned"%string
      = not_found_message "c")
  \/ exists e,
      "Error querying database: shapes not aligned"%string
      = ("Error querying database: " ++ exn_str e)%string
      /\ (model reader "a" = Raise e
          \/ (exists s, io reader s = Some e)
          \/ exists query_embedding cid row,
              model reader "a" = Ok query_embedding
              /\ select_collection_id Sample.twice_a "c" = Some cid
              /\ In row (documents Sample.twice_a)
              /\ doc_collection_id row = cid
              /\ score_row query_embedding row = Raise e).
Proof.
  intros reader.
  apply (query_failure_causes reader "c" "a" 5 Sample.twice_a
                              "Error querying database: shapes not aligned"
                              Sample.twice_a).
  vm_compute; reflexivity.
Defined.

(** ** The results are the best matches *)

Lemma StronglySorted_app_inv {A} (R : A -> A -> Prop) (l1 l2 : list A)
      (a b : A) :
  StronglySorted R (l1 ++ l2) -> In a l1 -> In b l2 -> R a b.
Proof.
  induction l1 as [|x l1 IH]; intros Hs [] Hb; simpl in Hs;
    apply StronglySorted_inv in Hs as [Hs Hx].
  - subst x. rewrite Forall_forall in Hx. apply Hx, in_or_app. now right.
  - now apply IH.
Qed.

Lemma at_nth_error (v : list F32.t) (i : nat) (x : F32.t) :
  nth_error v i = Some x -> Np.at_ v i = x.
Proof. intros H. unfold Np.at_. now apply nth_error_nth. Qed.

(** No document left out of the results ranks above one that was returned:
    if a query returns [h] and omits a document of the collection whose
    score is [d], then [h]'s similarity is not below [d]'s in the order the
    ranking sorts by; for two numbers this is [d <= h].  This holds for
    every [n_results], negative ones included. *)
Theorem omitted_documents_do_not_rank_higher
        (self : VectorDB.t) (collection q : string) (n_results : Z)
        (db db' : database) (rs : list hit) (h d : hit)
        (query_embedding : Np.ndarray) (cid : Z) (row : document_row) :
  query self collection q n_results db = (Results rs, db') ->
  model self q = Ok query_embedding ->
  select_collection_id db collection = Some cid ->
  In h rs ->
  In row (documents db) -> doc_collection_id row = cid ->
  score_row query_embedding row = Ok d ->
  (forall h', In h' rs -> hit_id h' <> doc_id row) ->
  Np.float_lt (hit_similarity h) (hit_similarity d) = false
  /\ (F32.is_nan (hit_similarity h) = false ->
      F32.is_nan (hit_similarity d) = false ->
      F32.leb (hit_similarity d) (hit_similarity h) = true).
Proof.
  intros Hq Hqe Hsel Hh Hrow Hc Hd Hout.
  destruct (query_results_inv _ _ _ _ _ _ _ Hq)
    as (qe & cid' & docs & Hqe' & Hsel' & Hdocs & Htop).
  assert (qe = query_embedding) by congruence.
  assert (cid' = cid) by congruence. subst qe cid'.
  assert (Hlt : Np.float_lt (hit_similarity h) (hit_similarity d) = false);
    [|split; [exact Hlt|intros; now apply float_lt_false_leb]].
  pose proof (top_results_spec _ _ _ Htop) as Hspec.
  unfold sorted_indices in Hspec.
  set (v := map hit_similarity docs) in *.
  destruct (slice_to_firstn (ranking v) n_results) as [k Hk].
  rewrite Hk in Hspec.
  (* the index of [h] is kept *)
  apply In_nth_error in Hh as [i Hi].
  destruct (Forall2_nth_error_r _ _ _ _ _ Hspec Hi) as (a & Ha & Hah).
  apply nth_error_In in Ha.
  (* the index of [row] is dropped *)
  assert (Hrow' : In row (select_documents db cid))
    by (apply select_documents_in; auto).
  apply In_nth_error in Hrow' as [b Hb].
  apply traverse_Forall2 in Hdocs.
  destruct (Forall2_nth_error_l _ _ _ _ _ Hdocs Hb) as (d' & Hd' & Hscore).
  assert (d' = d) by congruence; subst d'.
  assert (Hbr : In b (ranking v)).
  { apply (Permutation_in _ (Permutation_sym (ranking_perm v))).
    apply in_seq. unfold v. rewrite length_map.
    assert (b < List.length docs)%nat
      by (apply nth_error_Some; rewrite Hd'; discriminate).
    lia. }
  rewrite <- (firstn_skipn k (ranking v)) in Hbr.
  apply in_app_or in Hbr as [Hbk|Hbs].
  - exfalso. apply In_nth_error in Hbk as [j Hj].
    destruct (Forall2_nth_error_l _ _ _ _ _ Hspec Hj) as (h' & Hh' & Hbh').
    assert (h' = d) by congruence; subst h'.
    apply (Hout d); [eapply nth_error_In; eauto|].
    now apply score_row_inv in Hd as (-> & _).
  - pose proof (ranking_sorted v) as Hs.
    rewrite <- (firstn_skipn k (ranking v)) in Hs.
    destruct (StronglySorted_app_inv _ _ _ _ _ Hs Ha Hbs) as [Hab _].
    rewrite (at_nth_error v a (hit_similarity h)) in Hab
      by (unfold v; rewrite nth_error_map, Hah; reflexivity).
    rewrite (at_nth_error v b (hit_similarity d)) in Hab
      by (unfold v; rewrite nth_error_map, Hd'; reflexivity).
    exact Hab.
Qed.

Lemma omitted_documents_do_not_rank_higher_witness :
  let db := Sample.after [write Sample.tool "c" "b" JNull;
                          write Sample.tool "c" "a" JNull] in
  let h := {| hit_id := 2; hit_text := "a"; hit_metadata := JNull;
              hit_similarity := S754_finite false 8388608 (-23) |} in
  let d := {| hit_id := 1; hit_text := "b"; hit_metadata := JNull;
              hit_similarity := S754_zero false |} in
  query Sample.tool "c" "a" 1 db = (Results [h], db)
  /\ Np.float_lt (hit_similarity h) (hit_similarity d) = false
  /\ (F32.is_nan (hit_similarity h) = false ->
      F32.is_nan (hit_similarity d) = false ->
      F32.leb (hit_similarity d) (hit_similarity h) = true).
Proof.
  intros db h d. split; [vm_compute; reflexivity|].
  apply (omitted_documents_do_not_rank_higher
           Sample.tool "c" "a" 1 db db [h] h d [Sample.one; Sample.zero] 1
           {| doc_id := 1; doc_collection_id := 1; doc_text := "b";
              doc_metadata := None;
              doc_embedding := Np.tobytes [Sample.zero; Sample.one] |}).
  - vm_compute; reflexivity.
  - reflexivity.
  - reflexivity.
  - now left.
  - left; reflexivity.
  - reflexivity.
  - vm_compute; reflexivity.
  - intros h' [<-|[]]. discriminate.
Defined.

(** ** The command line *)



(** ** Concurrent callers: ids handed out are valid *)

Lemma nth_error_replace_nth_eq {A} (i : nat) (a x : A) (l : list A) :
  nth_error l i = Some x -> nth_error (replace_nth i a l) i = Some a.
Proof.
  revert i; induction l as [|y l IH]; intros [|i]; simpl; try discriminate;
    auto.
Qed.

Lemma nth_error_replace_nth_neq {A} (i j : nat) (a : A) (l : list A) :
  i <> j -> nth_error (replace_nth i a l) j = nth_error l j.
Proof.
  revert i j; induction l as [|y l IH]; intros [|i] [|j] H; simpl; auto;
    try congruence.
Qed.

Lemma nth_error_replace_nth {A} (i j : nat) (a x c : A) (l : list A) :
  nth_error l i = Some x ->
  nth_error (replace_nth i a l) j = Some c ->
  (j = i /\ c = a) \/ (j <> i /\ nth_error l j = Some c).
Proof.
  intros Hi Hj. destruct (Nat.eq_dec i j) as [->|Hne].
  - rewrite (nth_error_replace_nth_eq _ _ _ _ Hi) in Hj. left; split; congruence.
  - rewrite nth_error_replace_nth_neq in Hj by assumption. right; auto.
Qed.

Lemma existsb_holds_lock_false (cs : list caller) (j : nat) (c : caller) :
  existsb holds_lock cs = false -> nth_error cs j = Some c ->
  holds_lock c = false.
Proof.
  intros H Hj. destruct (holds_lock c) eqn:E; [|reflexivity].
  assert (existsb holds_lock cs = true)
    by (apply existsb_exists; exists c; split;
        [eapply nth_error_In; eauto|assumption]).
  congruence.
Qed.

Lemma insert_collection_inv (db conn : database) (n : string) (id : Z) :
  insert_collection db n = Ok (conn, id) ->
  select_collection_id db n = None
  /\ conn = add_collection db n /\ id = new_collection_id db.
Proof.
  unfold insert_collection.
  destruct (existsb (name_is n) (collections db)) eqn:E; [discriminate|].
  intros [= <- <-]. split; [|split; reflexivity].
  unfold select_collection_id. apply existsb_name_find in E. now rewrite E.
Qed.

Lemma select_add_keeps (db : database) (n n' : string) (id : Z) :
  select_collection_id db n' = Some id ->
  select_collection_id (add_collection db n) n' = Some id.
Proof.
  unfold select_collection_id, add_collection; cbn [collections].
  destruct (find (name_is n') (collections db)) as [c|] eqn:E; [|discriminate].
  now rewrite (find_app_some _ _ _ _ E).
Qed.

(** Moving a caller that holds no lock, before and after, keeps the
    invariant when the committed registry stays the same. *)
Lemma consistent_move (db0 : database) (sys : system) (i : nat) (c c' : caller) :
  consistent db0 sys -> nth_error (callers sys) i = Some c ->
  caller_ok (shared sys) c' ->
  (holds_lock c' = true ->
   forall j cj, nth_error (callers sys) j = Some cj -> j <> i ->
                holds_lock cj = false) ->
  consistent db0 {| shared := shared sys;
                    callers := replace_nth i c' (callers sys) |}.
Proof.
  intros (Hpre & Hdocs & Hok & Hlock) Hi Hc' Hl.
  split; [exact Hpre|]. split; [exact Hdocs|]. cbn [shared callers]. split.
  - intros j cj Hj.
    destruct (nth_error_replace_nth _ _ _ _ _ _ Hi Hj) as [[_ ->]|[_ Hj']];
      [assumption|eauto].
  - intros a b ca cb Ha Hb Hla Hlb.
    destruct (nth_error_replace_nth _ _ _ _ _ _ Hi Ha) as [[-> ->]|[Hna Ha']];
      destruct (nth_error_replace_nth _ _ _ _ _ _ Hi Hb) as [[-> ->]|[Hnb Hb']];
      try reflexivity.
    + specialize (Hl Hla b cb Hb' Hnb). congruence.
    + specialize (Hl Hlb a ca Ha' Hna). congruence.
    + eauto.
Qed.

Lemma step_consistent (db0 : database) (i : nat) (sys : system) :
  consistent db0 sys -> consistent db0 (step i sys).
Proof.
  intros Hc. unfold step.
  destruct (nth_error (callers sys) i) as [c|] eqn:Hi; [|assumption].
  pose proof Hc as (Hpre & Hdocs & Hok & Hlock).
  pose proof (Hok i c Hi) as Hci. unfold caller_ok in Hci. revert Hci.
  destruct (at_ c) as [|[id|]|conn id|r] eqn:Hat; intros Hci.
  - apply (consistent_move db0 sys i c _ Hc Hi); [|discriminate].
    unfold caller_ok; cbn [at_ name].
    now destruct (select_collection_id (shared sys) (name c)).
  - apply (consistent_move db0 sys i c _ Hc Hi); [exact Hci|discriminate].
  - destruct (existsb holds_lock (callers sys)) eqn:El.
    + apply (consistent_move db0 sys i c _ Hc Hi); [exact I|discriminate].
    + destruct (insert_collection (shared sys) (name c)) as [[conn id]|e] eqn:E.
      * apply (consistent_move db0 sys i c _ Hc Hi); [exact E|].
        intros _ j cj Hj _. eapply existsb_holds_lock_false; eauto.
      * apply (consistent_move db0 sys i c _ Hc Hi); [exact I|discriminate].
  - apply insert_collection_inv in Hci as (Hnone & -> & ->).
    assert (Hci : holds_lock c = true) by (unfold holds_lock; now rewrite Hat).
    split; [|split; [|split]]; cbn [shared callers].
    + destruct Hpre as [cs Hcs]. eexists. cbn [add_collection collections].
      rewrite Hcs, <- app_assoc. reflexivity.
    + exact Hdocs.
    + intros j cj Hj.
      destruct (nth_error_replace_nth _ _ _ _ _ _ Hi Hj) as [[_ ->]|[Hne Hj']].
      * unfold caller_ok; cbn [at_ name]. now apply select_after_add.
      * pose proof (Hok j cj Hj') as Hcj. unfold caller_ok in *.
        destruct (at_ cj) as [|[id|]|conn id|[id|e]] eqn:Hatj; auto.
        -- now apply select_add_keeps.
        -- exfalso. apply Hne. apply (Hlock j i cj c); auto.
           unfold holds_lock; now rewrite Hatj.
        -- now apply select_add_keeps.
    + intros a b ca cb Ha Hb Hla Hlb.
      destruct (nth_error_replace_nth _ _ _ _ _ _ Hi Ha) as [[-> ->]|[Hna Ha']];
        [discriminate|].
      destruct (nth_error_replace_nth _ _ _ _ _ _ Hi Hb) as [[-> ->]|[Hnb Hb']];
        [discriminate|]. eauto.
  - assumption.
Qed.

Lemma run_consistent (db0 : database) (schedule : list nat) (sys : system) :
  consistent db0 sys -> consistent db0 (run schedule sys).
Proof.
  revert sys; induction schedule as [|i schedule IH]; intros sys H;
    [assumption|].
  apply IH. now apply step_consistent.
Qed.

Lemma initial_consistent (db : database) (names : list string) :
  consistent db (initial db names).
Proof.
  split; [exists []; symmetry; apply app_nil_r|]. split; [reflexivity|].
  unfold initial; cbn [shared callers]. split.
  - intros j c Hj. apply nth_error_In in Hj.
    apply in_map_iff in Hj as (n & <- & _). exact I.
  - intros i j ci cj Hi _ Hl. apply nth_error_In in Hi.
    apply in_map_iff in Hi as (n & <- & _). discriminate.
Qed.

(** In every interleaving of any number of concurrent callers of
    [_get_or_create_collection], on any store: the rows that were committed
    stay (the registry only grows by appended rows, and no document is
    touched); an id a caller returns is the id under which its name is
    committed; and two callers with the same name that both return an id
    return the same one. *)
Theorem concurrent_get_or_create_returns_committed_ids
        (db : database) (names : list string) (schedule : list nat) :
  let sys := run schedule (initial db names) in
  (exists cs, collections (shared sys) = collections db ++ cs)
  /\ documents (shared sys) = documents db
  /\ (forall c id,
         In c (callers sys) -> at_ c = Returned (Ok id) ->
         select_collection_id (shared sys) (name c) = Some id)
  /\ (forall c c' id id',
         In c (callers sys) -> In c' (callers sys) -> name c = name c' ->
         at_ c = Returned (Ok id) -> at_ c' = Returned (Ok id') -> id = id').
Proof.
  intros sys.
  destruct (run_consistent db schedule _ (initial_consistent db names))
    as (Hpre & Hdocs & Hok & _).
  fold sys in Hpre, Hdocs, Hok.
  assert (Hret : forall c id,
             In c (callers sys) -> at_ c = Returned (Ok id) ->
             select_collection_id (shared sys) (name c) = Some id).
  { intros c id Hin Hat. apply In_nth_error in Hin as [j Hj].
    pose proof (Hok j c Hj) as H. unfold caller_ok in H. now rewrite Hat in H. }
  repeat split; auto.
  intros c c' id id' Hc Hc' Hn Hat Hat'.
  pose proof (Hret c id Hc Hat) as H1. pose proof (Hret c' id' Hc' Hat') as H2.
  rewrite Hn in H1. congruence.
Qed.
